(** * STA-UNet: the training driver and the network topology

    A shallow embedding of [trainer_unet.py] (the two training loops and the
    feature-distillation loss [KDloss]) and of [unet/unet_stvit.py] (the
    encoder/decoder network [UNet_STA]).

    Conventions of the embedding:
    - Python integers are [Z] (the sizes of a tensor with values are [nat]);
      Python and tensor floating-point scalars are idealised as real numbers
      [R].
    - A tensor that only matters through its shape is a [shape]; a tensor
      whose values matter is a [tensor] (its four sizes and an indexing
      function).
    - Code that can raise returns an [option] or an [outcome]; a trainer
      returns, with its outcome, the trace of the calls it made (prints, log
      lines, scalars written, optimizer calls, files saved).
    - The layers of the tensor framework ([Conv2d], [BatchNorm2d], ...) are
      given by the shape rule of their documentation; the network is in
      training mode, the mode of a new module and the one both trainers
      set.
    - A one-dimensional numpy array is a [list R]; [cosine_scheduler]
      returns one, or raises: a [result]. *)

From Stdlib Require Import Reals Lra ZArith Lia Ascii String.
From stdpp Require Import base numbers option list strings pretty gmap.

(** ** The network of [unet/unet_stvit.py], on shapes *)

Module unet_stvit.

Local Open Scope Z_scope.

(** The sizes (N, C, H, W) of a 4-dimensional tensor. *)
Record shape := Shape { dimN : Z; dimC : Z; dimH : Z; dimW : Z }.

(** A module's [forward], on shapes: [None] is the framework's shape error. *)
Definition layer := shape → option shape.

(** [nn.Conv2d(in_c, out_c, kernel_size, padding)], stride and dilation 1. *)
Definition Conv2d (in_c out_c kernel_size padding : Z) : layer := λ x,
  if decide (dimC x = in_c)
  then Some (Shape (dimN x) out_c
               ((dimH x + 2 * padding - (kernel_size - 1) - 1) `div` 1 + 1)
               ((dimW x + 2 * padding - (kernel_size - 1) - 1) `div` 1 + 1))
  else None.

(** [nn.BatchNorm2d(c)] in training mode, the mode of a new module and the
    one [model.train()] sets: a batch with a single value per channel is
    refused ("Expected more than 1 value per channel when training"). *)
Definition BatchNorm2d (c : Z) : layer := λ x,
  if decide (dimC x = c ∧ dimN x * dimH x * dimW x ≠ 1) then Some x else None.

(** [nn.ReLU()]. *)
Definition ReLU : layer := λ x, Some x.

(** [nn.MaxPool2d((k, k))]: the stride defaults to the kernel size; an
    output without a row or a column is refused ("Output size is too
    small"). *)
Definition MaxPool2d (k : Z) : layer := λ x,
  let h := (dimH x - (k - 1) - 1) `div` k + 1 in
  let w := (dimW x - (k - 1) - 1) `div` k + 1 in
  if decide (0 < h ∧ 0 < w) then Some (Shape (dimN x) (dimC x) h w) else None.

(** [nn.ConvTranspose2d(in_c, out_c, kernel_size, stride, padding)]. *)
Definition ConvTranspose2d (in_c out_c kernel_size stride padding : Z) : layer := λ x,
  if decide (dimC x = in_c)
  then Some (Shape (dimN x) out_c
               ((dimH x - 1) * stride - 2 * padding + (kernel_size - 1) + 1)
               ((dimW x - 1) * stride - 2 * padding + (kernel_size - 1) + 1))
  else None.

(** [torch.cat([x, skip], axis=1)]: every size but the channels must agree. *)
Definition cat_axis1 (x skip : shape) : option shape :=
  if decide (dimN x = dimN skip ∧ dimH x = dimH skip ∧ dimW x = dimW skip)
  then Some (Shape (dimN x) (dimC x + dimC skip) (dimH x) (dimW x))
  else None.

(** [class conv_block]: two 3x3 convolutions, each with batch norm and relu. *)
Definition conv_block (in_c out_c : Z) : layer := λ inputs,
  x ← Conv2d in_c out_c 3 1 inputs;
  x ← BatchNorm2d out_c x;
  x ← ReLU x;
  x ← Conv2d out_c out_c 3 1 x;
  x ← BatchNorm2d out_c x;
  x ← ReLU x;
  Some x.

(** [class encoder_block]: returns the pair [(x, p)]. *)
Definition encoder_block (in_c out_c : Z) (inputs : shape) : option (shape * shape) :=
  x ← conv_block in_c out_c inputs;
  p ← MaxPool2d 2 x;
  Some (x, p).

(** [class decoder_block]. *)
Definition decoder_block (in_c out_c : Z) (inputs skip : shape) : option shape :=
  x ← ConvTranspose2d in_c out_c 2 2 0 inputs;
  x ← cat_axis1 x skip;
  x ← conv_block (out_c + out_c) out_c x;
  Some x.

(** The keyword arguments [BasicLayer] is constructed with. *)
Record BasicLayer_args := BasicLayerArgs {
  num_layers : Z;
  dim : Z * Z;
  mamba_dim : Z;
  n_iter : Z;
  stoken_size : Z * Z;
  num_heads : Z
}.

Section UNet_STA.

(** [BasicLayer] comes from [unet/stvit.py], which is not part of the
    sources at hand: its [forward] is a parameter of the network. *)
Variable BasicLayer : BasicLayer_args → layer.

(** [class UNet_STA]: [__init__] builds the stages, [forward] chains them. *)
Record UNet_STA := {
  e1 : shape → option (shape * shape); e_svl1 : layer;
  e2 : shape → option (shape * shape); e_svl2 : layer;
  e3 : shape → option (shape * shape); e_svl3 : layer;
  e4 : shape → option (shape * shape); e_svl4 : layer;
  b : layer;
  d1 : shape → shape → option shape; d_svl1 : layer;
  d2 : shape → shape → option shape; d_svl2 : layer;
  d3 : shape → shape → option shape; d_svl3 : layer;
  d4 : shape → shape → option shape; d_svl4 : layer;
  outputs : layer
}.

Definition UNet_STA_init (n_in n_class : Z) : UNet_STA := {|
  e1 := encoder_block n_in 64;
  e_svl1 := BasicLayer (BasicLayerArgs 1 (64, 64) 28 1 (4, 4) 2);
  e2 := encoder_block 64 128;
  e_svl2 := BasicLayer (BasicLayerArgs 2 (128, 128) 28 1 (2, 2) 4);
  e3 := encoder_block 128 256;
  e_svl3 := BasicLayer (BasicLayerArgs 3 (256, 256) 28 1 (1, 1) 8);
  e4 := encoder_block 256 512;
  e_svl4 := BasicLayer (BasicLayerArgs 4 (512, 512) 14 1 (1, 1) 16);
  b := conv_block 512 1024;
  d1 := decoder_block 1024 512;
  d_svl1 := BasicLayer (BasicLayerArgs 4 (512, 512) 28 1 (1, 1) 16);
  d2 := decoder_block 512 256;
  d_svl2 := BasicLayer (BasicLayerArgs 3 (256, 256) 56 1 (1, 1) 8);
  d3 := decoder_block 256 128;
  d_svl3 := BasicLayer (BasicLayerArgs 2 (128, 128) 56 1 (2, 2) 4);
  d4 := decoder_block 128 64;
  d_svl4 := BasicLayer (BasicLayerArgs 1 (64, 64) 56 1 (4, 4) 2);
  outputs := Conv2d 64 n_class 1 0
|}.

Definition UNet_STA_forward (self : UNet_STA) (inputs : shape) : option shape :=
  '(s1, p1) ← e1 self inputs;
  p1 ← e_svl1 self p1;
  '(s2, p2) ← e2 self p1;
  p2 ← e_svl2 self p2;
  '(s3, p3) ← e3 self p2;
  p3 ← e_svl3 self p3;
  '(s4, p4) ← e4 self p3;
  p4 ← e_svl4 self p4;
  b_ ← b self p4;
  d1_ ← d1 self b_ s4;
  d1_ ← d_svl1 self d1_;
  d2_ ← d2 self d1_ s3;
  d2_ ← d_svl2 self d2_;
  d3_ ← d3 self d2_ s2;
  d3_ ← d_svl3 self d3_;
  d4_ ← d4 self d3_ s1;
  d4_ ← d_svl4 self d4_;
  outputs self d4_.

End UNet_STA.

(** The one assumption on the absent [BasicLayer]: it refines a feature map
    with [dim[0]] channels in place, without changing its shape. *)
Definition refines_in_place (BasicLayer : BasicLayer_args → layer) : Prop :=
  ∀ args x, dimC x = (dim args).1 → BasicLayer args x = Some x.

End unet_stvit.

(** ** The training driver of [trainer_unet.py] *)

Module trainer_unet.

Local Open Scope Z_scope.

(** *** Python values and exceptions *)

Inductive exn :=
  | UnboundLocalError (name : string)
  | ZeroDivisionError
  | ComplexResult
  | CudaUnavailable
  | NoProfilerActivity.

Inductive outcome (A : Type) :=
  | Return (a : A)
  | Raise (e : exn).
Arguments Return {A} a.
Arguments Raise {A} e.

(** [range(n)]: empty when [n <= 0]. *)
Definition range (n : Z) : list Z := Z.of_nat <$> seq 0 (Z.to_nat n).

(** [enumerate(l)]. *)
Definition enumerate {A} (l : list A) : list (Z * A) :=
  imap (λ i a, (Z.of_nat i, a)) l.

(** [str(n)] for an integer. *)
Definition str (n : Z) : string := pretty n.

(** [os.path.join(a, b)] for a relative [b] (POSIX). *)
Definition ends_with_slash (a : string) : bool :=
  match reverse (String.list_ascii_of_string a) with
  | c :: _ => bool_decide (c = "/"%char)
  | [] => false
  end.

Definition os_path_join (a b : string) : string :=
  if bool_decide (a = "") then b
  else if ends_with_slash a then a +:+ b
  else a +:+ "/" +:+ b.

(** Python's [x ** y] on floats, where it is a real number: [0.0 ** y] is
    [0.0] for a positive [y] and [1.0] for [y = 0]; a negative power of zero
    and a power of a negative base are [None] (the code only takes the power
    0.9, which is not an integer). *)
Definition float_pow (x y : R) : option R :=
  if Rlt_dec 0 x then Some (Rpower x y)
  else if Req_dec_T x 0
  then (if Rlt_dec 0 y then Some 0%R else if Req_dec_T y 0 then Some 1%R else None)
  else None.

(** The schedule of lines 192 and 295:
    [base_lr * (1.0 - iter_num / max_iterations) ** 0.9]. *)
Definition poly_lr (base_lr : R) (iter_num max_iterations : Z) : outcome R :=
  if decide (max_iterations = 0) then Raise ZeroDivisionError
  else match float_pow (1.0 - IZR iter_num / IZR max_iterations) 0.9 with
       | Some p => Return (base_lr * p)%R
       | None => Raise ComplexResult
       end.

(** *** The tensor framework and the dataset package, as an interface *)

(** A 0-dimensional tensor with its place in the autograd graph: its value
    ([.item()]) and its gradient with respect to the model's weights. *)
Record loss_tensor (Grad : Type) := LossTensor { item : R; grad_fn : Grad }.
Arguments LossTensor {Grad} item grad_fn.
Arguments item {Grad} l.
Arguments grad_fn {Grad} l.

(** The optimizers the two trainers construct. *)
Inductive optim_kind :=
  | SGD (momentum weight_decay : R)
  | AdamW (weight_decay : R).

(** The configuration the argument parser supplies. *)
Record args := Args {
  base_lr : R;
  num_classes : Z;
  batch_size : Z;
  n_gpu : Z;
  max_epochs : Z;
  img_size : Z;
  seed : Z;
  root_path : string;
  list_dir : string
}.

Class Framework := {
  Module_ : Type;                       (* an [nn.Module] with its weights *)
  Tensor : Type;
  Grad : Type;                          (* the [.grad] of all weights *)
  StateDict : Type;
  OptState : Type;                      (* momentum buffers and the like *)
  Dataset : Type;
  (* [model(x)], in training mode *)
  forward : Module_ → Tensor → Tensor;
  DataParallel : Module_ → Module_;
  state_dict : Module_ → StateDict;
  (* tensor conversions *)
  cuda : Tensor → Tensor;
  long : Tensor → Tensor;
  float : Tensor → Tensor;
  unsqueeze : Z → Tensor → Tensor;
  (* [CrossEntropyLoss()(outputs, target)] *)
  CrossEntropyLoss : Tensor → Tensor → loss_tensor Grad;
  (* [DiceLoss(n_classes)(outputs, target, softmax=True)] *)
  DiceLoss : Z → Tensor → Tensor → bool → loss_tensor Grad;
  (* gradients: [zero_grad] and the accumulation done by [backward] *)
  grad_zero : Grad;
  grad_add : Grad → Grad → Grad;
  grad_scale : R → Grad → Grad;
  (* [optim.SGD(...)] / [optim.AdamW(...)] and their [step], which reads the
     learning rate of the parameter group *)
  optim_init : optim_kind → Module_ → OptState;
  optim_step : optim_kind → R → OptState → Module_ → Grad → Module_ * OptState;
  (* the datasets of [block_dataset.dataset_synapse] *)
  Synapse_dataset : string → string → Z → Dataset;
  ASSD_dataset : string → string → Z → Dataset;
  len_dataset : Dataset → Z;
  (* [DataLoader(db, batch_size, shuffle=True, ...)]: the number of batches
     and, for the n-th pass over it, the (image, label) batches in order *)
  len_trainloader : Dataset → Z → Z;
  batches : Dataset → Z → Z → Z → list (Tensor * Tensor);
  length_batches db bs sd n :
    Z.of_nat (length (batches db bs sd n)) = len_trainloader db bs
}.

Section Trainer.

Context `{Framework}.

(** [c * t] and [t + u] on 0-dimensional tensors. *)
Definition rmul (c : R) (t : loss_tensor Grad) : loss_tensor Grad :=
  LossTensor (c * item t)%R (grad_scale c (grad_fn t)).

Definition tadd (t u : loss_tensor Grad) : loss_tensor Grad :=
  LossTensor (item t + item u)%R (grad_add (grad_fn t) (grad_fn u)).

(** An optimizer object: [param_groups[0]['lr']] and the internal state. *)
Record optimizer_t := Optimizer {
  kind : optim_kind;
  lr : R;
  opt_state : OptState
}.

(** *** Effects: the calls a run makes, in program order *)

Inductive log_record :=
  | log_args (a : args)
  | log_iterations_per_epoch (n max_iterations : Z)
  | log_iteration (iter_num : Z) (loss loss_dice loss_ce : R)
  | log_save_model (path : string).

Inductive print_line :=
  | print_train_set_length (n : Z)
  | print_str (s : string)
  | print_mini_batch (epoch_num i_batch total : Z) (loss : R)
  | print_profiler_table (sort_by : string).

Inductive call :=
  | print (l : print_line)
  | logging_info (r : log_record)
  | zero_grad
  | backward (loss : loss_tensor Grad)
  | optimizer_step (lr_used : R)
  | add_scalar (tag : string) (scalar_value : R) (global_step : Z)
  | torch_save (sd : StateDict) (path : string)
  | writer_close
  | iterator_close.

(** A statement: the calls it makes, and how it ends. *)
Definition M (A : Type) : Type := list call * outcome A.

Definition ret {A} (a : A) : M A := ([], Return a).
Definition raise {A} (e : exn) : M A := ([], Raise e).
Definition bind {A B} (f : A → M B) (m : M A) : M B :=
  match m with
  | (tr, Return a) => let '(tr', r) := f a in (tr ++ tr', r)
  | (tr, Raise e) => (tr, Raise e)
  end.
Definition do (c : call) : M () := ([c], Return ()).

#[global] Instance M_ret : MRet M := @ret.
#[global] Instance M_bind : MBind M := @bind.

(** A [for] loop threading the loop variables [b]. *)
Fixpoint foldM {A B} (body : B → A → M B) (l : list A) (b : B) : M B :=
  match l with
  | [] => ret b
  | a :: l => b' ← body b a; foldM body l b'
  end.

(** A [for] loop whose body may [break]: the body returns [true] to stop. *)
Fixpoint foldM_break {A B} (body : B → A → M (B * bool)) (l : list A) (b : B)
    : M B :=
  match l with
  | [] => ret b
  | a :: l =>
      '(b', stop) ← body b a;
      if stop : bool then ret b' else foldM_break body l b'
  end.

(** An expression that may raise, as a statement without calls. *)
Definition lift {A} (o : outcome A) : M A := ([], o).

(** Reading a local variable: unbound, it raises. *)
Definition read_local (name : string) (v : option string) : M string :=
  match v with
  | Some s => ret s
  | None => raise (UnboundLocalError name)
  end.

(** The accelerators of the host, as [torch.cuda.is_available()] and
    [torch.xpu.is_available()] report them. *)
Record host := Host { cuda_is_available : bool; xpu_is_available : bool }.

(** [t.cuda()]: it raises on a host without CUDA. *)
Definition to_cuda (h : host) (t : Tensor) : M Tensor :=
  if cuda_is_available h then ret (cuda t) else raise CudaUnavailable.

(** [with profile(activities=[ProfilerActivity.CUDA], ...)]: on a host
    without CUDA the profiler disables its one activity and refuses to
    start ("No activities specified for the profiler"). *)
Definition profile_cuda (h : host) : M () :=
  if cuda_is_available h then ret () else raise NoProfilerActivity.

(** The variables the loops of a trainer update. *)
Record train_vars := TrainVars {
  model : Module_;
  grad : Grad;
  optimizer : optimizer_t;
  iter_num : Z
}.

(** [optimizer.zero_grad(); loss.backward(); optimizer.step()]. *)
Definition backprop_and_step (loss : loss_tensor Grad) (v : train_vars)
    : M train_vars :=
  do zero_grad;;
  let g := grad_zero in
  do (backward loss);;
  let g := grad_add g (grad_fn loss) in
  let opt := optimizer v in
  do (optimizer_step (lr opt));;
  let '(m, os) := optim_step (kind opt) (lr opt) (opt_state opt) (model v) g in
  ret (TrainVars m g (Optimizer (kind opt) (lr opt) os) (iter_num v)).

(** *** [trainer_synapse] *)

(** Lines 135-140: the device-availability check; the result is the binding
    of the local variable [device]. *)
Definition device_check (h : host) : M (option string) :=
  if cuda_is_available h then ret (Some "cuda")
  else if xpu_is_available h then ret (Some "xpu")
  else
    do (print (print_str
      "Neither CUDA nor XPU devices are available to demonstrate profiling on acceleration devices"));;
    ret None.

(** Lines 170-201: the body of the batch loop. *)
Definition synapse_batch (h : host) (a : args)
    (len_loader max_iterations epoch_num : Z)
    (v : train_vars) (ib : Z * (Tensor * Tensor)) : M train_vars :=
  let '(i_batch, (image, label)) := ib in
  image_batch ← to_cuda h image;
  label_batch ← to_cuda h label;
  let outputs := forward (model v) image_batch in
  let loss_ce := CrossEntropyLoss outputs (long label_batch) in
  let loss_dice := DiceLoss (num_classes a) outputs label_batch true in
  let loss := tadd (rmul 0.4 loss_ce) (rmul 0.6 loss_dice) in
  v ← backprop_and_step loss v;
  (if decide (i_batch `mod` 10 = 0)
   then do (print (print_mini_batch epoch_num i_batch len_loader (item loss)))
   else ret ());;
  lr_ ← lift (poly_lr (base_lr a) (iter_num v) max_iterations);
  do (add_scalar "info/lr" lr_ (iter_num v));;
  do (add_scalar "info/total_loss" (item loss) (iter_num v));;
  do (add_scalar "info/dice_loss" (item loss_dice) (iter_num v));;
  do (add_scalar "info/loss_ce" (item loss_ce) (iter_num v));;
  do (logging_info
        (log_iteration (iter_num v) (item loss) (item loss_dice) (item loss_ce)));;
  ret (TrainVars (model v) (grad v) (optimizer v) (iter_num v + 1)).

(** Lines 168-224: the body of the epoch loop; [true] is the [break]. *)
Definition synapse_epoch (h : host) (a : args) (snapshot_path : string)
    (db : Dataset) (batch_size max_epoch max_iterations : Z)
    (v : train_vars) (epoch_num : Z) : M (train_vars * bool) :=
  v ← foldM
        (synapse_batch h a (len_trainloader db batch_size) max_iterations epoch_num)
        (enumerate (batches db batch_size (seed a) epoch_num)) v;
  (if decide (epoch_num > 80)
   then
     let save_mode_path :=
       os_path_join snapshot_path ("epoch_" +:+ str epoch_num +:+ ".pth") in
     do (torch_save (state_dict (model v)) save_mode_path);;
     do (logging_info (log_save_model save_mode_path))
   else ret ());;
  if decide (epoch_num >= max_epoch - 1)
  then
    let save_mode_path :=
      os_path_join snapshot_path ("epoch_" +:+ str epoch_num +:+ ".pth") in
    do (torch_save (state_dict (model v)) save_mode_path);;
    do (logging_info (log_save_model save_mode_path));;
    do iterator_close;;
    ret (v, true)
  else ret (v, false).

(** [trainer_synapse(args, model, snapshot_path)], run on the host [h]. *)
Definition trainer_synapse (h : host) (a : args) (model0 : Module_)
    (snapshot_path : string) : M string :=
  do (logging_info (log_args a));;
  let base_lr := base_lr a in
  let batch_size := batch_size a * n_gpu a in
  let db_train := Synapse_dataset (root_path a) (list_dir a) (img_size a) in
  do (print (print_train_set_length (len_dataset db_train)));;
  let model := if decide (n_gpu a > 1) then DataParallel model0 else model0 in
  device ← device_check h;
  device ← read_local "device" device;
  do (print (print_str device));;
  let sort_by_keyword := device +:+ "_time_total" in
  (* [model.train()] under the profiler: the model is in training mode *)
  profile_cuda h;;
  let optimizer :=
    Optimizer (SGD 0.9 0.0001) base_lr (optim_init (SGD 0.9 0.0001) model) in
  let iter_num := 0 in
  let max_epoch := max_epochs a in
  let max_iterations := max_epochs a * len_trainloader db_train batch_size in
  do (logging_info
        (log_iterations_per_epoch (len_trainloader db_train batch_size)
           max_iterations));;
  _ ← foldM_break
        (synapse_epoch h a snapshot_path db_train batch_size max_epoch
           max_iterations)
        (range max_epoch) (TrainVars model grad_zero optimizer iter_num);
  do writer_close;;
  do (print (print_profiler_table sort_by_keyword));;
  ret "Training Finished!".

(** *** [trainer_assd] *)

(** Lines 276-304: the body of the batch loop. *)
Definition assd_batch (h : host) (a : args) (max_iterations : Z)
    (v : train_vars) (ib : Z * (Tensor * Tensor)) : M train_vars :=
  let '(i_batch, (image, label)) := ib in
  image_batch ← to_cuda h image;
  label_batch ← to_cuda h label;
  let outputs := forward (model v) (float (unsqueeze 1 image_batch)) in
  let loss_ce := CrossEntropyLoss outputs (long label_batch) in
  let loss_dice := DiceLoss (num_classes a) outputs label_batch true in
  let loss := tadd (rmul 0.4 loss_ce) (rmul 0.6 loss_dice) in
  v ← backprop_and_step loss v;
  lr_ ← lift (poly_lr (base_lr a) (iter_num v) max_iterations);
  do (add_scalar "info/lr" lr_ (iter_num v));;
  do (add_scalar "info/total_loss" (item loss) (iter_num v));;
  do (add_scalar "info/dice_loss" (item loss_dice) (iter_num v));;
  do (add_scalar "info/loss_ce" (item loss_ce) (iter_num v));;
  do (logging_info
        (log_iteration (iter_num v) (item loss) (item loss_dice) (item loss_ce)));;
  ret (TrainVars (model v) (grad v) (optimizer v) (iter_num v + 1)).

(** Lines 274-325: the body of the epoch loop; [true] is the [break]. *)
Definition assd_epoch (h : host) (a : args) (snapshot_path : string)
    (db : Dataset) (batch_size max_epoch max_iterations : Z)
    (v : train_vars) (epoch_num : Z) : M (train_vars * bool) :=
  v ← foldM (assd_batch h a max_iterations)
        (enumerate (batches db batch_size (seed a) epoch_num)) v;
  (if decide (epoch_num > 80)
   then
     let save_mode_path :=
       os_path_join snapshot_path ("epoch_" +:+ str epoch_num +:+ ".pth") in
     do (torch_save (state_dict (model v)) save_mode_path);;
     do (logging_info (log_save_model save_mode_path))
   else ret ());;
  if decide (epoch_num >= max_epoch - 1)
  then
    let save_mode_path :=
      os_path_join snapshot_path ("epoch_" +:+ str epoch_num +:+ ".pth") in
    do (torch_save (state_dict (model v)) save_mode_path);;
    do (logging_info (log_save_model save_mode_path));;
    do iterator_close;;
    ret (v, true)
  else ret (v, false).

(** [trainer_assd(args, model, snapshot_path)], run on the host [h]. *)
Definition trainer_assd (h : host) (a : args) (model0 : Module_)
    (snapshot_path : string) : M string :=
  do (logging_info (log_args a));;
  let base_lr := base_lr a in
  let batch_size := batch_size a * n_gpu a in
  let db_train := ASSD_dataset (root_path a) (list_dir a) (img_size a) in
  do (print (print_train_set_length (len_dataset db_train)));;
  let model := if decide (n_gpu a > 1) then DataParallel model0 else model0 in
  let optimizer :=
    Optimizer (AdamW 0.0005) base_lr (optim_init (AdamW 0.0005) model) in
  let iter_num := 0 in
  let max_epoch := max_epochs a in
  let max_iterations := max_epochs a * len_trainloader db_train batch_size in
  do (logging_info
        (log_iterations_per_epoch (len_trainloader db_train batch_size)
           max_iterations));;
  _ ← foldM_break
        (assd_epoch h a snapshot_path db_train batch_size max_epoch max_iterations)
        (range max_epoch) (TrainVars model grad_zero optimizer iter_num);
  do writer_close;;
  ret "Training Finished!".

(** *** Observations of a trace *)

(** The [(value, global_step)] pairs written under [tag]. *)
Definition scalars (tag : string) (tr : list call) : list (R * Z) :=
  omap (λ c, match c with
             | add_scalar t v s => if decide (t = tag) then Some (v, s) else None
             | _ => None
             end) tr.

(** The per-iteration log lines: (iter_num, loss, loss_dice, loss_ce). *)
Definition iterations (tr : list call) : list (Z * R * R * R) :=
  omap (λ c, match c with
             | logging_info (log_iteration i l d c) => Some (i, l, d, c)
             | _ => None
             end) tr.

(** The tensors [backward()] was called on. *)
Definition backward_losses (tr : list call) : list (loss_tensor Grad) :=
  omap (λ c, match c with backward l => Some l | _ => None end) tr.

(** The learning rate each [optimizer.step()] used. *)
Definition optimizer_lrs (tr : list call) : list R :=
  omap (λ c, match c with optimizer_step r => Some r | _ => None end) tr.

(** The paths [torch.save] wrote, and the set of files that leaves. *)
Definition saved_paths (tr : list call) : list string :=
  omap (λ c, match c with torch_save _ p => Some p | _ => None end) tr.

Definition files_written (tr : list call) : gset string :=
  list_to_set (saved_paths tr).

(** The diagnostic of the device check. *)
Definition no_device_message : string :=
  "Neither CUDA nor XPU devices are available to demonstrate profiling on acceleration devices".

(** What was printed. *)
Definition printed (tr : list call) : list print_line :=
  omap (λ c, match c with print l => Some l | _ => None end) tr.

(** The weighted loss of an iteration, from its logged parts. *)
Definition weighted_loss (loss_ce loss_dice : R) : R :=
  (0.4 * loss_ce + 0.6 * loss_dice)%R.

(** The checkpoint file of an epoch. *)
Definition checkpoint (snapshot_path : string) (epoch_num : Z) : string :=
  os_path_join snapshot_path ("epoch_" +:+ str epoch_num +:+ ".pth").

(** The value of the schedule at an iteration inside the run. *)
Definition schedule (base_lr : R) (max_iterations iter_num : Z) : R :=
  (base_lr * Rpower (1.0 - IZR iter_num / IZR max_iterations) 0.9)%R.

(** *** What the theorems speak of *)

(** The calls of one iteration, given its two losses, the learning rate the
    optimizer holds and what the iteration prints. *)
Definition iteration_calls (base_lr : R) (max_iterations it : Z)
    (loss_ce loss_dice : loss_tensor Grad) (lr_used : R) (pr : list call)
    : list call :=
  let loss := tadd (rmul 0.4 loss_ce) (rmul 0.6 loss_dice) in
  [zero_grad; backward loss; optimizer_step lr_used] ++ pr ++
  [add_scalar "info/lr" (schedule base_lr max_iterations it) it;
   add_scalar "info/total_loss" (item loss) it;
   add_scalar "info/dice_loss" (item loss_dice) it;
   add_scalar "info/loss_ce" (item loss_ce) it;
   logging_info (log_iteration it (item loss) (item loss_dice) (item loss_ce))].

(** At most one [print]. *)
Definition only_prints (pr : list call) : Prop :=
  pr = [] ∨ ∃ l, pr = [print l].

(** The loss weighting, read off a trace: every tensor [backward()] was
    called on is [0.4 * loss_ce + 0.6 * loss_dice] of two loss tensors, and
    its value, the value written as 'info/total_loss' and the loss of the
    log line are 0.4 times the cross-entropy logged for that iteration plus
    0.6 times the Dice loss logged for it. *)
Definition loss_weighting (tr : list call) : Prop :=
  item <$> backward_losses tr
    = (λ '(_, _, d, c), weighted_loss c d) <$> iterations tr ∧
  Forall (λ l, ∃ loss_ce loss_dice,
            l = tadd (rmul 0.4 loss_ce) (rmul 0.6 loss_dice)) (backward_losses tr) ∧
  scalars "info/total_loss" tr
    = (λ '(i, _, d, c), (weighted_loss c d, i)) <$> iterations tr ∧
  scalars "info/loss_ce" tr = (λ '(i, _, _, c), (c, i)) <$> iterations tr ∧
  scalars "info/dice_loss" tr = (λ '(i, _, d, _), (d, i)) <$> iterations tr ∧
  Forall (λ '(_, l, d, c), l = weighted_loss c d) (iterations tr).

(** The trace of [k] iterations: the learning rates written, the rate every
    optimizer step used, the iteration numbers logged, the loss weighting. *)
Definition trace_ok (base_lr : R) (max_iterations : Z) (k : Z) (tr : list call)
    : Prop :=
  scalars "info/lr" tr = (λ n, (schedule base_lr max_iterations n, n)) <$> range k ∧
  optimizer_lrs tr = replicate (Z.to_nat k) base_lr ∧
  (λ '(i, _, _, _), i) <$> iterations tr = range k ∧
  loss_weighting tr.

(** The files one epoch writes, in order. *)
Definition saves (snapshot_path : string) (max_epoch epoch_num : Z) : list string :=
  (if decide (epoch_num > 80) then [checkpoint snapshot_path epoch_num] else []) ++
  (if decide (epoch_num >= max_epoch - 1)
   then [checkpoint snapshot_path epoch_num] else []).

(** The epoch loop body the two trainers share, over the batch loop body. *)
Definition epoch_of (batch : Z → train_vars → Z * (Tensor * Tensor) → M train_vars)
    (a : args) (snapshot_path : string) (db : Dataset) (batch_size max_epoch : Z)
    (v : train_vars) (epoch_num : Z) : M (train_vars * bool) :=
  v ← foldM (batch epoch_num)
        (enumerate (batches db batch_size (seed a) epoch_num)) v;
  (if decide (epoch_num > 80)
   then
     do (torch_save (state_dict (model v)) (checkpoint snapshot_path epoch_num));;
     do (logging_info (log_save_model (checkpoint snapshot_path epoch_num)))
   else ret ());;
  if decide (epoch_num >= max_epoch - 1)
  then
    do (torch_save (state_dict (model v)) (checkpoint snapshot_path epoch_num));;
    do (logging_info (log_save_model (checkpoint snapshot_path epoch_num)));;
    do iterator_close;;
    ret (v, true)
  else ret (v, false).

(** What a batch loop body does at an iteration inside the run. *)
Definition batch_spec (base_lr : R) (max_iterations : Z)
    (batch : train_vars → Z * (Tensor * Tensor) → M train_vars) : Prop :=
  ∀ v ib, 0 <= iter_num v < max_iterations →
    ∃ loss_ce loss_dice pr v',
      batch v ib = (iteration_calls base_lr max_iterations (iter_num v)
                      loss_ce loss_dice (lr (optimizer v)) pr, Return v') ∧
      only_prints pr ∧
      iter_num v' = iter_num v + 1 ∧
      lr (optimizer v') = lr (optimizer v).

(** Calls that neither train nor log an iteration leave [trace_ok] alone. *)
Definition quiet (c : call) : Prop :=
  match c with
  | zero_grad | backward _ | optimizer_step _ | add_scalar _ _ _
  | logging_info (log_iteration _ _ _ _) => False
  | _ => True
  end.

End Trainer.

(** A framework to run the trainers on: tensors without content, a loader
    of two batches, constant losses (cross-entropy 1, Dice 1/2). *)
Definition toy : Framework := {|
  Module_ := (); Tensor := (); Grad := (); StateDict := ();
  OptState := (); Dataset := ();
  forward := λ _ _, ();
  DataParallel := λ m, m;
  state_dict := λ _, ();
  cuda := λ t, t; long := λ t, t; float := λ t, t; unsqueeze := λ _ t, t;
  CrossEntropyLoss := λ _ _, LossTensor 1 ();
  DiceLoss := λ _ _ _ _, LossTensor (1 / 2) ();
  grad_zero := (); grad_add := λ _ _, (); grad_scale := λ _ _, ();
  optim_init := λ _ _, ();
  optim_step := λ _ _ _ _ _, ((), ());
  Synapse_dataset := λ _ _ _, ();
  ASSD_dataset := λ _ _ _, ();
  len_dataset := λ _, 4;
  len_trainloader := λ _ _, 2;
  batches := λ _ _ _ _, [((), ()); ((), ())];
  length_batches := λ _ _ _ _, eq_refl
|}.

(** A configuration with one epoch, and one with ninety. *)
Definition one_epoch : args := Args 0.01 9 2 1 1 224 1234 "data" "lists".
Definition ninety_epochs : args := Args 0.01 9 2 1 90 224 1234 "data" "lists".

End trainer_unet.

(** ** The losses of a training run *)

Module trainer_unet_losses.

Import trainer_unet.
Local Open Scope Z_scope.

Section Losses.

Context `{Framework}.

(** The cross-entropy loss and the Dice loss of a batch under the model
    [m], as [trainer_synapse] computes them (lines 173-181). *)
Definition synapse_losses (a : args) (m : Module_) (b : Tensor * Tensor)
    : loss_tensor Grad * loss_tensor Grad :=
  let image_batch := cuda b.1 in
  let label_batch := cuda b.2 in
  let outputs := forward m image_batch in
  (CrossEntropyLoss outputs (long label_batch),
   DiceLoss (num_classes a) outputs label_batch true).

(** The same for [trainer_assd] (lines 276-285), which feeds the model
    [image_batch.unsqueeze(1).float()]. *)
Definition assd_losses (a : args) (m : Module_) (b : Tensor * Tensor)
    : loss_tensor Grad * loss_tensor Grad :=
  let image_batch := cuda b.1 in
  let label_batch := cuda b.2 in
  let outputs := forward m (float (unsqueeze 1 image_batch)) in
  (CrossEntropyLoss outputs (long label_batch),
   DiceLoss (num_classes a) outputs label_batch true).

(** The loss of a batch, from its pair (cross-entropy, Dice). *)
Definition total_loss (l : loss_tensor Grad * loss_tensor Grad) : loss_tensor Grad :=
  tadd (rmul 0.4 l.1) (rmul 0.6 l.2).

(** The model and the state of the optimizer after the step on a batch:
    [optimizer.zero_grad(); loss.backward(); optimizer.step()]. *)
Definition train_step
    (losses : Module_ → Tensor * Tensor → loss_tensor Grad * loss_tensor Grad)
    (k : optim_kind) (lr_used : R)
    (st : Module_ * OptState) (b : Tensor * Tensor) : Module_ * OptState :=
  optim_step k lr_used st.2 st.1
    (grad_add grad_zero (grad_fn (total_loss (losses st.1 b)))).

(** The (cross-entropy, Dice) pairs of the batches [bs] in turn, each under
    the model the steps on the batches before it have left. *)
Fixpoint losses_seen
    (losses : Module_ → Tensor * Tensor → loss_tensor Grad * loss_tensor Grad)
    (k : optim_kind) (lr_used : R)
    (st : Module_ * OptState) (bs : list (Tensor * Tensor))
    : list (loss_tensor Grad * loss_tensor Grad) :=
  match bs with
  | [] => []
  | b :: bs =>
      losses st.1 b :: losses_seen losses k lr_used (train_step losses k lr_used st b) bs
  end.

(** The model and the optimizer state held by the loop variables. *)
Definition state_of (v : train_vars) : Module_ * OptState :=
  (model v, opt_state (optimizer v)).

(** What a batch loop body does at an iteration inside the run, with the
    losses it computes and the step it makes. *)
Definition batch_exact
    (losses : Module_ → Tensor * Tensor → loss_tensor Grad * loss_tensor Grad)
    (base_lr : R) (max_iterations : Z)
    (batch : train_vars → Z * (Tensor * Tensor) → M train_vars) : Prop :=
  ∀ v i b, 0 <= iter_num v < max_iterations →
    ∃ pr v',
      batch v (i, b)
        = (iteration_calls base_lr max_iterations (iter_num v)
             (losses (model v) b).1 (losses (model v) b).2 (lr (optimizer v)) pr,
           Return v') ∧
      only_prints pr ∧
      iter_num v' = iter_num v + 1 ∧
      kind (optimizer v') = kind (optimizer v) ∧
      lr (optimizer v') = lr (optimizer v) ∧
      state_of v' = train_step losses (kind (optimizer v)) (lr (optimizer v))
                      (state_of v) b.

(** The log lines of iterations [k], [k + 1], ... with the losses [ls]. *)
Definition logged (k : Z) (ls : list (loss_tensor Grad * loss_tensor Grad))
    : list (Z * R * R * R) :=
  imap (λ j l, (k + Z.of_nat j, weighted_loss (item l.1) (item l.2),
                item l.2, item l.1)) ls.

End Losses.

End trainer_unet_losses.

(** ** The feature-distillation loss [KDloss] of [trainer_unet.py] *)

Module KDloss.

Local Open Scope nat_scope.

(** A 4-dimensional tensor with its values: the sizes (N, C, H, W) and the
    entry at each index. *)
Record tensor := Tensor4 {
  size0 : nat; size1 : nat; size2 : nat; size3 : nat;
  at_ : nat → nat → nat → nat → R
}.

Definition numel (t : tensor) : nat := size0 t * size1 t * size2 t * size3 t.

(** The value of a 0-dimensional tensor: a number, or not-a-number. *)
Inductive scalar := Finite (r : R) | nan.

Definition scalar_add (a b : scalar) : scalar :=
  match a, b with Finite x, Finite y => Finite (x + y) | _, _ => nan end.
Definition scalar_div (a : scalar) (k : R) : scalar :=
  match a with Finite x => Finite (x / k) | nan => nan end.
Definition scalar_mul (a : scalar) (k : R) : scalar :=
  match a with Finite x => Finite (x * k) | nan => nan end.

(** The sum of [f i] for [lo <= i < lo + n]. *)
Definition big_sum (f : nat → R) (lo n : nat) : R :=
  foldr (λ i acc, f i + acc)%R 0%R (seq lo n).

(** The sum of [f] over all indices below the sizes (N, C, H, W). *)
Definition sum4 (N C H W : nat) (f : nat → nat → nat → nat → R) : R :=
  big_sum (λ n, big_sum (λ c, big_sum (λ h, big_sum (λ w, f n c h w) 0 W) 0 H) 0 C) 0 N.

(** Broadcasting of one dimension: equal sizes, or one of them is 1. *)
Definition broadcast_dim (a b : nat) : option nat :=
  if decide (a = b) then Some a
  else if decide (a = 1) then Some b
  else if decide (b = 1) then Some a
  else None.

(** The index into a dimension of size [sz] that broadcasting reads. *)
Definition bidx (sz i : nat) : nat := if decide (sz = 1) then 0 else i.

(** [F.mse_loss(a, b)], reduction 'mean': the operands are broadcast
    ([None] is the framework's size-mismatch error); the mean of no element
    is not-a-number. *)
Definition mse_loss (a b : tensor) : option scalar :=
  N ← broadcast_dim (size0 a) (size0 b);
  C ← broadcast_dim (size1 a) (size1 b);
  H ← broadcast_dim (size2 a) (size2 b);
  W ← broadcast_dim (size3 a) (size3 b);
  if decide (N * C * H * W = 0) then Some nan
  else Some (Finite
    (sum4 N C H W (λ n c h w,
       (at_ a (bidx (size0 a) n) (bidx (size1 a) c) (bidx (size2 a) h) (bidx (size3 a) w)
        - at_ b (bidx (size0 b) n) (bidx (size1 b) c) (bidx (size2 b) h) (bidx (size3 b) w)) ^ 2)%R
     / INR (N * C * H * W))).

(** [F.adaptive_avg_pool2d(f, (oh, ow))]: output cell (i, j) averages the
    window of rows floor(i*H/oh) .. ceil((i+1)*H/oh) and the like columns;
    an input with an empty non-batch dimension is refused. *)
Definition win_start (i insz outsz : nat) : nat := (i * insz) / outsz.
Definition win_end (i insz outsz : nat) : nat := ((i + 1) * insz + outsz - 1) / outsz.

Definition adaptive_avg_pool2d (f : tensor) (out : nat * nat) : option tensor :=
  if decide (size1 f = 0 ∨ size2 f = 0 ∨ size3 f = 0) then None
  else
    let '(oh, ow) := out in
    Some (Tensor4 (size0 f) (size1 f) oh ow (λ n c i j,
      let hs := win_start i (size2 f) oh in
      let he := win_end i (size2 f) oh in
      let ws := win_start j (size3 f) ow in
      let we := win_end j (size3 f) ow in
      (big_sum (λ h, big_sum (λ w, at_ f n c h w) ws (we - ws)) hs (he - hs)
       / INR ((he - hs) * (we - ws)))%R)).

(** [f] at a [k] times lower and [k'] times narrower resolution: each entry
    is the mean of a block of [k] rows and [k'] columns of [f]. *)
Definition block_means (f : tensor) (k k' : nat) : tensor :=
  Tensor4 (size0 f) (size1 f) (size2 f / k) (size3 f / k')
    (λ n c i j,
       (big_sum (λ h, big_sum (λ w, at_ f n c h w) (j * k') k') (i * k) k
        / INR (k * k'))%R).

(** [f[:, idx, :, :]] and [torch.index_select(f, 1, idx)]: [None] is the
    index error of an index beyond the channels. *)
Definition select_channels (f : tensor) (idx : list nat) : option tensor :=
  if decide (Forall (λ i, i < size1 f) idx)
  then Some (Tensor4 (size0 f) (length idx) (size2 f) (size3 f)
               (λ n c h w, at_ f n (nth c idx 0) h w))
  else None.

(** [f[:, lo:hi, :, :]]; the bounds of a slice are clamped. *)
Definition slice_channels (f : tensor) (lo hi : nat) : tensor :=
  let lo := lo `min` size1 f in
  let hi := hi `min` size1 f in
  Tensor4 (size0 f) (hi - lo) (size2 f) (size3 f)
    (λ n c h w, at_ f n (lo + c) h w).

(** [inter_fd]: [idx_s] and [idx_t] are what the two calls of
    [random.sample] return. *)
Definition inter_fd (f_s f_t : tensor) (idx_s idx_t : list nat) : option scalar :=
  let s_H := size2 f_s in
  let t_H := size2 f_t in
  '(f_s, f_t) ←
    (if decide (t_H < s_H)
     then f_s ← adaptive_avg_pool2d f_s (t_H, t_H); Some (f_s, f_t)
     else if decide (s_H < t_H)
     then f_t ← adaptive_avg_pool2d f_t (s_H, s_H); Some (f_s, f_t)
     else Some (f_s, f_t));
  a ← select_channels f_s idx_s;
  b ← select_channels f_t idx_t;
  mse_loss a b.

(** [F.normalize(f, p=2, dim=(2,3))]: each (n, c) plane is divided by its
    Euclidean norm, clamped below by eps = 1e-12. *)
Definition normalize (f : tensor) : tensor :=
  Tensor4 (size0 f) (size1 f) (size2 f) (size3 f) (λ n c h w,
    at_ f n c h w
    / Rmax (sqrt (big_sum (λ h', big_sum (λ w', (at_ f n c h' w') ^ 2) 0 (size3 f))
                    0 (size2 f)))
           (1 / 10 ^ 12))%R.

(** [t.mean([0, 2, 3])]: the mean of each channel. *)
Definition channel_means (f : tensor) : list R :=
  map (λ c,
         (big_sum (λ n, big_sum (λ h, big_sum (λ w, at_ f n c h w) 0 (size3 f))
                          0 (size2 f)) 0 (size0 f)
          / INR (size0 f * size2 f * size3 f))%R)
      (seq 0 (size1 f)).

(** [torch.sort(keys, descending=True)], the indices: an insertion sort
    that keeps equal keys in index order. *)
Fixpoint insert_desc (k : R) (i : nat) (l : list (R * nat)) : list (R * nat) :=
  match l with
  | [] => [(k, i)]
  | (k', i') :: l' =>
      if Rle_dec k' k then (k, i) :: l else (k', i') :: insert_desc k i l'
  end.

Definition argsort_desc (keys : list R) : list nat :=
  (foldr (λ '(k, i) acc, insert_desc k i acc) []
     (zip keys (seq 0 (length keys)))).*2.

(** [intra_fd]. *)
Definition intra_fd (f_s : tensor) : option scalar :=
  let indices_s := argsort_desc (channel_means (normalize f_s)) in
  f_s ← select_channels f_s indices_s;
  mse_loss (slice_channels f_s 0 (size1 f_s / 2))
           (slice_channels f_s (size1 f_s / 2) (size1 f_s)).

(** [forward]: [draws] are the results of the fourteen [random.sample]
    calls, a pair for each [inter_fd] in the order of evaluation. *)
Definition forward (lambda_x : R) (feature feature_decoder : list tensor)
    (final_up : tensor) (draws : list (list nat * list nat)) : option scalar :=
  f1_0 ← feature !! 0;
  f2_0 ← feature !! 1;
  f3_0 ← feature !! 2;
  f4_0 ← feature !! 3;
  f1_d_0 ← feature_decoder !! 0;
  f2_d_0 ← feature_decoder !! 1;
  f3_d_0 ← feature_decoder !! 2;
  let final_layer := final_up in
  a1 ← intra_fd f1_0; a2 ← intra_fd f2_0; a3 ← intra_fd f3_0; a4 ← intra_fd f4_0;
  let loss := scalar_div (scalar_add (scalar_add (scalar_add a1 a2) a3) a4) 4 in
  b1 ← intra_fd f1_d_0; b2 ← intra_fd f2_d_0; b3 ← intra_fd f3_d_0;
  let loss := scalar_add loss (scalar_div (scalar_add (scalar_add b1 b2) b3) 3) in
  r1 ← draws !! 0; r2 ← draws !! 1; r3 ← draws !! 2; r4 ← draws !! 3;
  r5 ← draws !! 4; r6 ← draws !! 5; r7 ← draws !! 6;
  c1 ← inter_fd f1_d_0 final_layer r1.1 r1.2;
  c2 ← inter_fd f2_d_0 final_layer r2.1 r2.2;
  c3 ← inter_fd f3_d_0 final_layer r3.1 r3.2;
  c4 ← inter_fd f1_0 final_layer r4.1 r4.2;
  c5 ← inter_fd f2_0 final_layer r5.1 r5.2;
  c6 ← inter_fd f3_0 final_layer r6.1 r6.2;
  c7 ← inter_fd f4_0 final_layer r7.1 r7.2;
  let loss := scalar_add loss
    (scalar_div
       (scalar_add (scalar_add (scalar_add (scalar_add (scalar_add (scalar_add c1 c2) c3) c4) c5) c6) c7)
       7) in
  let loss := scalar_mul loss lambda_x in
  Some loss.

(** The mean of a list of scalars. *)
Definition scalar_sum (l : list scalar) : scalar := foldr scalar_add (Finite 0) l.
Definition mean (l : list scalar) : scalar :=
  scalar_div (scalar_sum l) (INR (length l)).

(** [forward] as the specification words it: the intra-feature term averaged
    over all the supplied feature maps, plus the inter-feature term averaged
    over all the pairs with the reference, the sum scaled by [lambda_x]. *)
Definition forward_spec (lambda_x : R) (feature feature_decoder : list tensor)
    (final_up : tensor) (draws : list (list nat * list nat)) : option scalar :=
  intra ← mapM intra_fd (feature ++ feature_decoder);
  inter ← mapM (λ '(f, r), inter_fd f final_up r.1 r.2)
             (zip (feature_decoder ++ feature) draws);
  Some (scalar_mul (scalar_add (mean intra) (mean inter)) lambda_x).

(** [forward] with the intra-feature term averaged over the encoder maps
    and over the decoder maps separately, the two averages added. *)
Definition forward_by_groups (lambda_x : R) (feature feature_decoder : list tensor)
    (final_up : tensor) (draws : list (list nat * list nat)) : option scalar :=
  enc ← mapM intra_fd feature;
  dec ← mapM intra_fd feature_decoder;
  inter ← mapM (λ '(f, r), inter_fd f final_up r.1 r.2)
             (zip (feature_decoder ++ feature) draws);
  Some (scalar_mul
          (scalar_add (scalar_add (mean enc) (mean dec)) (mean inter)) lambda_x).

(** Small feature maps: five channels of zeros, an empty batch of
    two-channel maps, and two channels holding 1 and 0. *)
Definition five_channels : tensor := Tensor4 1 5 1 1 (λ _ _ _ _, 0%R).

Definition empty_batch : tensor := Tensor4 0 2 1 1 (λ _ _ _ _, 0%R).

Definition two_channels : tensor :=
  Tensor4 1 2 1 1 (λ _ c _ _, if decide (c = 0) then 1%R else 0%R).

(** Three channels of a 2x2 map, with the entry c + h + w (the means of the
    channels are 1, 2 and 3), and three channels of a 1x1 map, 0, 0 and 1. *)
Definition three_maps : tensor :=
  Tensor4 1 3 2 2 (λ _ c h w, INR (c + h + w)).

Definition three_points : tensor :=
  Tensor4 1 3 1 1 (λ _ c _ _, match c with 2 => 1 | _ => 0 end%R).

End KDloss.

(** ** The other decoder blocks of [unet/unet_stvit.py], on shapes *)

Module unet_stvit_variants.

Import unet_stvit.
Local Open Scope Z_scope.

(** Broadcasting of one size against another: equal, or one of them is 1. *)
Definition broadcast_size (a b : Z) : option Z :=
  if decide (a = b) then Some a
  else if decide (a = 1) then Some b
  else if decide (b = 1) then Some a
  else None.

(** The shape of [x + y] and of [x * y] on tensors. *)
Definition broadcast_shapes (x y : shape) : option shape :=
  n ← broadcast_size (dimN x) (dimN y);
  c ← broadcast_size (dimC x) (dimC y);
  h ← broadcast_size (dimH x) (dimH y);
  w ← broadcast_size (dimW x) (dimW y);
  Some (Shape n c h w).

(** [nn.Sigmoid()] and [F.relu]. *)
Definition Sigmoid : layer := λ x, Some x.
Definition relu : layer := λ x, Some x.

(** [class AttentionBlock]: its three [nn.Sequential] members. *)
Record AttentionBlock := {
  W_g : layer;
  W_x : layer;
  psi : layer
}.

Definition AttentionBlock_init (gate_channels inter_channels in_channels : Z)
    : AttentionBlock := {|
  W_g := λ g, g ← Conv2d gate_channels inter_channels 1 0 g;
              BatchNorm2d inter_channels g;
  W_x := λ x, x ← Conv2d in_channels inter_channels 1 0 x;
              BatchNorm2d inter_channels x;
  psi := λ x, x ← Conv2d inter_channels 1 1 0 x; Sigmoid x
|}.

(** [AttentionBlock.forward(g, x)]: [x * psi(relu(W_g(g) + W_x(x)))]. *)
Definition AttentionBlock_forward (self : AttentionBlock) (g x : shape)
    : option shape :=
  g1 ← W_g self g;
  x1 ← W_x self x;
  s ← broadcast_shapes g1 x1;
  s ← relu s;
  psi_ ← psi self s;
  broadcast_shapes x psi_.

(** [class decoder_block_w_attn]: the upsampled input is the gating signal
    of the attention on [skip]; what is concatenated with [skip] is the
    attended [skip]. *)
Definition decoder_block_w_attn (in_c out_c : Z) (inputs skip : shape)
    : option shape :=
  x ← ConvTranspose2d in_c out_c 2 2 0 inputs;
  x ← AttentionBlock_forward (AttentionBlock_init out_c (out_c `div` 2) out_c) x skip;
  x ← cat_axis1 x skip;
  x ← conv_block (out_c + out_c) out_c x;
  Some x.

(** [class decoder_block_svit]: no upsampling; the convolution block takes
    [in_c + in_c] channels. *)
Definition decoder_block_svit (in_c out_c : Z) (inputs skip : shape)
    : option shape :=
  x ← cat_axis1 inputs skip;
  x ← conv_block (in_c + in_c) out_c x;
  Some x.

End unet_stvit_variants.

(** ** [cosine_scheduler] of [trainer_unet.py] *)

Module scheduler.

Local Open Scope Z_scope.

(** What numpy and the assertion raise. *)
Inductive error := ValueError | AssertionError.

Inductive result (A : Type) :=
  | Ok (a : A)
  | Err (e : error).
Arguments Ok {A} a.
Arguments Err {A} e.

(** [np.arange(n)] for an integer [n]: empty when [n <= 0]. *)
Definition arange (n : Z) : list R :=
  (λ i, IZR (Z.of_nat i)) <$> seq 0 (Z.to_nat n).

(** [np.linspace(start, stop, num)]: [num] samples [start + i * step] with
    [step = (stop - start) / (num - 1)], the last one set to [stop] when
    there are at least two; a negative [num] is refused. *)
Definition linspace (start stop : R) (num : Z) : result (list R) :=
  if decide (num < 0) then Err ValueError
  else Ok ((λ i : nat,
              if decide (1 < num ∧ Z.of_nat i = num - 1) then stop
              else (start + IZR (Z.of_nat i) * ((stop - start) / IZR (num - 1)))%R)
           <$> seq 0 (Z.to_nat num)).

(** [cosine_scheduler(base_value, final_value, epochs, niter_per_ep,
    warmup_epochs, start_warmup_value)] on integer [epochs], [niter_per_ep]
    and [warmup_epochs]. *)
Definition cosine_scheduler (base_value final_value : R)
    (epochs niter_per_ep warmup_epochs : Z) (start_warmup_value : R)
    : result (list R) :=
  let warmup_iters := warmup_epochs * niter_per_ep in
  match (if decide (warmup_epochs > 0)
         then linspace start_warmup_value base_value warmup_iters
         else Ok []) with
  | Err e => Err e
  | Ok warmup_schedule =>
      let iters := arange (epochs * niter_per_ep - warmup_iters) in
      let schedule :=
        (λ i, final_value + 0.5 * (base_value - final_value)
                            * (1 + cos (PI * i / INR (length iters))))%R
        <$> iters in
      let schedule := warmup_schedule ++ schedule in
      if decide (Z.of_nat (length schedule) = epochs * niter_per_ep)
      then Ok schedule
      else Err AssertionError
  end.

(** The value of the cosine phase at its [k]-th of [n] iterations. *)
Definition cosine_value (base final : R) (n : nat) (k : R) : R :=
  (final + 0.5 * (base - final) * (1 + cos (PI * k / INR n)))%R.

End scheduler.

(** ** Feature maps and training arguments for the examples *)

Module examples.

(** A 2x2 map, a 2x3 map and a 4x4 map of two channels, and two equal
    channels of ones. *)
Definition four_pixels : KDloss.tensor :=
  KDloss.Tensor4 1 2 2 2 (λ _ c h w, INR (c + h + w)).

Definition wide_map : KDloss.tensor :=
  KDloss.Tensor4 1 2 2 3 (λ _ c h w, INR (c + h + w)).

Definition large_map : KDloss.tensor :=
  KDloss.Tensor4 1 2 4 4 (λ _ c h w, INR (c + h + w)).

Definition ones : KDloss.tensor := KDloss.Tensor4 1 2 1 1 (λ _ _ _ _, 1%R).

(** The arguments of a run of no epoch. *)
Definition no_epochs : trainer_unet.args :=
  trainer_unet.Args 0.01 9 2 1 0 224 1234 "data" "lists".

End examples.

(** ** The progress lines of a training run *)

Module trainer_unet_progress.

Import trainer_unet.
Local Open Scope Z_scope.

Section Progress.

Context `{Framework}.

(** The (epoch_num, i_batch, total) of the mini-batch lines a run prints. *)
Definition mini_batch_lines (tr : list call) : list (Z * Z * Z) :=
  omap (λ c, match c with
             | print (print_mini_batch e i total _) => Some (e, i, total)
             | _ => None
             end) tr.

(** What the body of a batch loop prints at an iteration inside the run:
    the lines [g i_batch]. *)
Definition prints_spec (max_iterations : Z)
    (batch : train_vars → Z * (Tensor * Tensor) → M train_vars)
    (g : Z → list (Z * Z * Z)) : Prop :=
  ∀ v i x, 0 <= iter_num v < max_iterations →
    ∃ t v', batch v (i, x) = (t, Return v') ∧
      iter_num v' = iter_num v + 1 ∧ mini_batch_lines t = g i.

End Progress.

End trainer_unet_progress.

(** ** Properties of the network *)

Module unet_stvit_theory.

Import unet_stvit.
Local Open Scope Z_scope.

Lemma Conv2d_3x3_shape in_c out_c n h w :
  Conv2d in_c out_c 3 1 (Shape n in_c h w) = Some (Shape n out_c h w).
Proof.
  unfold Conv2d; cbn [dimN dimC dimH dimW].
  rewrite decide_True by done. rewrite !Z.div_1_r. do 2 f_equal; lia.
Qed.

Lemma Conv2d_1x1_shape in_c out_c n h w :
  Conv2d in_c out_c 1 0 (Shape n in_c h w) = Some (Shape n out_c h w).
Proof.
  unfold Conv2d; cbn [dimN dimC dimH dimW].
  rewrite decide_True by done. rewrite !Z.div_1_r. do 2 f_equal; lia.
Qed.

Lemma BatchNorm2d_shape c n h w :
  n * h * w ≠ 1 → BatchNorm2d c (Shape n c h w) = Some (Shape n c h w).
Proof. intros Hv. unfold BatchNorm2d; cbn [dimN dimC dimH dimW]. by rewrite decide_True. Qed.

(** A batch with one value per channel: the batch norm raises. *)
Lemma BatchNorm2d_single_value c n h w x :
  n * h * w = 1 → BatchNorm2d c (Shape n x h w) = None.
Proof.
  intros Hv. unfold BatchNorm2d; cbn [dimN dimC dimH dimW].
  rewrite decide_False; [done|]. intros [_ ?]. done.
Qed.

(** A map of at least two rows holds no single value. *)
Lemma several_values n h w : 2 <= h → n * h * w ≠ 1.
Proof.
  intros Hh Heq. assert (h | 1) as Hd by (exists (n * w); lia).
  apply Z.divide_1_r in Hd. lia.
Qed.

Lemma halve h : (h - (2 - 1) - 1) `div` 2 + 1 = h `div` 2.
Proof.
  replace (h - (2 - 1) - 1) with (h + (-1) * 2) by lia.
  rewrite Z.div_add by lia. lia.
Qed.

Lemma MaxPool2d_shape n c h w :
  2 <= h → 2 <= w →
  MaxPool2d 2 (Shape n c h w) = Some (Shape n c (h `div` 2) (w `div` 2)).
Proof.
  intros Hh Hw. unfold MaxPool2d; cbn [dimN dimC dimH dimW]. rewrite !halve.
  assert (0 < h `div` 2) by (apply Z.div_str_pos; lia).
  assert (0 < w `div` 2) by (apply Z.div_str_pos; lia).
  by rewrite decide_True.
Qed.

(** A map of a single row or column: the pooling raises. *)
Lemma MaxPool2d_too_small n c h w :
  h < 2 ∨ w < 2 → MaxPool2d 2 (Shape n c h w) = None.
Proof.
  intros Hs. unfold MaxPool2d; cbn [dimN dimC dimH dimW]. rewrite !halve.
  rewrite decide_False; [done|]. intros [Hh Hw].
  destruct Hs as [Hs|Hs].
  - assert (h `div` 2 <= 0); [|lia].
    destruct (decide (h < 0)); [apply Z.lt_le_incl, Z.div_lt_upper_bound; lia|].
    rewrite Z.div_small; lia.
  - assert (w `div` 2 <= 0); [|lia].
    destruct (decide (w < 0)); [apply Z.lt_le_incl, Z.div_lt_upper_bound; lia|].
    rewrite Z.div_small; lia.
Qed.

Lemma ConvTranspose2d_shape in_c out_c n h w :
  ConvTranspose2d in_c out_c 2 2 0 (Shape n in_c h w)
  = Some (Shape n out_c (2 * h) (2 * w)).
Proof.
  unfold ConvTranspose2d; cbn [dimN dimC dimH dimW].
  rewrite decide_True by done. do 2 f_equal; lia.
Qed.

Lemma cat_axis1_shape n c c' h w :
  cat_axis1 (Shape n c h w) (Shape n c' h w) = Some (Shape n (c + c') h w).
Proof. unfold cat_axis1; cbn [dimN dimC dimH dimW]. by rewrite decide_True. Qed.

Lemma conv_block_shape in_c out_c n h w :
  n * h * w ≠ 1 →
  conv_block in_c out_c (Shape n in_c h w) = Some (Shape n out_c h w).
Proof.
  intros Hv. unfold conv_block, ReLU.
  rewrite Conv2d_3x3_shape; cbn [mbind option_bind].
  rewrite BatchNorm2d_shape by done; cbn [mbind option_bind].
  rewrite Conv2d_3x3_shape; cbn [mbind option_bind].
  by rewrite BatchNorm2d_shape.
Qed.

Lemma conv_block_single_value in_c out_c n h w :
  n * h * w = 1 → conv_block in_c out_c (Shape n in_c h w) = None.
Proof.
  intros Hv. unfold conv_block.
  rewrite Conv2d_3x3_shape; cbn [mbind option_bind].
  by rewrite BatchNorm2d_single_value.
Qed.

Lemma encoder_block_shape in_c out_c n h w :
  2 <= h → 2 <= w →
  encoder_block in_c out_c (Shape n in_c h w)
  = Some (Shape n out_c h w, Shape n out_c (h `div` 2) (w `div` 2)).
Proof.
  intros Hh Hw. unfold encoder_block.
  rewrite conv_block_shape by (by apply several_values); cbn [mbind option_bind].
  by rewrite MaxPool2d_shape.
Qed.

Lemma decoder_block_shape in_c out_c n h w :
  decoder_block in_c out_c (Shape n in_c h w) (Shape n out_c (2 * h) (2 * w))
  = Some (Shape n out_c (2 * h) (2 * w)).
Proof.
  unfold decoder_block.
  rewrite ConvTranspose2d_shape; cbn [mbind option_bind].
  rewrite cat_axis1_shape; cbn [mbind option_bind].
  by rewrite conv_block_shape by lia.
Qed.

Lemma halve_twice_eight k : (k * 16) `div` 2 = 2 * (2 * (2 * k)).
Proof. replace (k * 16) with (2 * (2 * (2 * k)) * 2) by lia. by rewrite Z.div_mul. Qed.

Lemma halve_double k : (2 * k) `div` 2 = k.
Proof. rewrite Z.mul_comm. by rewrite Z.div_mul. Qed.

(** The four encoder stages and the attention blocks after them, on an
    input whose height and width are positive multiples of 16: the map that
    reaches the bottleneck and the four skip connections. *)
Lemma UNet_STA_forward_encoder BasicLayer n_in n_class N h w :
  refines_in_place BasicLayer → 0 < h → 0 < w →
  UNet_STA_forward (UNet_STA_init BasicLayer n_in n_class) (Shape N n_in (h * 16) (w * 16))
  = b_ ← conv_block 512 1024 (Shape N 512 h w);
    d1_ ← decoder_block 1024 512 b_ (Shape N 512 (2 * h) (2 * w));
    d1_ ← BasicLayer (BasicLayerArgs 4 (512, 512) 28 1 (1, 1) 16) d1_;
    d2_ ← decoder_block 512 256 d1_ (Shape N 256 (2 * (2 * h)) (2 * (2 * w)));
    d2_ ← BasicLayer (BasicLayerArgs 3 (256, 256) 56 1 (1, 1) 8) d2_;
    d3_ ← decoder_block 256 128 d2_ (Shape N 128 (2 * (2 * (2 * h))) (2 * (2 * (2 * w))));
    d3_ ← BasicLayer (BasicLayerArgs 2 (128, 128) 56 1 (2, 2) 4) d3_;
    d4_ ← decoder_block 128 64 d3_ (Shape N 64 (h * 16) (w * 16));
    d4_ ← BasicLayer (BasicLayerArgs 1 (64, 64) 56 1 (4, 4) 2) d4_;
    Conv2d 64 n_class 1 0 d4_.
Proof.
  intros Hsta Hh Hw.
  unfold UNet_STA_forward, UNet_STA_init;
    cbn [e1 e2 e3 e4 e_svl1 e_svl2 e_svl3 e_svl4 b d1 d2 d3 d4
         d_svl1 d_svl2 d_svl3 d_svl4 outputs].
  rewrite encoder_block_shape by lia. rewrite !halve_twice_eight; cbn [mbind option_bind].
  rewrite Hsta by done; cbn [mbind option_bind].
  rewrite encoder_block_shape by lia. rewrite !halve_double; cbn [mbind option_bind].
  rewrite Hsta by done; cbn [mbind option_bind].
  rewrite encoder_block_shape by lia. rewrite !halve_double; cbn [mbind option_bind].
  rewrite Hsta by done; cbn [mbind option_bind].
  rewrite encoder_block_shape by lia. rewrite !halve_double; cbn [mbind option_bind].
  rewrite Hsta by done; cbn [mbind option_bind].
  reflexivity.
Qed.

(** C4: for a non-empty input of shape (N, n_in, H, W) with H and W positive
    multiples of 16, [UNet_STA.forward] returns a tensor of shape
    (N, n_class, H, W) when the map that reaches the bottleneck, of shape
    (N, 512, H/16, W/16), holds more than one value per channel, and raises
    when it holds a single one (the batch norm of the bottleneck, in
    training mode); the attention blocks refine their input in place. *)
Theorem UNet_STA_forward_shape BasicLayer n_in n_class N H W :
  refines_in_place BasicLayer →
  0 < N → 0 < H → 0 < W → (16 | H) → (16 | W) →
  (N * (H `div` 16) * (W `div` 16) ≠ 1 →
   UNet_STA_forward (UNet_STA_init BasicLayer n_in n_class) (Shape N n_in H W)
   = Some (Shape N n_class H W)) ∧
  (N * (H `div` 16) * (W `div` 16) = 1 →
   UNet_STA_forward (UNet_STA_init BasicLayer n_in n_class) (Shape N n_in H W)
   = None).
Proof.
  intros Hsta HN HH HW [h ->] [w ->].
  rewrite !Z.div_mul by lia.
  rewrite UNet_STA_forward_encoder by (done || lia).
  split; intros Hv.
  - rewrite conv_block_shape by done; cbn [mbind option_bind].
    rewrite decoder_block_shape; cbn [mbind option_bind].
    rewrite Hsta by done; cbn [mbind option_bind].
    rewrite decoder_block_shape; cbn [mbind option_bind].
    rewrite Hsta by done; cbn [mbind option_bind].
    rewrite decoder_block_shape; cbn [mbind option_bind].
    rewrite Hsta by done; cbn [mbind option_bind].
    replace (h * 16) with (2 * (2 * (2 * (2 * h)))) by lia.
    replace (w * 16) with (2 * (2 * (2 * (2 * w)))) by lia.
    rewrite decoder_block_shape; cbn [mbind option_bind].
    rewrite Hsta by done; cbn [mbind option_bind].
    apply Conv2d_1x1_shape.
  - by rewrite conv_block_single_value.
Qed.

(** A height that 16 does not divide: the fourth skip connection is 3 rows
    high, the upsampled bottleneck 2, and the concatenation fails. *)
Example UNet_STA_forward_24 :
  UNet_STA_forward (UNet_STA_init (λ _ x, Some x) 3 9) (Shape 1 3 24 32) = None.
Proof. by vm_compute. Qed.

(** C4, as first worded: one image of 16x16 pixels. Its height and width
    are divisible by 16, and the forward pass raises: the bottleneck gets a
    map of shape (1, 512, 1, 1), one value per channel, which its batch norm
    refuses in training mode. *)
Lemma UNet_STA_forward_one_16x16 :
  refines_in_place (λ _ x, Some x) ∧ (16 | 16) ∧
  UNet_STA_forward (UNet_STA_init (λ _ x, Some x) 3 9) (Shape 1 3 16 16) = None.
Proof.
  split; [by intros args x _|]. split; [by exists 1|]. by vm_compute.
Qed.

(** The network built with three input channels and nine classes, on a
    batch of two 32x48 images. *)
Lemma UNet_STA_forward_shape_witness :
  UNet_STA_forward (UNet_STA_init (λ _ x, Some x) 3 9) (Shape 2 3 32 48)
  = Some (Shape 2 9 32 48).
Proof.
  destruct (UNet_STA_forward_shape (λ _ x, Some x) 3 9 2 32 48) as [Hret _].
  - intros args x _. reflexivity.
  - lia.
  - lia.
  - lia.
  - exists 2. reflexivity.
  - exists 3. reflexivity.
  - apply Hret. by vm_compute.
Defined.

End unet_stvit_theory.

(** ** Properties of [KDloss] *)

Module KDloss_theory.

Import KDloss.
Local Open Scope nat_scope.

Lemma big_sum_ext f g lo n :
  (∀ i, f i = g i) → big_sum f lo n = big_sum g lo n.
Proof.
  intros Hfg. unfold big_sum. revert lo.
  induction n as [|n IH]; intros lo; simpl; [done|].
  by rewrite Hfg, IH.
Qed.

Lemma big_sum_nonneg f lo n :
  (∀ i, (0 <= f i)%R) → (0 <= big_sum f lo n)%R.
Proof.
  intros Hf. unfold big_sum. revert lo.
  induction n as [|n IH]; intros lo; simpl; [lra|].
  specialize (Hf lo). specialize (IH (S lo)). lra.
Qed.

Lemma sum4_ext N C H W f g :
  (∀ n c h w, f n c h w = g n c h w) → sum4 N C H W f = sum4 N C H W g.
Proof.
  intros Hfg. unfold sum4.
  apply big_sum_ext; intros n. apply big_sum_ext; intros c.
  apply big_sum_ext; intros h. apply big_sum_ext; intros w. apply Hfg.
Qed.

Lemma sum4_nonneg N C H W f :
  (∀ n c h w, (0 <= f n c h w)%R) → (0 <= sum4 N C H W f)%R.
Proof.
  intros Hf. unfold sum4.
  apply big_sum_nonneg; intros n. apply big_sum_nonneg; intros c.
  apply big_sum_nonneg; intros h. apply big_sum_nonneg; intros w. apply Hf.
Qed.

Lemma broadcast_dim_comm a b : broadcast_dim a b = broadcast_dim b a.
Proof. unfold broadcast_dim. repeat case_decide; congruence. Qed.

Lemma mse_loss_sym a b : mse_loss a b = mse_loss b a.
Proof.
  unfold mse_loss.
  rewrite (broadcast_dim_comm (size0 a)), (broadcast_dim_comm (size1 a)),
    (broadcast_dim_comm (size2 a)), (broadcast_dim_comm (size3 a)).
  destruct (broadcast_dim (size0 b) (size0 a)) as [N|]; [simpl|done].
  destruct (broadcast_dim (size1 b) (size1 a)) as [C|]; [simpl|done].
  destruct (broadcast_dim (size2 b) (size2 a)) as [H|]; [simpl|done].
  destruct (broadcast_dim (size3 b) (size3 a)) as [W|]; [simpl|done].
  case_decide; [done|]. do 3 f_equal.
  apply sum4_ext; intros n c h w. ring.
Qed.

Lemma mse_loss_nonneg a b v : mse_loss a b = Some (Finite v) → (0 <= v)%R.
Proof.
  unfold mse_loss. intros Hm.
  destruct (broadcast_dim (size0 a) (size0 b)) as [N|]; [simpl in Hm|done].
  destruct (broadcast_dim (size1 a) (size1 b)) as [C|]; [simpl in Hm|done].
  destruct (broadcast_dim (size2 a) (size2 b)) as [H|]; [simpl in Hm|done].
  destruct (broadcast_dim (size3 a) (size3 b)) as [W|]; [simpl in Hm|done].
  case_decide as Hz; [done|]. injection Hm as <-.
  unfold Rdiv. apply Rmult_le_pos.
  - apply sum4_nonneg; intros. apply pow2_ge_0.
  - left. apply Rinv_0_lt_compat, lt_0_INR. lia.
Qed.

(** Swapping the two maps, each with its channel selection. *)
Lemma inter_fd_swap f_s f_t idx_s idx_t :
  inter_fd f_s f_t idx_s idx_t = inter_fd f_t f_s idx_t idx_s.
Proof.
  unfold inter_fd.
  destruct (lt_eq_lt_dec (size2 f_s) (size2 f_t)) as [[Hlt|Heq]|Hgt].
  - rewrite (decide_False (P := size2 f_t < size2 f_s)) by lia.
    rewrite (decide_True (P := size2 f_s < size2 f_t)) by lia.
    rewrite (decide_True (P := size2 f_s < size2 f_t)) by lia.
    destruct (adaptive_avg_pool2d f_t _) as [p|]; [simpl|done].
    destruct (select_channels f_s idx_s) as [a|], (select_channels p idx_t) as [b|];
      simpl; try done.
    apply mse_loss_sym.
  - rewrite !decide_False by lia. simpl.
    destruct (select_channels f_s idx_s) as [a|], (select_channels f_t idx_t) as [b|];
      simpl; try done.
    apply mse_loss_sym.
  - rewrite (decide_True (P := size2 f_t < size2 f_s)) by lia.
    rewrite (decide_False (P := size2 f_s < size2 f_t)) by lia.
    rewrite (decide_True (P := size2 f_t < size2 f_s)) by lia.
    destruct (adaptive_avg_pool2d f_s _) as [p|]; [simpl|done].
    destruct (select_channels p idx_s) as [a|], (select_channels f_t idx_t) as [b|];
      simpl; try done.
    apply mse_loss_sym.
Qed.

Lemma insert_desc_perm k i l : insert_desc k i l ≡ₚ (k, i) :: l.
Proof.
  induction l as [|[k' i'] l IH]; simpl; [done|].
  destruct (Rle_dec k' k); [done|].
  rewrite IH. apply perm_swap.
Qed.

Lemma argsort_desc_perm keys : argsort_desc keys ≡ₚ seq 0 (length keys).
Proof.
  unfold argsort_desc.
  assert (Hgen : ∀ l : list (R * nat),
    foldr (λ '(k, i) acc, insert_desc k i acc) [] l ≡ₚ l).
  { induction l as [|[k i] l IH]; simpl; [done|].
    rewrite insert_desc_perm. by rewrite IH. }
  rewrite Hgen. rewrite snd_zip; [done|]. rewrite length_seq. lia.
Qed.

Lemma argsort_desc_length keys : length (argsort_desc keys) = length keys.
Proof. rewrite argsort_desc_perm. apply length_seq. Qed.

Lemma argsort_desc_bound keys : Forall (λ i, i < length keys) (argsort_desc keys).
Proof.
  rewrite argsort_desc_perm. apply Forall_forall. intros i Hi.
  apply elem_of_seq in Hi. lia.
Qed.

Lemma channel_means_length f : length (channel_means f) = size1 f.
Proof. unfold channel_means. by rewrite length_map, length_seq. Qed.

Lemma intra_fd_nonneg f v : intra_fd f = Some (Finite v) → (0 <= v)%R.
Proof.
  unfold intra_fd. intros Hi.
  destruct (select_channels f _) as [g|]; [simpl in Hi|done].
  by eapply mse_loss_nonneg.
Qed.

Lemma broadcast_dim_diag a : broadcast_dim a a = Some a.
Proof. unfold broadcast_dim. by rewrite decide_True. Qed.

Lemma mse_loss_same_shape a b :
  size0 a = size0 b → size1 a = size1 b → size2 a = size2 b → size3 a = size3 b →
  numel a ≠ 0 → ∃ v, mse_loss a b = Some (Finite v).
Proof.
  intros H0 H1 H2 H3 Hne. unfold mse_loss.
  rewrite <- H0, <- H1, <- H2, <- H3, !broadcast_dim_diag.
  cbn [mbind option_bind]. rewrite decide_False by done. eauto.
Qed.

Lemma mse_loss_empty a b :
  size0 a = size0 b → size1 a = size1 b → size2 a = size2 b → size3 a = size3 b →
  numel a = 0 → mse_loss a b = Some nan.
Proof.
  intros H0 H1 H2 H3 Hz. unfold mse_loss.
  rewrite <- H0, <- H1, <- H2, <- H3, !broadcast_dim_diag.
  cbn [mbind option_bind]. by rewrite decide_True.
Qed.

Lemma intra_fd_even f :
  Nat.Even (size1 f) → 0 < size0 f → 0 < size1 f → 0 < size2 f → 0 < size3 f →
  ∃ v, intra_fd f = Some (Finite v).
Proof.
  intros [c Hc] HN HC HH HW. unfold intra_fd, select_channels.
  rewrite decide_True; last first.
  { pose proof (argsort_desc_bound (channel_means (normalize f))) as Hb.
    by rewrite channel_means_length in Hb. }
  cbn [mbind option_bind size1].
  rewrite argsort_desc_length, channel_means_length.
  change (size1 (normalize f)) with (size1 f).
  assert (Hhalf : size1 f / 2 = c).
  { rewrite Hc, Nat.mul_comm. by rewrite Nat.div_mul. }
  apply mse_loss_same_shape; unfold numel, slice_channels;
    cbn [size0 size1 size2 size3]; rewrite ?Hhalf; try done; try lia.
Qed.

Lemma intra_fd_odd f c :
  size1 f = 2 * c + 1 → 2 ≤ c → 0 < size0 f → 0 < size2 f → 0 < size3 f →
  intra_fd f = None.
Proof.
  intros Hc Hc2 HN HH HW. unfold intra_fd, select_channels.
  rewrite decide_True; last first.
  { pose proof (argsort_desc_bound (channel_means (normalize f))) as Hb.
    by rewrite channel_means_length in Hb. }
  cbn [mbind option_bind size1].
  rewrite argsort_desc_length, channel_means_length.
  change (size1 (normalize f)) with (size1 f).
  assert (Hhalf : size1 f / 2 = c).
  { rewrite Hc. replace (2 * c + 1) with (1 + c * 2) by lia.
    rewrite Nat.div_add by lia. done. }
  unfold mse_loss, slice_channels; cbn [size0 size1 size2 size3].
  rewrite Hhalf, !broadcast_dim_diag. cbn [mbind option_bind].
  replace (c `min` size1 f - 0 `min` size1 f) with c by lia.
  replace (size1 f `min` size1 f - c `min` size1 f) with (S c) by lia.
  unfold broadcast_dim. rewrite !decide_False by lia. done.
Qed.

Lemma intra_fd_empty_batch : intra_fd empty_batch = Some nan.
Proof.
  unfold intra_fd, select_channels.
  rewrite decide_True; last first.
  { pose proof (argsort_desc_bound (channel_means (normalize empty_batch))) as Hb.
    by rewrite channel_means_length in Hb. }
  cbn [mbind option_bind size1].
  rewrite argsort_desc_length, channel_means_length.
  apply mse_loss_empty; reflexivity.
Qed.

(** C7, as stated, fails: on a feature map with five channels the two
    halves have two and three channels, [mse_loss] refuses them, and no
    scalar is returned; and on an empty batch the result is not-a-number. *)
Lemma intra_fd_five_channels :
  (¬ ∃ v, intra_fd five_channels = Some (Finite v) ∧ (0 <= v)%R) ∧
  intra_fd empty_batch = Some nan.
Proof.
  split; [|apply intra_fd_empty_batch].
  intros [v [Hv _]].
  rewrite (intra_fd_odd five_channels 2) in Hv; [done|done|lia|simpl; lia..].
Qed.

(** C7, amended: whenever [intra_fd] returns a number it is non-negative,
    and it does return one on every feature map with an even number of
    channels and no empty dimension. *)
Theorem intra_fd_nonneg_even f :
  (∀ v, intra_fd f = Some (Finite v) → (0 <= v)%R) ∧
  (Nat.Even (size1 f) → 0 < size0 f → 0 < size1 f → 0 < size2 f → 0 < size3 f →
   ∃ v, intra_fd f = Some (Finite v) ∧ (0 <= v)%R).
Proof.
  split; [apply intra_fd_nonneg|].
  intros He HN HC HH HW.
  destruct (intra_fd_even f He HN HC HH HW) as [v Hv].
  exists v. split; [done|]. by eapply intra_fd_nonneg.
Qed.

(** On [two_channels]: one image, two channels, one pixel. *)
Lemma intra_fd_nonneg_even_witness :
  ∃ v, intra_fd two_channels = Some (Finite v) ∧ (0 <= v)%R.
Proof.
  apply (intra_fd_nonneg_even two_channels).
  - exists 1. reflexivity.
  - simpl; lia.
  - simpl; lia.
  - simpl; lia.
  - simpl; lia.
Defined.

Lemma intra_fd_two_channels : intra_fd two_channels = Some (Finite 1).
Proof.
  unfold intra_fd.
  pose proof (argsort_desc_perm (channel_means (normalize two_channels))) as Hp.
  rewrite channel_means_length in Hp. cbn [size1 normalize two_channels seq] in Hp.
  symmetry in Hp. apply Permutation_length_2_inv in Hp as [-> | ->].
  - unfold select_channels, mse_loss, slice_channels, sum4, big_sum; simpl.
    do 2 f_equal. lra.
  - unfold select_channels, mse_loss, slice_channels, sum4, big_sum; simpl.
    do 2 f_equal. lra.
Qed.

Lemma inter_fd_two_channels :
  inter_fd two_channels two_channels [0; 1] [0; 1] = Some (Finite 0).
Proof.
  unfold inter_fd, select_channels, mse_loss, sum4, big_sum; simpl.
  do 2 f_equal. lra.
Qed.

Lemma mean4 a1 a2 a3 a4 :
  scalar_div (scalar_add (scalar_add (scalar_add a1 a2) a3) a4) 4
  = mean [a1; a2; a3; a4].
Proof.
  destruct a1, a2, a3, a4; unfold mean, scalar_sum; simpl; try done.
  f_equal. lra.
Qed.

Lemma mean3 b1 b2 b3 :
  scalar_div (scalar_add (scalar_add b1 b2) b3) 3 = mean [b1; b2; b3].
Proof.
  destruct b1, b2, b3; unfold mean, scalar_sum; simpl; try done.
  f_equal. lra.
Qed.

Lemma mean7 c1 c2 c3 c4 c5 c6 c7 :
  scalar_div
    (scalar_add (scalar_add (scalar_add (scalar_add (scalar_add (scalar_add c1 c2) c3) c4) c5) c6) c7)
    7
  = mean [c1; c2; c3; c4; c5; c6; c7].
Proof.
  destruct c1, c2, c3, c4, c5, c6, c7; unfold mean, scalar_sum; simpl; try done.
  f_equal. lra.
Qed.

Lemma forward_groups lambda_x e1 e2 e3 e4 d1 d2 d3 final_up r1 r2 r3 r4 r5 r6 r7 :
  forward lambda_x [e1; e2; e3; e4] [d1; d2; d3] final_up [r1; r2; r3; r4; r5; r6; r7]
  = forward_by_groups lambda_x [e1; e2; e3; e4] [d1; d2; d3] final_up
      [r1; r2; r3; r4; r5; r6; r7].
Proof.
  unfold forward, forward_by_groups.
  cbn [lookup list_lookup mbind option_bind mapM app zip zip_with fst snd mret option_ret].
  destruct (intra_fd e1) as [a1|]; [|done].
  destruct (intra_fd e2) as [a2|]; [|done].
  destruct (intra_fd e3) as [a3|]; [|done].
  destruct (intra_fd e4) as [a4|]; [|done].
  cbn [mbind option_bind mret option_ret].
  destruct (intra_fd d1) as [b1|]; [|done].
  destruct (intra_fd d2) as [b2|]; [|done].
  destruct (intra_fd d3) as [b3|]; [|done].
  cbn [mbind option_bind mret option_ret].
  destruct (inter_fd d1 final_up r1.1 r1.2) as [c1|]; [|done].
  destruct (inter_fd d2 final_up r2.1 r2.2) as [c2|]; [|done].
  destruct (inter_fd d3 final_up r3.1 r3.2) as [c3|]; [|done].
  destruct (inter_fd e1 final_up r4.1 r4.2) as [c4|]; [|done].
  destruct (inter_fd e2 final_up r5.1 r5.2) as [c5|]; [|done].
  destruct (inter_fd e3 final_up r6.1 r6.2) as [c6|]; [|done].
  destruct (inter_fd e4 final_up r7.1 r7.2) as [c7|]; [|done].
  cbn [mbind option_bind mret option_ret].
  by rewrite mean4, mean3, mean7.
Qed.

(** C6: [forward] averages the intra-feature term over the four encoder
    maps and over the three decoder maps separately and adds the two
    averages; to that it adds the inter-feature term averaged over the seven
    pairs, and scales the sum by [lambda_x]. *)
Theorem forward_averages_by_group lambda_x e1 e2 e3 e4 d1 d2 d3 final_up
    r1 r2 r3 r4 r5 r6 r7 :
  forward lambda_x [e1; e2; e3; e4] [d1; d2; d3] final_up [r1; r2; r3; r4; r5; r6; r7]
  = forward_by_groups lambda_x [e1; e2; e3; e4] [d1; d2; d3] final_up
      [r1; r2; r3; r4; r5; r6; r7].
Proof. apply forward_groups. Qed.

(** C6, as stated, fails: with every feature map equal to [two_channels]
    (intra-feature term 1, inter-feature term 0) the code returns 2 where
    the average over all seven maps gives 1. *)
Lemma forward_not_mean_of_seven :
  forward 1 [two_channels; two_channels; two_channels; two_channels]
    [two_channels; two_channels; two_channels] two_channels
    (replicate 7 ([0; 1], [0; 1]))
  ≠ forward_spec 1 [two_channels; two_channels; two_channels; two_channels]
      [two_channels; two_channels; two_channels] two_channels
      (replicate 7 ([0; 1], [0; 1])).
Proof.
  unfold forward, forward_spec.
  cbn [replicate lookup list_lookup mbind option_bind mapM app zip zip_with fst snd
       mret option_ret].
  rewrite !intra_fd_two_channels, !inter_fd_two_channels.
  cbn [mbind option_bind mret option_ret].
  unfold mean, scalar_sum; simpl.
  intros Heq. injection Heq as Heq. lra.
Qed.

Lemma win_start_blocks i h k : 0 < h → win_start i (k * h) h = i * k.
Proof.
  intros Hh. unfold win_start.
  replace (i * (k * h)) with (i * k * h) by lia. apply Nat.div_mul. lia.
Qed.

Lemma win_end_blocks i h k : 0 < h → win_end i (k * h) h = (i + 1) * k.
Proof.
  intros Hh. unfold win_end.
  replace ((i + 1) * (k * h) + h - 1) with ((h - 1) + (i + 1) * k * h) by lia.
  rewrite Nat.div_add by lia. rewrite Nat.div_small by lia. lia.
Qed.

Lemma mse_loss_ext a a' b b' :
  size0 a = size0 a' → size1 a = size1 a' → size2 a = size2 a' → size3 a = size3 a' →
  size0 b = size0 b' → size1 b = size1 b' → size2 b = size2 b' → size3 b = size3 b' →
  (∀ n c h w, at_ a n c h w = at_ a' n c h w) →
  (∀ n c h w, at_ b n c h w = at_ b' n c h w) →
  mse_loss a b = mse_loss a' b'.
Proof.
  intros A0 A1 A2 A3 B0 B1 B2 B3 Ha Hb. unfold mse_loss.
  rewrite A0, A1, A2, A3, B0, B1, B2, B3.
  destruct (broadcast_dim (size0 a') (size0 b')) as [N|]; [cbn [mbind option_bind]|done].
  destruct (broadcast_dim (size1 a') (size1 b')) as [C|]; [cbn [mbind option_bind]|done].
  destruct (broadcast_dim (size2 a') (size2 b')) as [H|]; [cbn [mbind option_bind]|done].
  destruct (broadcast_dim (size3 a') (size3 b')) as [W|]; [cbn [mbind option_bind]|done].
  case_decide; [done|]. do 3 f_equal.
  apply sum4_ext. intros n c h w. by rewrite Ha, Hb.
Qed.

Lemma select_channels_ext f f' idx :
  size0 f = size0 f' → size1 f = size1 f' → size2 f = size2 f' → size3 f = size3 f' →
  (∀ n c h w, at_ f n c h w = at_ f' n c h w) →
  match select_channels f idx, select_channels f' idx with
  | Some a, Some a' =>
      size0 a = size0 a' ∧ size1 a = size1 a' ∧ size2 a = size2 a' ∧
      size3 a = size3 a' ∧ ∀ n c h w, at_ a n c h w = at_ a' n c h w
  | None, None => True
  | _, _ => False
  end.
Proof.
  intros F0 F1 F2 F3 Hf. unfold select_channels. rewrite F1.
  case_decide; [|done]. cbn [size0 size1 size2 size3 at_].
  repeat split; done.
Qed.

(** Pooling a map whose height and width are multiples of [h] to (h, h)
    averages its blocks. *)
Lemma adaptive_avg_pool2d_blocks f h k k' :
  0 < h → 0 < k → 0 < k' → size1 f ≠ 0 →
  size2 f = k * h → size3 f = k' * h →
  ∃ p, adaptive_avg_pool2d f (h, h) = Some p ∧
    size0 p = size0 (block_means f k k') ∧ size1 p = size1 (block_means f k k') ∧
    size2 p = size2 (block_means f k k') ∧ size3 p = size3 (block_means f k k') ∧
    ∀ n c i j, at_ p n c i j = at_ (block_means f k k') n c i j.
Proof.
  intros Hh Hk Hk' HC HH HW. unfold adaptive_avg_pool2d.
  rewrite decide_False by (rewrite HH, HW; intros [?|[?|?]]; [done|nia..]).
  assert (size2 f / k = h) as Hdk
    by (rewrite HH, Nat.mul_comm; apply Nat.div_mul; lia).
  assert (size3 f / k' = h) as Hdk'
    by (rewrite HW, Nat.mul_comm; apply Nat.div_mul; lia).
  eexists. split; [reflexivity|]. unfold block_means.
  cbn [size0 size1 size2 size3 at_].
  rewrite Hdk, Hdk', HH, HW. do 4 (split; [done|]).
  intros n c i j. rewrite !win_start_blocks, !win_end_blocks by done.
  replace ((i + 1) * k - i * k) with k by lia.
  replace ((j + 1) * k' - j * k') with k' by lia.
  reflexivity.
Qed.

Lemma inter_fd_pools_first f_s f_t idx_s idx_t k k' :
  0 < size2 f_t → 1 < k → 0 < k' → size1 f_s ≠ 0 →
  size2 f_s = k * size2 f_t → size3 f_s = k' * size2 f_t →
  inter_fd f_s f_t idx_s idx_t
  = (a ← select_channels (block_means f_s k k') idx_s;
     b ← select_channels f_t idx_t;
     mse_loss a b).
Proof.
  intros Hh Hk Hk' HC HH HW. unfold inter_fd.
  rewrite decide_True by nia.
  destruct (adaptive_avg_pool2d_blocks f_s (size2 f_t) k k')
    as (p & -> & P0 & P1 & P2 & P3 & Hp); [done || lia..|].
  cbn [mbind option_bind].
  pose proof (select_channels_ext p (block_means f_s k k') idx_s P0 P1 P2 P3 Hp) as He.
  destruct (select_channels p idx_s) as [a|],
    (select_channels (block_means f_s k k') idx_s) as [a'|]; try done.
  cbn [mbind option_bind].
  destruct (select_channels f_t idx_t) as [b|]; [cbn [mbind option_bind]|done].
  destruct He as (A0 & A1 & A2 & A3 & Ha). by apply mse_loss_ext.
Qed.

Lemma inter_fd_pools_second f_s f_t idx_s idx_t k k' :
  0 < size2 f_s → 1 < k → 0 < k' → size1 f_t ≠ 0 →
  size2 f_t = k * size2 f_s → size3 f_t = k' * size2 f_s →
  inter_fd f_s f_t idx_s idx_t
  = (a ← select_channels f_s idx_s;
     b ← select_channels (block_means f_t k k') idx_t;
     mse_loss a b).
Proof.
  intros Hh Hk Hk' HC HH HW. unfold inter_fd.
  rewrite decide_False by nia. rewrite decide_True by nia.
  destruct (adaptive_avg_pool2d_blocks f_t (size2 f_s) k k')
    as (p & -> & P0 & P1 & P2 & P3 & Hp); [done || lia..|].
  cbn [mbind option_bind].
  destruct (select_channels f_s idx_s) as [a|]; [cbn [mbind option_bind]|done].
  pose proof (select_channels_ext p (block_means f_t k k') idx_t P0 P1 P2 P3 Hp) as He.
  destruct (select_channels p idx_t) as [b|],
    (select_channels (block_means f_t k k') idx_t) as [b'|]; try done.
  cbn [mbind option_bind].
  destruct He as (A0 & A1 & A2 & A3 & Hb). by apply mse_loss_ext.
Qed.


Lemma numel_selected N C H W :
  0 < N → 0 < C → 0 < H → 0 < W → N * C * H * W ≠ 0.
Proof. intros. repeat (apply Nat.neq_mul_0; split); lia. Qed.

Lemma inter_fd_nonneg f_s f_t idx_s idx_t v :
  inter_fd f_s f_t idx_s idx_t = Some (Finite v) → (0 <= v)%R.
Proof.
  unfold inter_fd. intros Hi.
  destruct (if decide (size2 f_t < size2 f_s) then _ else _) as [[a b]|];
    [cbn [mbind option_bind] in Hi|done].
  destruct (select_channels a idx_s) as [a'|]; [cbn [mbind option_bind] in Hi|done].
  destruct (select_channels b idx_t) as [b'|]; [cbn [mbind option_bind] in Hi|done].
  by eapply mse_loss_nonneg.
Qed.

(** On square maps of one batch size [inter_fd] returns a number. *)
Lemma inter_fd_square_Finite f_s f_t idx_s idx_t :
  size0 f_s = size0 f_t → 0 < size0 f_s →
  size3 f_s = size2 f_s → size3 f_t = size2 f_t →
  0 < size2 f_s → 0 < size2 f_t →
  0 < size1 f_s → 0 < size1 f_t →
  length idx_s = size1 f_s `min` size1 f_t → Forall (λ i, i < size1 f_s) idx_s →
  length idx_t = size1 f_s `min` size1 f_t → Forall (λ i, i < size1 f_t) idx_t →
  ∃ v, inter_fd f_s f_t idx_s idx_t = Some (Finite v).
Proof.
  intros HN HN0 Hss Hst HHs HHt HCs HCt Hls His Hlt Hit.
  unfold inter_fd, adaptive_avg_pool2d.
  destruct (decide (size2 f_t < size2 f_s)) as [Hlt'|Hge];
    [|destruct (decide (size2 f_s < size2 f_t)) as [Hlt'|Hge']];
    rewrite ?decide_False by lia; cbn [mbind option_bind];
    unfold select_channels; cbn [size0 size1 size2 size3];
    rewrite !decide_True by done; cbn [mbind option_bind];
    (apply mse_loss_same_shape; cbn [size0 size1 size2 size3]; try done; try lia);
    unfold numel; cbn [size0 size1 size2 size3]; apply numel_selected; lia.
Qed.

(** C8: the value of [inter_fd] does not depend on which of the two feature
    maps is passed first: with the channel selections kept with their maps,
    swapping the arguments gives the same result (the same number, the same
    not-a-number, or an error in both orders). Whichever argument the
    larger map is, it is pooled down to the resolution of the other before
    the mean squared error is taken: when its height and width are
    multiples of the height h of the other, to the means of its blocks, at
    resolution (h, h). And for square maps of one batch size, of any two
    sizes, a number is computed, the same in both orders. *)
Theorem inter_fd_symmetric f_s f_t idx_s idx_t :
  inter_fd f_s f_t idx_s idx_t = inter_fd f_t f_s idx_t idx_s ∧
  (∀ k k', 0 < size2 f_t → 1 < k → 0 < k' → size1 f_s ≠ 0 →
     size2 f_s = k * size2 f_t → size3 f_s = k' * size2 f_t →
     inter_fd f_s f_t idx_s idx_t
     = (a ← select_channels (block_means f_s k k') idx_s;
        b ← select_channels f_t idx_t;
        mse_loss a b)) ∧
  (∀ k k', 0 < size2 f_s → 1 < k → 0 < k' → size1 f_t ≠ 0 →
     size2 f_t = k * size2 f_s → size3 f_t = k' * size2 f_s →
     inter_fd f_s f_t idx_s idx_t
     = (a ← select_channels f_s idx_s;
        b ← select_channels (block_means f_t k k') idx_t;
        mse_loss a b)) ∧
  (size0 f_s = size0 f_t → 0 < size0 f_s →
   size3 f_s = size2 f_s → size3 f_t = size2 f_t →
   0 < size2 f_s → 0 < size2 f_t →
   0 < size1 f_s → 0 < size1 f_t →
   length idx_s = size1 f_s `min` size1 f_t → Forall (λ i, i < size1 f_s) idx_s →
   length idx_t = size1 f_s `min` size1 f_t → Forall (λ i, i < size1 f_t) idx_t →
   ∃ v, inter_fd f_s f_t idx_s idx_t = Some (Finite v) ∧
        inter_fd f_t f_s idx_t idx_s = Some (Finite v) ∧ (0 <= v)%R).
Proof.
  assert (inter_fd f_s f_t idx_s idx_t = inter_fd f_t f_s idx_t idx_s) as Hsym.
  { apply inter_fd_swap. }
  split; [exact Hsym|].
  split; [intros k k'; apply inter_fd_pools_first|].
  split; [intros k k'; apply inter_fd_pools_second|].
  intros HN HN0 Hss Hst HHs HHt HCs HCt Hls His Hlt Hit.
  destruct (inter_fd_square_Finite f_s f_t idx_s idx_t) as [v Hv]; try done.
  exists v. split; [done|]. split; [by rewrite <- Hsym|].
  by eapply inter_fd_nonneg.
Qed.

(** Three channels on a 2x2 and a 1x1 map: the larger map is pooled to its
    channel means 1, 2 and 3 in both orders. *)
Lemma inter_fd_symmetric_witness :
  ∃ v, inter_fd three_maps three_points [0; 1; 2] [1; 2; 0] = Some (Finite v) ∧
       inter_fd three_points three_maps [1; 2; 0] [0; 1; 2] = Some (Finite v) ∧
       (0 <= v)%R.
Proof.
  destruct (inter_fd_symmetric three_maps three_points [0; 1; 2] [1; 2; 0])
    as (_ & _ & _ & Hv).
  apply Hv; try reflexivity; try (simpl; lia);
    apply (bool_decide_unpack _); by vm_compute.
Defined.

(** The same maps with numbers: 11/3 in both orders when each map keeps
    its selection; when the two selections are kept in the order of the
    calls of [random.sample] instead, and so change maps, 13/3. *)
Lemma inter_fd_three_channels :
  inter_fd three_maps three_points [0; 1; 2] [1; 2; 0] = Some (Finite (11 / 3)) ∧
  inter_fd three_points three_maps [1; 2; 0] [0; 1; 2] = Some (Finite (11 / 3)) ∧
  inter_fd three_points three_maps [0; 1; 2] [1; 2; 0] = Some (Finite (13 / 3)).
Proof.
  split; [|split].
  - rewrite (inter_fd_pools_first _ _ _ _ 2 2) by (simpl; lia).
    unfold block_means, select_channels, mse_loss, sum4, big_sum; simpl.
    do 2 f_equal. lra.
  - rewrite (inter_fd_pools_second _ _ _ _ 2 2) by (simpl; lia).
    unfold block_means, select_channels, mse_loss, sum4, big_sum; simpl.
    do 2 f_equal. lra.
  - rewrite (inter_fd_pools_second _ _ _ _ 2 2) by (simpl; lia).
    unfold block_means, select_channels, mse_loss, sum4, big_sum; simpl.
    do 2 f_equal. lra.
Qed.

End KDloss_theory.

(** ** Properties of the training driver *)

Module trainer_unet_theory.

Import trainer_unet trainer_unet_losses.
Local Open Scope Z_scope.

Section Schedule.

Lemma float_pow_pos x y : (0 < x)%R → float_pow x y = Some (Rpower x y).
Proof. intros Hx. unfold float_pow. by destruct (Rlt_dec 0 x). Qed.

Lemma ratio_lt_1 i n : 0 <= i < n → (0 < 1.0 - IZR i / IZR n <= 1)%R.
Proof.
  intros [Hi Hn].
  assert (0 < IZR n)%R as Hn0 by (apply IZR_lt; lia).
  assert (0 <= IZR i)%R as Hi0 by (apply IZR_le; lia).
  assert (IZR i < IZR n)%R as Hin by (by apply IZR_lt).
  assert (0 <= IZR i / IZR n < 1)%R as [? ?].
  { split.
    - apply Rmult_le_pos; [done|]. left. by apply Rinv_0_lt_compat.
    - apply (Rmult_lt_reg_r (IZR n)); [done|].
      unfold Rdiv. rewrite Rmult_assoc, Rinv_l by lra. lra. }
  lra.
Qed.

Lemma poly_lr_Return base_lr i n :
  0 <= i < n → poly_lr base_lr i n = Return (schedule base_lr n i).
Proof.
  intros Hin. unfold poly_lr, schedule.
  rewrite decide_False by lia.
  rewrite float_pow_pos; [done|]. by apply ratio_lt_1.
Qed.

Lemma Rpower_1_l y : Rpower 1 y = 1%R.
Proof. unfold Rpower. by rewrite ln_1, Rmult_0_r, exp_0. Qed.

Lemma schedule_0 base_lr n : 0 < n → schedule base_lr n 0 = base_lr.
Proof.
  intros Hn. unfold schedule.
  replace (1.0 - 0 / IZR n)%R with 1%R by (unfold Rdiv; lra).
  rewrite Rpower_1_l. lra.
Qed.

Lemma schedule_last base_lr n :
  0 < n → schedule base_lr n (n - 1) = (base_lr * Rpower (/ IZR n) 0.9)%R.
Proof.
  intros Hn. unfold schedule.
  assert (0 < IZR n)%R by (apply IZR_lt; lia).
  replace (1.0 - IZR (n - 1) / IZR n)%R with (/ IZR n)%R; [done|].
  assert (IZR n * / IZR n = 1)%R by (apply Rinv_r; lra).
  rewrite minus_IZR. unfold Rdiv. nra.
Qed.

Lemma schedule_antitone base_lr n i j :
  (0 <= base_lr)%R → 0 <= i <= j → j < n →
  (schedule base_lr n j <= schedule base_lr n i)%R.
Proof.
  intros Hb Hij Hj. unfold schedule.
  apply Rmult_le_compat_l; [done|].
  apply Rle_Rpower_l; [lra|].
  pose proof (ratio_lt_1 j n ltac:(lia)) as [Hj0 _].
  split; [done|].
  assert (0 < IZR n)%R by (apply IZR_lt; lia).
  assert (IZR i <= IZR j)%R by (apply IZR_le; lia).
  assert (IZR i / IZR n <= IZR j / IZR n)%R.
  { unfold Rdiv. apply Rmult_le_compat_r; [|done].
    left. by apply Rinv_0_lt_compat. }
  lra.
Qed.

Lemma Rpower_inv x y : (0 < x)%R → Rpower (/ x) y = (/ Rpower x y)%R.
Proof.
  intros Hx. unfold Rpower. rewrite ln_Rinv by done.
  replace (y * - ln x)%R with (- (y * ln x))%R by ring. apply exp_Ropp.
Qed.

Lemma schedule_last_vanishes base_lr eps :
  (0 < eps)%R →
  ∃ n0, 0 < n0 ∧ ∀ n, n0 <= n → (Rabs (schedule base_lr n (n - 1)) < eps)%R.
Proof.
  intros Heps.
  set (d := (eps / (Rabs base_lr + 1))%R).
  assert (0 <= Rabs base_lr)%R as Hb by apply Rabs_pos.
  assert (0 < d)%R as Hd.
  { unfold d. apply Rdiv_lt_0_compat; lra. }
  set (r := Rpower (/ d) (10 / 9)).
  exists (Z.max 1 (up r)). split; [lia|]. intros n Hn.
  assert (0 < n) as Hn0 by lia.
  assert (r < IZR n)%R as Hr.
  { destruct (archimed r) as [Hup _].
    apply Rlt_le_trans with (IZR (up r)); [done|]. apply IZR_le. lia. }
  assert (0 < r)%R as Hr0 by apply exp_pos.
  assert (0 < IZR n)%R as HnR by lra.
  rewrite schedule_last by done.
  rewrite Rabs_mult, Rpower_inv by done.
  assert (/ d < Rpower (IZR n) 0.9)%R as Hpow.
  { replace (/ d)%R with (Rpower r 0.9).
    - apply Rlt_Rpower_l; lra.
    - unfold r. rewrite Rpower_mult.
      replace (10 / 9 * 0.9)%R with 1%R by lra.
      apply Rpower_1. by apply Rinv_0_lt_compat. }
  assert (0 < / d)%R as Hid by (by apply Rinv_0_lt_compat).
  assert (0 < Rpower (IZR n) 0.9)%R as Hp0 by apply exp_pos.
  assert (/ Rpower (IZR n) 0.9 < d)%R as Hlt.
  { rewrite <- (Rinv_inv d). apply Rinv_lt_contravar; [|done].
    apply Rmult_lt_0_compat; done. }
  rewrite (Rabs_pos_eq (/ _)) by (left; by apply Rinv_0_lt_compat).
  apply Rle_lt_trans with (Rabs base_lr * d)%R.
  - apply Rmult_le_compat_l; lra.
  - unfold d. 
    apply (Rmult_lt_reg_r (Rabs base_lr + 1)); [lra|].
    replace (Rabs base_lr * (eps / (Rabs base_lr + 1)) * (Rabs base_lr + 1))%R
      with (Rabs base_lr * eps)%R by (field; lra).
    nra.
Qed.

Lemma poly_lr_single_step : poly_lr 1 (1 - 1) 1 = Return 1%R.
Proof.
  rewrite poly_lr_Return by lia. f_equal.
  change (1 - 1) with 0. rewrite schedule_0 by lia. done.
Qed.

Lemma Rpower_half_lt_1 : (Rpower (1.0 - 1 / 2) 0.9 < 1)%R.
Proof.
  unfold Rpower. apply Rlt_le_trans with (exp 0); [|rewrite exp_0; lra].
  apply exp_increasing.
  assert (ln (1.0 - 1 / 2) < ln 1)%R as Hln by (apply ln_increasing; lra).
  rewrite ln_1 in Hln. lra.
Qed.

Lemma schedule_negative_base : (schedule (-1) 2 0 < schedule (-1) 2 1)%R.
Proof.
  rewrite schedule_0 by lia. unfold schedule.
  pose proof Rpower_half_lt_1. lra.
Qed.

(** C5, as stated, fails: in a run of a single step the last step is the
    first one, and its learning rate is [base_lr] itself (here 1), which no
    tolerance below 1 takes for 0; and from a negative [base_lr] the rate
    increases with the step. *)
Lemma last_rate_of_single_step :
  (poly_lr 1 (1 - 1) 1 = Return 1%R ∧ ∀ tol, (tol < 1)%R → ¬ (Rabs 1 <= tol)%R) ∧
  (∃ v0 v1, poly_lr (-1) 0 2 = Return v0 ∧ poly_lr (-1) 1 2 = Return v1 ∧
     (v0 < v1)%R).
Proof.
  split.
  - split; [apply poly_lr_single_step|].
    intros tol Htol. rewrite Rabs_R1. lra.
  - exists (schedule (-1) 2 0), (schedule (-1) 2 1).
    rewrite !poly_lr_Return by lia. repeat split. apply schedule_negative_base.
Qed.

(** C5, amended: the schedule is a function of [base_lr], the step and the
    number of steps with: lr(0) = base_lr; lr(total_steps - 1) =
    base_lr * (1 / total_steps) ^ 0.9, which comes within any tolerance of 0
    once total_steps is large enough; and, for a non-negative [base_lr], lr
    is non-increasing in the step over 0 <= step < total_steps. *)
Theorem poly_lr_properties base_lr :
  (∀ n, 0 < n → poly_lr base_lr 0 n = Return base_lr) ∧
  (∀ n, 0 < n →
     poly_lr base_lr (n - 1) n = Return (base_lr * Rpower (/ IZR n) 0.9)%R) ∧
  (∀ eps, (0 < eps)%R →
     ∃ n0, 0 < n0 ∧ ∀ n, n0 <= n →
       ∃ v, poly_lr base_lr (n - 1) n = Return v ∧ (Rabs v < eps)%R) ∧
  ((0 <= base_lr)%R → ∀ n i j, 0 <= i <= j → j < n →
     ∃ vi vj, poly_lr base_lr i n = Return vi ∧ poly_lr base_lr j n = Return vj ∧
       (vj <= vi)%R).
Proof.
  split; [|split; [|split]].
  - intros n Hn. rewrite poly_lr_Return by lia. by rewrite schedule_0.
  - intros n Hn. rewrite poly_lr_Return by lia. by rewrite schedule_last.
  - intros eps Heps.
    destruct (schedule_last_vanishes base_lr eps Heps) as (n0 & Hn0 & Hv).
    exists n0. split; [done|]. intros n Hn.
    exists (schedule base_lr n (n - 1)). split; [|by apply Hv].
    apply poly_lr_Return. lia.
  - intros Hb n i j Hij Hj.
    exists (schedule base_lr n i), (schedule base_lr n j).
    split; [apply poly_lr_Return; lia|]. split; [apply poly_lr_Return; lia|].
    by apply schedule_antitone.
Qed.

(** Steps 1 and 3 of a run of four steps, from a base rate of 0.01. *)
Lemma poly_lr_properties_witness :
  ∃ vi vj, poly_lr 0.01 1 4 = Return vi ∧ poly_lr 0.01 3 4 = Return vj ∧
    (vj <= vi)%R.
Proof.
  destruct (poly_lr_properties 0.01) as (_ & _ & _ & Hmono).
  apply Hmono; [lra | lia | lia].
Defined.

End Schedule.

Section Paths.

Lemma string_app_length (s t : string) :
  String.length (s +:+ t) = (String.length s + String.length t)%nat.
Proof. induction s as [|c s IH]; simpl; [done|]. by rewrite IH. Qed.

Lemma string_app_inj_l (s1 s2 t : string) : s1 +:+ t = s2 +:+ t → s1 = s2.
Proof.
  revert s2. induction s1 as [|c s1 IH]; intros [|c' s2] Heq; simpl in *.
  - done.
  - apply (f_equal String.length) in Heq. simpl in Heq.
    rewrite !string_app_length in Heq. simpl in Heq. lia.
  - apply (f_equal String.length) in Heq. simpl in Heq.
    rewrite !string_app_length in Heq. simpl in Heq. lia.
  - injection Heq as -> Heq. f_equal. by apply IH.
Qed.

Lemma os_path_join_inj a b1 b2 : os_path_join a b1 = os_path_join a b2 → b1 = b2.
Proof.
  unfold os_path_join. destruct (bool_decide (a = "")); [done|].
  destruct (ends_with_slash a); intros Heq.
  - by apply String.app_inj in Heq.
  - apply String.app_inj in Heq. by apply String.app_inj in Heq.
Qed.

Lemma checkpoint_inj p : Inj eq eq (checkpoint p).
Proof.
  intros e1 e2 Heq. unfold checkpoint in Heq.
  apply os_path_join_inj, String.app_inj, string_app_inj_l in Heq.
  by apply pretty_Z_inj in Heq.
Qed.

Lemma elem_of_range n e : e ∈ range n ↔ 0 <= e < n.
Proof.
  unfold range. rewrite list_elem_of_fmap. split.
  - intros (i & -> & Hi%elem_of_seq). lia.
  - intros He. exists (Z.to_nat e). split; [lia|]. apply elem_of_seq. lia.
Qed.

End Paths.

Section Run.
Context `{Framework}.

Lemma bind_Return {A B} (m : M A) (f : A → M B) t a :
  m = (t, Return a) → m ≫= f = (t ++ (f a).1, (f a).2).
Proof. intros ->. unfold mbind, M_bind, bind. by destruct (f a). Qed.

Lemma ret_bind {A B} (a : A) (f : A → M B) : ret a ≫= f = f a.
Proof. unfold mbind, M_bind, bind, ret. by destruct (f a). Qed.

Lemma foldM_inv {A B} (I : nat → list call → B → Prop)
    (body : B → A → M B) (l : list A) (b : B) (t0 : list call) :
  I 0%nat t0 b →
  (∀ j t b a, l !! j = Some a → I j t b →
     ∃ t' b', body b a = (t', Return b') ∧ I (S j) (t ++ t') b') →
  ∃ t' b', foldM body l b = (t', Return b') ∧ I (length l) (t0 ++ t') b'.
Proof.
  revert I b t0. induction l as [|a l IH]; intros I b t0 H0 Hstep.
  - exists [], b. split; [done|]. by rewrite app_nil_r.
  - destruct (Hstep 0%nat t0 b a eq_refl H0) as (t1 & b1 & Hb & H1).
    destruct (IH (λ j, I (S j)) b1 (t0 ++ t1) H1) as (t2 & b2 & Hf & H2).
    { intros j t b' a' Hj. by apply (Hstep (S j)). }
    exists (t1 ++ t2), b2. split.
    + cbn [foldM]. rewrite (bind_Return _ _ _ _ Hb), Hf. done.
    + by rewrite app_assoc.
Qed.

Lemma foldM_break_inv {A B} (I : nat → list call → B → Prop)
    (body : B → A → M (B * bool)) (l : list A) (b : B) (t0 : list call) :
  I 0%nat t0 b →
  (∀ j t b a, l !! j = Some a → I j t b →
     ∃ t' b' stop, body b a = (t', Return (b', stop)) ∧ I (S j) (t ++ t') b' ∧
       (stop = true → S j = length l)) →
  ∃ t' b', foldM_break body l b = (t', Return b') ∧ I (length l) (t0 ++ t') b'.
Proof.
  revert I b t0. induction l as [|a l IH]; intros I b t0 H0 Hstep.
  - exists [], b. split; [done|]. by rewrite app_nil_r.
  - destruct (Hstep 0%nat t0 b a eq_refl H0) as (t1 & b1 & stop & Hb & H1 & Hstop).
    destruct stop.
    + exists t1, b1. split.
      * cbn [foldM_break]. rewrite (bind_Return _ _ _ _ Hb). cbn. by rewrite app_nil_r.
      * rewrite <- Hstop by done. done.
    + destruct (IH (λ j, I (S j)) b1 (t0 ++ t1) H1) as (t2 & b2 & Hf & H2).
      { intros j t b' a' Hj Hi.
        destruct (Hstep (S j) t b' a' Hj Hi) as (t' & b'' & stop & ? & ? & Hs).
        exists t', b'', stop. repeat split; try done.
        intros Ht. specialize (Hs Ht). simpl in Hs. lia. }
      exists (t1 ++ t2), b2. split.
      * cbn [foldM_break]. rewrite (bind_Return _ _ _ _ Hb). cbn. by rewrite Hf.
      * by rewrite app_assoc.
Qed.

Lemma range_length n : length (range n) = Z.to_nat n.
Proof. unfold range. by rewrite length_fmap, length_seq. Qed.

Lemma range_lookup n j a : range n !! j = Some a → a = Z.of_nat j ∧ (j < Z.to_nat n)%nat.
Proof.
  unfold range. rewrite list_lookup_fmap. intros Hl.
  destruct (seq 0 (Z.to_nat n) !! j) as [i|] eqn:Hs; [|done].
  apply lookup_seq in Hs as [-> ?]. simpl in Hl. by injection Hl as <-.
Qed.

Lemma range_succ n : 0 <= n → range (n + 1) = range n ++ [n].
Proof.
  intros Hn. unfold range.
  replace (Z.to_nat (n + 1)) with (S (Z.to_nat n)) by lia.
  rewrite seq_S, fmap_app. simpl. do 2 f_equal. lia.
Qed.

Lemma range_nonpos n : n <= 0 → range n = [].
Proof. intros Hn. unfold range. by replace (Z.to_nat n) with 0%nat by lia. Qed.

Lemma synapse_batch_spec h a len max_iterations epoch_num :
  cuda_is_available h = true →
  batch_spec (base_lr a) max_iterations
    (synapse_batch h a len max_iterations epoch_num).
Proof.
  intros Hcuda v [i [image label]] Hit.
  unfold synapse_batch, backprop_and_step, to_cuda. rewrite Hcuda, !ret_bind.
  set (loss_ce := CrossEntropyLoss _ _). set (loss_dice := DiceLoss _ _ _ _).
  destruct (optim_step _ _ _ _ _) as [m os] eqn:Hos.
  exists loss_ce, loss_dice.
  exists (if decide (i `mod` 10 = 0)
          then [print (print_mini_batch epoch_num i len
                  (item (tadd (rmul 0.4 loss_ce) (rmul 0.6 loss_dice))))]
          else []).
  eexists. split; [|split; [|split]].
  - cbn [mbind M_bind bind do ret app iter_num].
    rewrite poly_lr_Return by done.
    case_decide; reflexivity.
  - unfold only_prints. case_decide; eauto.
  - cbn. lia.
  - reflexivity.
Qed.

Lemma assd_batch_spec h a max_iterations :
  cuda_is_available h = true →
  batch_spec (base_lr a) max_iterations (assd_batch h a max_iterations).
Proof.
  intros Hcuda v [i [image label]] Hit.
  unfold assd_batch, backprop_and_step, to_cuda. rewrite Hcuda, !ret_bind.
  set (loss_ce := CrossEntropyLoss _ _). set (loss_dice := DiceLoss _ _ _ _).
  destruct (optim_step _ _ _ _ _) as [m os] eqn:Hos.
  exists loss_ce, loss_dice, []. eexists. split; [|split; [|split]].
  - cbn [mbind M_bind bind do ret app iter_num].
    rewrite poly_lr_Return by done. reflexivity.
  - by left.
  - cbn. lia.
  - reflexivity.
Qed.

Lemma loss_weighting_nil : loss_weighting [].
Proof. unfold loss_weighting. simpl. repeat split; constructor. Qed.

Lemma loss_weighting_app t1 t2 :
  loss_weighting t1 → loss_weighting t2 → loss_weighting (t1 ++ t2).
Proof.
  unfold loss_weighting, scalars, iterations, backward_losses.
  intros (A1 & B1 & C1 & D1 & E1 & F1) (A2 & B2 & C2 & D2 & E2 & F2).
  rewrite !omap_app, !fmap_app, !Forall_app.
  rewrite A1, A2, C1, C2, D1, D2, E1, E2. done.
Qed.

Lemma loss_weighting_iteration base_lr max_iterations it loss_ce loss_dice lr_used pr :
  only_prints pr →
  loss_weighting
    (iteration_calls base_lr max_iterations it loss_ce loss_dice lr_used pr).
Proof.
  intros [-> | [l ->]]; unfold loss_weighting; cbn;
    (repeat split; [repeat constructor; eauto | repeat constructor]).
Qed.

Lemma trace_ok_iteration base_lr max_iterations k tr loss_ce loss_dice pr :
  0 <= k → only_prints pr → trace_ok base_lr max_iterations k tr →
  trace_ok base_lr max_iterations (k + 1)
    (tr ++ iteration_calls base_lr max_iterations k loss_ce loss_dice base_lr pr).
Proof.
  intros Hk Hpr (Hlr & Hopt & Hits & Hw). unfold trace_ok.
  rewrite range_succ by done. split; [|split; [|split]].
  - unfold scalars in *. rewrite omap_app, Hlr, fmap_app.
    f_equal. by destruct Hpr as [-> | [l ->]].
  - unfold optimizer_lrs in *. rewrite omap_app, Hopt.
    replace (Z.to_nat (k + 1)) with (Z.to_nat k + 1)%nat by lia.
    rewrite replicate_add. f_equal. by destruct Hpr as [-> | [l ->]].
  - unfold iterations in *. rewrite omap_app, fmap_app, Hits.
    f_equal. by destruct Hpr as [-> | [l ->]].
  - apply loss_weighting_app; [done|]. by apply loss_weighting_iteration.
Qed.

Lemma quiet_obs t :
  Forall quiet t →
  (∀ tag, scalars tag t = []) ∧ optimizer_lrs t = [] ∧ iterations t = [] ∧
  backward_losses t = [].
Proof.
  induction 1 as [|c t Hc _ (IH1 & IH2 & IH3 & IH4)]; [done|].
  unfold scalars, optimizer_lrs, iterations, backward_losses in *.
  destruct c as [| r | | | | | | |]; try done; cbn; try done.
  destruct r; try done.
Qed.

Lemma trace_ok_quiet base_lr max_iterations k tr t :
  Forall quiet t → trace_ok base_lr max_iterations k tr →
  trace_ok base_lr max_iterations k (tr ++ t).
Proof.
  intros Hq (Hlr & Hopt & Hits & A & B & C & D & E & F).
  destruct (quiet_obs t Hq) as (Q1 & Q2 & Q3 & Q4).
  unfold trace_ok, loss_weighting, scalars, iterations, backward_losses,
    optimizer_lrs in *.
  rewrite !omap_app, !Q1, Q2, Q3, Q4, !app_nil_r. done.
Qed.

Lemma saved_paths_iteration base_lr max_iterations it loss_ce loss_dice lr_used pr :
  only_prints pr →
  saved_paths (iteration_calls base_lr max_iterations it loss_ce loss_dice lr_used pr) = [].
Proof. by intros [-> | [l ->]]. Qed.

Lemma batch_loop base_lr max_iterations batch (l : list (Z * (Tensor * Tensor))) v t0 k :
  batch_spec base_lr max_iterations batch →
  0 <= k → k + Z.of_nat (length l) <= max_iterations →
  iter_num v = k → lr (optimizer v) = base_lr →
  trace_ok base_lr max_iterations k t0 →
  ∃ t v', foldM batch l v = (t, Return v') ∧
    trace_ok base_lr max_iterations (k + Z.of_nat (length l)) (t0 ++ t) ∧
    iter_num v' = k + Z.of_nat (length l) ∧
    lr (optimizer v') = base_lr ∧
    saved_paths t = [].
Proof.
  intros Hb Hk Hmax Hit Hlr Hok.
  destruct (foldM_inv
    (λ j tr v, trace_ok base_lr max_iterations (k + Z.of_nat j) tr ∧
               iter_num v = k + Z.of_nat j ∧ lr (optimizer v) = base_lr ∧
               saved_paths tr = saved_paths t0)
    batch l v t0) as (t & v' & Hf & Hok' & Hit' & Hlr' & Hs).
  - rewrite Z.add_0_r. done.
  - intros j tr w ib Hj (Hokj & Hitj & Hlrj & Hsj).
    apply lookup_lt_Some in Hj.
    destruct (Hb w ib) as (ce & dice & pr & w' & Hw & Hpr & Hitw & Hlrw); [lia|].
    rewrite Hitj, Hlrj in Hw.
    eexists _, w'. split; [exact Hw|].
    split; [|split; [|split]].
    + replace (k + Z.of_nat (S j)) with (k + Z.of_nat j + 1) by lia.
      apply trace_ok_iteration; [lia|done..].
    + lia.
    + congruence.
    + unfold saved_paths in *. rewrite omap_app, Hsj.
      fold (saved_paths (iteration_calls base_lr max_iterations (k + Z.of_nat j) ce dice base_lr pr)).
      rewrite saved_paths_iteration by done. by rewrite app_nil_r.
  - exists t, v'. do 4 (split; [done|]).
    unfold saved_paths in *. rewrite omap_app in Hs.
    rewrite <- (app_nil_r (omap _ t0)) in Hs at 2. by apply app_inv_head in Hs.
Qed.

Lemma enumerate_length {A} (l : list A) : length (enumerate l) = length l.
Proof. unfold enumerate. apply length_imap. Qed.

Lemma epoch_of_runs batch a p db bs max_epoch v e t0 :
  let len := len_trainloader db bs in
  let max_iterations := max_epoch * len in
  (∀ e, batch_spec (base_lr a) max_iterations (batch e)) →
  0 <= e < max_epoch →
  iter_num v = e * len → lr (optimizer v) = base_lr a →
  trace_ok (base_lr a) max_iterations (e * len) t0 →
  ∃ t v',
    epoch_of batch a p db bs max_epoch v e
      = (t, Return (v', bool_decide (e >= max_epoch - 1))) ∧
    trace_ok (base_lr a) max_iterations ((e + 1) * len) (t0 ++ t) ∧
    iter_num v' = (e + 1) * len ∧ lr (optimizer v') = base_lr a ∧
    saved_paths t = saves p max_epoch e.
Proof.
  intros len max_iterations Hb He Hit Hlr Hok.
  pose proof (length_batches db bs (seed a) e) as Hlen. fold len in Hlen.
  destruct (batch_loop (base_lr a) max_iterations (batch e)
              (enumerate (batches db bs (seed a) e)) v t0 (e * len))
    as (t & v' & Hf & Hok' & Hit' & Hlr' & Hs); try done.
  { lia. }
  { rewrite enumerate_length, Hlen. unfold max_iterations. nia. }
  rewrite enumerate_length, Hlen in Hok', Hit'.
  replace (e * len + len) with ((e + 1) * len) in Hok', Hit' by lia.
  unfold epoch_of. rewrite (bind_Return _ _ _ _ Hf).
  unfold saves.
  destruct (decide (e > 80)), (decide (e >= max_epoch - 1));
    [rewrite bool_decide_true by done | rewrite bool_decide_false by done
    |rewrite bool_decide_true by done | rewrite bool_decide_false by done];
    cbn [mbind M_bind bind do ret app fst snd];
    eexists _, v'; (split; [reflexivity|]);
    (split; [|split; [done|split; [done|]]]).
  - rewrite app_assoc. apply trace_ok_quiet; [repeat constructor|done].
  - unfold saved_paths in *. rewrite omap_app, Hs. reflexivity.
  - rewrite app_assoc. apply trace_ok_quiet; [repeat constructor|done].
  - unfold saved_paths in *. rewrite omap_app, Hs. reflexivity.
  - rewrite app_assoc. apply trace_ok_quiet; [repeat constructor|done].
  - unfold saved_paths in *. rewrite omap_app, Hs. reflexivity.
  - rewrite app_assoc. apply trace_ok_quiet; [repeat constructor|done].
  - unfold saved_paths in *. rewrite omap_app, Hs. reflexivity.
Qed.

Lemma trace_ok_nil base_lr max_iterations : trace_ok base_lr max_iterations 0 [].
Proof. unfold trace_ok. do 3 (split; [done|]). apply loss_weighting_nil. Qed.

Lemma range_of_to_nat n : range (Z.of_nat (Z.to_nat n)) = range n.
Proof. unfold range. by rewrite Nat2Z.id. Qed.

Lemma epochs_loop batch a p db bs max_epoch v :
  let len := len_trainloader db bs in
  let max_iterations := max_epoch * len in
  (∀ e, batch_spec (base_lr a) max_iterations (batch e)) →
  iter_num v = 0 → lr (optimizer v) = base_lr a →
  ∃ t v',
    foldM_break (epoch_of batch a p db bs max_epoch) (range max_epoch) v
      = (t, Return v') ∧
    trace_ok (base_lr a) max_iterations (Z.max 0 max_epoch * len) t ∧
    saved_paths t = range max_epoch ≫= saves p max_epoch.
Proof.
  intros len max_iterations Hb Hit Hlr.
  destruct (foldM_break_inv
    (λ j tr v, trace_ok (base_lr a) max_iterations (Z.of_nat j * len) tr ∧
               iter_num v = Z.of_nat j * len ∧ lr (optimizer v) = base_lr a ∧
               saved_paths tr = range (Z.of_nat j) ≫= saves p max_epoch)
    (epoch_of batch a p db bs max_epoch) (range max_epoch) v [])
    as (t & v' & Hf & Hok & _ & _ & Hs).
  - split; [apply trace_ok_nil|]. split; [by rewrite Hit|]. done.
  - intros j tr w e Hj (Hokj & Hitj & Hlrj & Hsj).
    apply range_lookup in Hj as [-> Hj].
    destruct (epoch_of_runs batch a p db bs max_epoch w (Z.of_nat j) tr)
      as (t & w' & Hw & Hok' & Hit' & Hlr' & Hs'); try done.
    { lia. }
    exists t, w', (bool_decide (Z.of_nat j >= max_epoch - 1)).
    split; [done|]. split.
    + replace (Z.of_nat (S j)) with (Z.of_nat j + 1) by lia.
      do 3 (split; [done|]).
      rewrite range_succ by lia. rewrite bind_app.
      unfold saved_paths in *. rewrite omap_app, Hsj, Hs'. simpl.
      by rewrite app_nil_r.
    + intros Hstop%bool_decide_eq_true. rewrite range_length. lia.
  - exists t, v'. split; [done|]. rewrite range_length in Hok, Hs.
    rewrite range_of_to_nat in Hs. split; [|done].
    by replace (Z.max 0 max_epoch) with (Z.of_nat (Z.to_nat max_epoch)) by lia.
Qed.

Lemma synapse_epoch_eq h a p db bs max_epoch max_iterations :
  synapse_epoch h a p db bs max_epoch max_iterations
  = epoch_of (synapse_batch h a (len_trainloader db bs) max_iterations)
      a p db bs max_epoch.
Proof. reflexivity. Qed.

Lemma assd_epoch_eq h a p db bs max_epoch max_iterations :
  assd_epoch h a p db bs max_epoch max_iterations
  = epoch_of (λ _, assd_batch h a max_iterations) a p db bs max_epoch.
Proof. reflexivity. Qed.

Lemma trace_ok_quiet_l base_lr max_iterations k tr t :
  Forall quiet t → trace_ok base_lr max_iterations k tr →
  trace_ok base_lr max_iterations k (t ++ tr).
Proof.
  intros Hq (Hlr & Hopt & Hits & A & B & C & D & E & F).
  destruct (quiet_obs t Hq) as (Q1 & Q2 & Q3 & Q4).
  unfold trace_ok, loss_weighting, scalars, iterations, backward_losses,
    optimizer_lrs in *.
  rewrite !omap_app, !Q1, Q2, Q3, Q4, !app_nil_l. done.
Qed.

Lemma saved_paths_around q1 t q2 :
  saved_paths q1 = [] → saved_paths q2 = [] →
  saved_paths (q1 ++ t ++ q2) = saved_paths t.
Proof.
  unfold saved_paths. intros H1 H2. rewrite !omap_app, H1, H2. simpl.
  by rewrite app_nil_r.
Qed.

Lemma trainer_assd_runs h a m p :
  let db := ASSD_dataset (root_path a) (list_dir a) (img_size a) in
  let len := len_trainloader db (batch_size a * n_gpu a) in
  cuda_is_available h = true →
  ∃ t, trainer_assd h a m p = (t, Return "Training Finished!") ∧
    trace_ok (base_lr a) (max_epochs a * len) (Z.max 0 (max_epochs a) * len) t ∧
    saved_paths t = range (max_epochs a) ≫= saves p (max_epochs a).
Proof.
  intros db len Hcuda. unfold trainer_assd. rewrite assd_epoch_eq.
  set (v0 := TrainVars _ _ _ _).
  destruct (epochs_loop (λ _, assd_batch h a (max_epochs a * len)) a p db
              (batch_size a * n_gpu a) (max_epochs a) v0)
    as (t & v' & Hf & Hok & Hs); [intros; by apply assd_batch_spec|done..|].
  fold db len. cbn [mbind M_bind bind do ret app]. rewrite Hf.
  eexists. split; [reflexivity|]. split.
  - apply (trace_ok_quiet_l _ _ _ _ [_; _; _]); [repeat constructor|].
    apply trace_ok_quiet; [repeat constructor|done].
  - etrans; [apply (saved_paths_around [_; _; _] t [_]); reflexivity|exact Hs].
Qed.

Lemma trainer_synapse_runs h a m p :
  let db := Synapse_dataset (root_path a) (list_dir a) (img_size a) in
  let len := len_trainloader db (batch_size a * n_gpu a) in
  cuda_is_available h = true →
  ∃ t, trainer_synapse h a m p = (t, Return "Training Finished!") ∧
    trace_ok (base_lr a) (max_epochs a * len) (Z.max 0 (max_epochs a) * len) t ∧
    saved_paths t = range (max_epochs a) ≫= saves p (max_epochs a).
Proof.
  intros db len Hcuda. unfold trainer_synapse. rewrite synapse_epoch_eq.
  set (v0 := TrainVars _ _ _ _).
  destruct (epochs_loop (synapse_batch h a len (max_epochs a * len)) a p db
              (batch_size a * n_gpu a) (max_epochs a) v0)
    as (t & v' & Hf & Hok & Hs); [intros; by apply synapse_batch_spec|done..|].
  fold db len. unfold device_check, profile_cuda. rewrite Hcuda.
  cbn [mbind M_bind bind do ret app read_local]. rewrite Hf.
  eexists. split; [reflexivity|]. split.
  - apply (trace_ok_quiet_l _ _ _ _ [_; _; _; _]); [repeat constructor|].
    apply trace_ok_quiet; [repeat constructor|done].
  - etrans; [apply (saved_paths_around [_; _; _; _] t [_; _]); reflexivity
            |exact Hs].
Qed.

Lemma trainer_synapse_no_device a m p :
  trainer_synapse (Host false false) a m p
  = ([logging_info (log_args a);
      print (print_train_set_length
               (len_dataset (Synapse_dataset (root_path a) (list_dir a) (img_size a))));
      print (print_str
        "Neither CUDA nor XPU devices are available to demonstrate profiling on acceleration devices")],
     Raise (UnboundLocalError "device")).
Proof. reflexivity. Qed.

Lemma quiet_loss_weighting t : Forall quiet t → loss_weighting t.
Proof.
  intros Hq. destruct (quiet_obs t Hq) as (Q1 & Q2 & Q3 & Q4).
  unfold loss_weighting. rewrite !Q1, Q3, Q4. repeat split; constructor.
Qed.

Lemma bind_quiet {A B} (m : M A) (f : A → M B) :
  Forall quiet m.1 → (∀ a, Forall quiet (f a).1) → Forall quiet (m ≫= f).1.
Proof.
  intros Hm Hf. unfold mbind, M_bind, bind. destruct m as [t [a|e]]; [|done].
  specialize (Hf a). destruct (f a) as [t' r]. cbn in *. by apply Forall_app.
Qed.

Lemma foldM_quiet {A B} (body : B → A → M B) (l : list A) (b : B) :
  (∀ b a, Forall quiet (body b a).1) → Forall quiet (foldM body l b).1.
Proof.
  intros Hb. revert b. induction l as [|a l IH]; intros b; cbn [foldM].
  - constructor.
  - apply bind_quiet; [apply Hb|]. intros b'. apply IH.
Qed.

Lemma foldM_break_quiet {A B} (body : B → A → M (B * bool)) (l : list A) (b : B) :
  (∀ b a, Forall quiet (body b a).1) → Forall quiet (foldM_break body l b).1.
Proof.
  intros Hb. revert b. induction l as [|a l IH]; intros b; cbn [foldM_break].
  - constructor.
  - apply bind_quiet; [apply Hb|]. intros [b' []]; [constructor|apply IH].
Qed.

Lemma epoch_of_quiet batch a p db bs max_epoch v e :
  (∀ e v ib, Forall quiet (batch e v ib).1) →
  Forall quiet (epoch_of batch a p db bs max_epoch v e).1.
Proof.
  intros Hb. unfold epoch_of.
  apply bind_quiet; [by apply foldM_quiet|]. intros v'.
  repeat case_decide; repeat constructor.
Qed.

(** Without CUDA the first batch already fails, at [.cuda()]. *)
Lemma synapse_batch_no_cuda h a len max_iterations epoch_num v ib :
  cuda_is_available h = false →
  synapse_batch h a len max_iterations epoch_num v ib = ([], Raise CudaUnavailable).
Proof.
  intros Hc. destruct ib as [i [image label]].
  unfold synapse_batch, to_cuda. by rewrite Hc.
Qed.

Lemma assd_batch_no_cuda h a max_iterations v ib :
  cuda_is_available h = false →
  assd_batch h a max_iterations v ib = ([], Raise CudaUnavailable).
Proof.
  intros Hc. destruct ib as [i [image label]].
  unfold assd_batch, to_cuda. by rewrite Hc.
Qed.

Lemma trainer_synapse_no_cuda h a m p :
  cuda_is_available h = false → Forall quiet (trainer_synapse h a m p).1.
Proof.
  intros Hc. unfold trainer_synapse.
  do 2 (apply bind_quiet; [repeat constructor|intros _]).
  apply bind_quiet.
  { unfold device_check. repeat case_match; repeat constructor. }
  intros device. apply bind_quiet; [destruct device; constructor|]. intros d.
  apply bind_quiet; [repeat constructor|intros _].
  apply bind_quiet; [unfold profile_cuda; case_match; constructor|intros _].
  apply bind_quiet; [repeat constructor|intros _].
  apply bind_quiet; [|intros; repeat constructor].
  apply foldM_break_quiet. intros v e. rewrite synapse_epoch_eq.
  apply epoch_of_quiet. intros e' v' ib.
  rewrite synapse_batch_no_cuda by done. constructor.
Qed.

Lemma trainer_assd_no_cuda h a m p :
  cuda_is_available h = false → Forall quiet (trainer_assd h a m p).1.
Proof.
  intros Hc. unfold trainer_assd.
  do 3 (apply bind_quiet; [repeat constructor|intros _]).
  apply bind_quiet; [|intros; repeat constructor].
  apply foldM_break_quiet. intros v e. rewrite assd_epoch_eq.
  apply epoch_of_quiet. intros e' v' ib.
  rewrite assd_batch_no_cuda by done. constructor.
Qed.

Lemma trainer_synapse_loss_weighting h a m p :
  loss_weighting (trainer_synapse h a m p).1.
Proof.
  destruct (cuda_is_available h) eqn:Hc.
  - destruct (trainer_synapse_runs h a m p Hc) as (t & -> & Hok & _). apply Hok.
  - by apply quiet_loss_weighting, trainer_synapse_no_cuda.
Qed.

Lemma trainer_assd_loss_weighting h a m p :
  loss_weighting (trainer_assd h a m p).1.
Proof.
  destruct (cuda_is_available h) eqn:Hc.
  - destruct (trainer_assd_runs h a m p Hc) as (t & -> & Hok & _). apply Hok.
  - by apply quiet_loss_weighting, trainer_assd_no_cuda.
Qed.

Lemma synapse_batch_exact h a len max_iterations epoch_num :
  cuda_is_available h = true →
  batch_exact (synapse_losses a) (base_lr a) max_iterations
    (synapse_batch h a len max_iterations epoch_num).
Proof.
  intros Hcuda v i [image label] Hit.
  unfold synapse_batch, backprop_and_step, to_cuda. rewrite Hcuda, !ret_bind.
  unfold state_of, train_step, total_loss, synapse_losses. cbn [fst snd].
  set (loss_ce := CrossEntropyLoss _ _). set (loss_dice := DiceLoss _ _ _ _).
  destruct (optim_step _ _ _ _ _) as [m os] eqn:Hos.
  exists (if decide (i `mod` 10 = 0)
          then [print (print_mini_batch epoch_num i len
                  (item (tadd (rmul 0.4 loss_ce) (rmul 0.6 loss_dice))))]
          else []).
  eexists. split; [|split; [|split; [|split; [|split]]]].
  - cbn [mbind M_bind bind do ret app iter_num].
    rewrite poly_lr_Return by done.
    case_decide; reflexivity.
  - unfold only_prints. case_decide; eauto.
  - cbn. lia.
  - reflexivity.
  - reflexivity.
  - reflexivity.
Qed.

Lemma assd_batch_exact h a max_iterations :
  cuda_is_available h = true →
  batch_exact (assd_losses a) (base_lr a) max_iterations
    (assd_batch h a max_iterations).
Proof.
  intros Hcuda v i [image label] Hit.
  unfold assd_batch, backprop_and_step, to_cuda. rewrite Hcuda, !ret_bind.
  unfold state_of, train_step, total_loss, assd_losses. cbn [fst snd].
  set (loss_ce := CrossEntropyLoss _ _). set (loss_dice := DiceLoss _ _ _ _).
  destruct (optim_step _ _ _ _ _) as [m os] eqn:Hos.
  exists []. eexists. split; [|split; [|split; [|split; [|split]]]].
  - cbn [mbind M_bind bind do ret app iter_num].
    rewrite poly_lr_Return by done. reflexivity.
  - by left.
  - cbn. lia.
  - reflexivity.
  - reflexivity.
  - reflexivity.
Qed.

Lemma iteration_losses base_lr max_iterations it loss_ce loss_dice lr_used pr :
  only_prints pr →
  backward_losses
    (iteration_calls base_lr max_iterations it loss_ce loss_dice lr_used pr)
  = [total_loss (loss_ce, loss_dice)] ∧
  iterations
    (iteration_calls base_lr max_iterations it loss_ce loss_dice lr_used pr)
  = logged it [(loss_ce, loss_dice)].
Proof.
  intros [-> | [l ->]]; split; cbn; rewrite ?Z.add_0_r; reflexivity.
Qed.

Lemma backward_losses_app t1 t2 :
  backward_losses (t1 ++ t2) = backward_losses t1 ++ backward_losses t2.
Proof. apply omap_app. Qed.

Lemma iterations_app t1 t2 : iterations (t1 ++ t2) = iterations t1 ++ iterations t2.
Proof. apply omap_app. Qed.

Lemma losses_seen_app losses k lr_used st l1 l2 :
  losses_seen losses k lr_used st (l1 ++ l2)
  = losses_seen losses k lr_used st l1
    ++ losses_seen losses k lr_used (foldl (train_step losses k lr_used) st l1) l2.
Proof.
  revert st. induction l1 as [|b l1 IH]; intros st; [done|].
  cbn [app losses_seen foldl]. by rewrite IH.
Qed.

Lemma losses_seen_length losses k lr_used st l :
  length (losses_seen losses k lr_used st l) = length l.
Proof.
  revert st. induction l as [|b l IH]; intros st; [done|].
  cbn [losses_seen length]. by rewrite IH.
Qed.

Lemma logged_app k l1 l2 :
  logged k (l1 ++ l2) = logged k l1 ++ logged (k + Z.of_nat (length l1)) l2.
Proof.
  unfold logged. rewrite imap_app. f_equal.
  apply imap_ext. intros j l _. cbn. do 3 f_equal. lia.
Qed.

Lemma logged_cons k l ls : logged k (l :: ls) = logged k [l] ++ logged (k + 1) ls.
Proof. apply (logged_app k [l] ls). Qed.

(** The batch loop of one epoch. *)
Lemma batch_loop_exact losses base_lr max_iterations batch
    (l : list (Z * (Tensor * Tensor))) v :
  batch_exact losses base_lr max_iterations batch →
  0 <= iter_num v → iter_num v + Z.of_nat (length l) <= max_iterations →
  ∃ t v', foldM batch l v = (t, Return v') ∧
    iter_num v' = iter_num v + Z.of_nat (length l) ∧
    kind (optimizer v') = kind (optimizer v) ∧
    lr (optimizer v') = lr (optimizer v) ∧
    state_of v'
      = foldl (train_step losses (kind (optimizer v)) (lr (optimizer v)))
          (state_of v) (l.*2) ∧
    backward_losses t
      = total_loss <$> losses_seen losses (kind (optimizer v)) (lr (optimizer v))
                         (state_of v) (l.*2) ∧
    iterations t
      = logged (iter_num v)
          (losses_seen losses (kind (optimizer v)) (lr (optimizer v))
             (state_of v) (l.*2)).
Proof.
  intros Hb. revert v. induction l as [|[i b] l IH]; intros v Hk Hmax.
  - exists [], v. cbn. rewrite Z.add_0_r. done.
  - cbn [length] in Hmax.
    destruct (Hb v i b) as (pr & v1 & Hv1 & Hpr & Hit1 & Hk1 & Hlr1 & Hst1); [lia|].
    destruct (IH v1) as (t & v' & Hf & Hit' & Hk' & Hlr' & Hst' & Hbl & Hil); [lia..|].
    destruct (iteration_losses base_lr max_iterations (iter_num v)
                (losses (model v) b).1 (losses (model v) b).2 (lr (optimizer v)) pr Hpr)
      as [Hb1 Hi1].
    eexists _, v'. split.
    { cbn [foldM]. rewrite (bind_Return _ _ _ _ Hv1), Hf. reflexivity. }
    rewrite Hk1, Hlr1, Hst1 in *.
    split; [cbn [length]; lia|]. split; [done|]. split; [done|].
    split; [done|].
    cbn [fmap list_fmap losses_seen snd]. fold (@fmap list _).
    split.
    + cbn [fst]. rewrite backward_losses_app, Hb1, Hbl.
      rewrite <- surjective_pairing. reflexivity.
    + cbn [fst]. rewrite iterations_app, Hi1, Hil, Hit1.
      rewrite <- surjective_pairing. symmetry. apply logged_cons.
Qed.

Lemma enumerate_snd {A} (l : list A) : (enumerate l).*2 = l.
Proof.
  unfold enumerate. apply list_eq. intros j.
  rewrite list_lookup_fmap, list_lookup_imap. by destruct (l !! j).
Qed.

Lemma quiet_losses t : Forall quiet t → backward_losses t = [] ∧ iterations t = [].
Proof. intros Hq. destruct (quiet_obs t Hq) as (_ & _ & ? & ?). done. Qed.

Lemma losses_around q1 t q2 :
  Forall quiet q1 → Forall quiet q2 →
  backward_losses (q1 ++ t ++ q2) = backward_losses t ∧
  iterations (q1 ++ t ++ q2) = iterations t.
Proof.
  intros [B1 I1]%quiet_losses [B2 I2]%quiet_losses.
  rewrite !backward_losses_app, !iterations_app, B1, B2, I1, I2.
  by rewrite !app_nil_r.
Qed.

(** One epoch: the batch loop, then the checkpoints. *)
Lemma epoch_of_exact losses batch a p db bs max_epoch v e :
  let len := len_trainloader db bs in
  batch_exact losses (base_lr a) (max_epoch * len) (batch e) →
  0 <= e < max_epoch → iter_num v = e * len →
  ∃ t v',
    epoch_of batch a p db bs max_epoch v e
      = (t, Return (v', bool_decide (e >= max_epoch - 1))) ∧
    iter_num v' = (e + 1) * len ∧
    kind (optimizer v') = kind (optimizer v) ∧
    lr (optimizer v') = lr (optimizer v) ∧
    state_of v'
      = foldl (train_step losses (kind (optimizer v)) (lr (optimizer v)))
          (state_of v) (batches db bs (seed a) e) ∧
    backward_losses t
      = total_loss <$> losses_seen losses (kind (optimizer v)) (lr (optimizer v))
                         (state_of v) (batches db bs (seed a) e) ∧
    iterations t
      = logged (e * len)
          (losses_seen losses (kind (optimizer v)) (lr (optimizer v))
             (state_of v) (batches db bs (seed a) e)).
Proof.
  intros len Hb He Hit.
  pose proof (length_batches db bs (seed a) e) as Hlen. fold len in Hlen.
  destruct (batch_loop_exact losses (base_lr a) (max_epoch * len) (batch e)
              (enumerate (batches db bs (seed a) e)) v)
    as (t & v' & Hf & Hit' & Hk' & Hlr' & Hst' & Hbl & Hil); try done.
  { lia. }
  { rewrite enumerate_length, Hlen. nia. }
  rewrite enumerate_length, Hlen in Hit'. rewrite enumerate_snd in Hst', Hbl, Hil.
  rewrite Hit in Hil.
  unfold epoch_of. rewrite (bind_Return _ _ _ _ Hf).
  destruct (decide (e > 80)), (decide (e >= max_epoch - 1));
    [rewrite bool_decide_true by done | rewrite bool_decide_false by done
    |rewrite bool_decide_true by done | rewrite bool_decide_false by done];
    cbn [mbind M_bind bind do ret app fst snd];
    eexists _, v'; (split; [reflexivity|]); (split; [lia|]);
    do 3 (split; [done|]);
    rewrite backward_losses_app, iterations_app, Hbl, Hil; cbn;
    by rewrite !app_nil_r.
Qed.

Lemma all_batches_length db bs sd (j : nat) :
  Z.of_nat (length (range (Z.of_nat j) ≫= λ e, batches db bs sd e))
  = Z.of_nat j * len_trainloader db bs.
Proof.
  induction j as [|j IH]; [done|].
  replace (Z.of_nat (S j)) with (Z.of_nat j + 1) by lia.
  rewrite range_succ by lia. rewrite bind_app, length_app, Nat2Z.inj_add, IH.
  cbn [mbind list_bind]. rewrite app_nil_r, length_batches. lia.
Qed.

(** The loop over the epochs, with its [break]. *)
Lemma epochs_loop_exact losses batch a p db bs max_epoch v :
  let len := len_trainloader db bs in
  (∀ e, batch_exact losses (base_lr a) (max_epoch * len) (batch e)) →
  iter_num v = 0 →
  ∃ t v',
    foldM_break (epoch_of batch a p db bs max_epoch) (range max_epoch) v
      = (t, Return v') ∧
    backward_losses t
      = total_loss <$> losses_seen losses (kind (optimizer v)) (lr (optimizer v))
                         (state_of v)
                         (range max_epoch ≫= λ e, batches db bs (seed a) e) ∧
    iterations t
      = logged 0
          (losses_seen losses (kind (optimizer v)) (lr (optimizer v)) (state_of v)
             (range max_epoch ≫= λ e, batches db bs (seed a) e)).
Proof.
  intros len Hb Hit.
  set (k := kind (optimizer v)). set (r := lr (optimizer v)).
  set (B := λ j : nat, range (Z.of_nat j) ≫= λ e, batches db bs (seed a) e).
  destruct (foldM_break_inv
    (λ j tr w, iter_num w = Z.of_nat j * len ∧
               kind (optimizer w) = k ∧ lr (optimizer w) = r ∧
               state_of w = foldl (train_step losses k r) (state_of v) (B j) ∧
               backward_losses tr
                 = total_loss <$> losses_seen losses k r (state_of v) (B j) ∧
               iterations tr = logged 0 (losses_seen losses k r (state_of v) (B j)))
    (epoch_of batch a p db bs max_epoch) (range max_epoch) v [])
    as (t & v' & Hf & _ & _ & _ & _ & Hbl & Hil).
  - split; [lia|]. done.
  - intros j tr w e Hj (Hitj & Hkj & Hlrj & Hstj & Hblj & Hilj).
    apply range_lookup in Hj as [-> Hj].
    destruct (epoch_of_exact losses batch a p db bs max_epoch w (Z.of_nat j))
      as (t & w' & Hw & Hit' & Hk' & Hlr' & Hst' & Hbl' & Hil'); try done.
    { lia. }
    rewrite Hkj, Hlrj, Hstj in *. fold len in Hit', Hil'.
    exists t, w', (bool_decide (Z.of_nat j >= max_epoch - 1)).
    split; [done|]. split.
    + assert (B (S j) = B j ++ batches db bs (seed a) (Z.of_nat j)) as ->.
      { unfold B. replace (Z.of_nat (S j)) with (Z.of_nat j + 1) by lia.
        rewrite range_succ by lia. rewrite bind_app.
        cbn [mbind list_bind]. by rewrite app_nil_r. }
      split; [lia|]. do 2 (split; [done|]).
      split; [by rewrite foldl_app|].
      rewrite backward_losses_app, iterations_app, Hblj, Hilj, Hbl', Hil'.
      rewrite losses_seen_app, fmap_app, logged_app.
      assert (Z.of_nat (length (B j)) = Z.of_nat j * len) as HlenB
        by apply all_batches_length.
      rewrite losses_seen_length, HlenB, Z.add_0_l. done.
    + intros Hstop%bool_decide_eq_true. rewrite range_length. lia.
  - exists t, v'. split; [done|]. rewrite range_length in Hbl, Hil.
    unfold B in Hbl, Hil. rewrite range_of_to_nat in Hbl, Hil. done.
Qed.

(** The losses of a run of [trainer_synapse] on a host with CUDA. *)
Lemma trainer_synapse_losses h a m p :
  let model := if decide (n_gpu a > 1) then DataParallel m else m in
  let seen :=
    losses_seen (synapse_losses a) (SGD 0.9 0.0001) (base_lr a)
      (model, optim_init (SGD 0.9 0.0001) model)
      (range (max_epochs a) ≫= λ e,
         batches (Synapse_dataset (root_path a) (list_dir a) (img_size a))
           (batch_size a * n_gpu a) (seed a) e) in
  cuda_is_available h = true →
  backward_losses (trainer_synapse h a m p).1 = total_loss <$> seen ∧
  iterations (trainer_synapse h a m p).1 = logged 0 seen.
Proof.
  intros model0 seen Hcuda. unfold trainer_synapse. rewrite synapse_epoch_eq.
  set (v0 := TrainVars _ _ _ _).
  set (db := Synapse_dataset _ _ _).
  set (len := len_trainloader db (batch_size a * n_gpu a)).
  destruct (epochs_loop_exact (synapse_losses a)
              (synapse_batch h a len (max_epochs a * len)) a p db
              (batch_size a * n_gpu a) (max_epochs a) v0)
    as (t & v' & Hf & Hbl & Hil); [intros; by apply synapse_batch_exact|done|].
  unfold device_check, profile_cuda. rewrite Hcuda.
  cbn [mbind M_bind bind do ret app read_local]. rewrite Hf. cbn [fst].
  split.
  - etrans; [apply (losses_around [_; _; _; _] t [_; _]); repeat constructor|].
    exact Hbl.
  - etrans; [apply (losses_around [_; _; _; _] t [_; _]); repeat constructor|].
    exact Hil.
Qed.

(** The losses of a run of [trainer_assd] on a host with CUDA. *)
Lemma trainer_assd_losses h a m p :
  let model := if decide (n_gpu a > 1) then DataParallel m else m in
  let seen :=
    losses_seen (assd_losses a) (AdamW 0.0005) (base_lr a)
      (model, optim_init (AdamW 0.0005) model)
      (range (max_epochs a) ≫= λ e,
         batches (ASSD_dataset (root_path a) (list_dir a) (img_size a))
           (batch_size a * n_gpu a) (seed a) e) in
  cuda_is_available h = true →
  backward_losses (trainer_assd h a m p).1 = total_loss <$> seen ∧
  iterations (trainer_assd h a m p).1 = logged 0 seen.
Proof.
  intros model0 seen Hcuda. unfold trainer_assd. rewrite assd_epoch_eq.
  set (v0 := TrainVars _ _ _ _).
  set (db := ASSD_dataset _ _ _).
  set (len := len_trainloader db (batch_size a * n_gpu a)).
  destruct (epochs_loop_exact (assd_losses a)
              (λ _, assd_batch h a (max_epochs a * len)) a p db
              (batch_size a * n_gpu a) (max_epochs a) v0)
    as (t & v' & Hf & Hbl & Hil); [intros; by apply assd_batch_exact|done|].
  cbn [mbind M_bind bind do ret app]. rewrite Hf. cbn [fst].
  split.
  - etrans; [apply (losses_around [_; _; _] t [_]); repeat constructor|].
    exact Hbl.
  - etrans; [apply (losses_around [_; _; _] t [_]); repeat constructor|].
    exact Hil.
Qed.

(** C1: in both trainers, for every batch the loop processes, the loss that
    is backpropagated and the loss that is logged (the 'info/total_loss'
    scalar and the log line) equal 0.4 times the cross-entropy loss plus 0.6
    times the Dice loss of that iteration. On a host with CUDA the tensors
    [backward()] is called on are, batch after batch through all the
    epochs, 0.4 times [CrossEntropyLoss] plus 0.6 times [DiceLoss] of the
    outputs of the model on that batch, the model being the one the
    optimizer steps on the batches before have left; the log lines carry
    the values of that loss and of its two parts, numbered from 0. *)
Theorem total_loss_is_weighted_sum h a m p :
  let bs := batch_size a * n_gpu a in
  let db_synapse := Synapse_dataset (root_path a) (list_dir a) (img_size a) in
  let db_assd := ASSD_dataset (root_path a) (list_dir a) (img_size a) in
  let model := if decide (n_gpu a > 1) then DataParallel m else m in
  let synapse_seen :=
    losses_seen (synapse_losses a) (SGD 0.9 0.0001) (base_lr a)
      (model, optim_init (SGD 0.9 0.0001) model)
      (range (max_epochs a) ≫= λ e, batches db_synapse bs (seed a) e) in
  let assd_seen :=
    losses_seen (assd_losses a) (AdamW 0.0005) (base_lr a)
      (model, optim_init (AdamW 0.0005) model)
      (range (max_epochs a) ≫= λ e, batches db_assd bs (seed a) e) in
  loss_weighting (trainer_synapse h a m p).1 ∧
  loss_weighting (trainer_assd h a m p).1 ∧
  (cuda_is_available h = true →
   backward_losses (trainer_synapse h a m p).1
     = (λ l, tadd (rmul 0.4 l.1) (rmul 0.6 l.2)) <$> synapse_seen ∧
   iterations (trainer_synapse h a m p).1
     = imap (λ k l, (Z.of_nat k, (0.4 * item l.1 + 0.6 * item l.2)%R,
                     item l.2, item l.1)) synapse_seen ∧
   backward_losses (trainer_assd h a m p).1
     = (λ l, tadd (rmul 0.4 l.1) (rmul 0.6 l.2)) <$> assd_seen ∧
   iterations (trainer_assd h a m p).1
     = imap (λ k l, (Z.of_nat k, (0.4 * item l.1 + 0.6 * item l.2)%R,
                     item l.2, item l.1)) assd_seen ∧
   (λ '(i, _, _, _), i) <$> iterations (trainer_synapse h a m p).1
     = range (Z.max 0 (max_epochs a) * len_trainloader db_synapse bs) ∧
   (λ '(i, _, _, _), i) <$> iterations (trainer_assd h a m p).1
     = range (Z.max 0 (max_epochs a) * len_trainloader db_assd bs)).
Proof.
  intros bs dbs dba model0 ss sa. split; [apply trainer_synapse_loss_weighting|].
  split; [apply trainer_assd_loss_weighting|].
  intros Hc.
  destruct (trainer_synapse_losses h a m p Hc) as [Hbs His].
  destruct (trainer_assd_losses h a m p Hc) as [Hba Hia].
  split; [exact Hbs|]. split; [exact His|].
  split; [exact Hba|]. split; [exact Hia|].
  destruct (trainer_synapse_runs h a m p Hc) as (ts & -> & Hoks & _).
  destruct (trainer_assd_runs h a m p Hc) as (ta & -> & Hoka & _).
  split; [apply Hoks|apply Hoka].
Qed.

Lemma files_written_spec t p n e :
  saved_paths t = range n ≫= saves p n →
  checkpoint p e ∈ files_written t ↔ 0 <= e < n ∧ (80 < e ∨ e = n - 1).
Proof.
  intros Hs. unfold files_written. rewrite Hs, elem_of_list_to_set, list_elem_of_bind.
  split.
  - intros (y & Hy & Hr%elem_of_range). unfold saves in Hy.
    apply elem_of_app in Hy as [Hy|Hy]; case_decide; try by apply elem_of_nil in Hy.
    + apply list_elem_of_singleton, checkpoint_inj in Hy as ->. lia.
    + apply list_elem_of_singleton, checkpoint_inj in Hy as ->. lia.
  - intros [He Hc]. exists e. split; [|by apply elem_of_range].
    unfold saves. apply elem_of_app. destruct Hc as [Hc| ->].
    + left. rewrite decide_True by lia. by apply list_elem_of_singleton.
    + right. rewrite decide_True by lia. by apply list_elem_of_singleton.
Qed.

Lemma saves_ninety p :
  range 90 ≫= saves p 90
  = (checkpoint p <$> [81; 82; 83; 84; 85; 86; 87; 88; 89]) ++ [checkpoint p 89].
Proof. unfold saves. generalize (checkpoint p). intros f. reflexivity. Qed.

Lemma files_written_ninety t p :
  saved_paths t = range 90 ≫= saves p 90 →
  files_written t = list_to_set (checkpoint p <$> [81; 82; 83; 84; 85; 86; 87; 88; 89]) ∧
  size (files_written t) = 9%nat.
Proof.
  intros Hs. unfold files_written. rewrite Hs, saves_ninety.
  assert (Heq : (list_to_set ((checkpoint p <$> [81; 82; 83; 84; 85; 86; 87; 88; 89])
                    ++ [checkpoint p 89]) : gset string)
                = list_to_set (checkpoint p <$> [81; 82; 83; 84; 85; 86; 87; 88; 89])).
  { rewrite list_to_set_app_L.
    assert (checkpoint p 89 ∈ (list_to_set
      (checkpoint p <$> [81; 82; 83; 84; 85; 86; 87; 88; 89]) : gset string)).
    { apply elem_of_list_to_set, list_elem_of_fmap. exists 89. split; [done|].
      rewrite !elem_of_cons. tauto. }
    rewrite union_comm_L. apply subseteq_union_1_L. cbn [list_to_set].
    rewrite union_empty_r_L. by apply singleton_subseteq_l. }
  rewrite Heq. split; [done|].
  rewrite size_list_to_set.
  - by rewrite length_fmap.
  - apply NoDup_fmap_2; [apply checkpoint_inj|].
    apply (bool_decide_unpack _). by vm_compute.
Qed.

(** C3: in a run of either trainer on a host with CUDA, the file of epoch e
    is written exactly when e is an epoch of the run (0 <= e < max_epochs)
    and e exceeds 80 or e is the last epoch max_epochs - 1; with
    max_epochs = 90 the files written are those of the epochs 81 to 89, nine
    files, and none of an earlier epoch. *)
Theorem checkpoint_policy h a m p :
  cuda_is_available h = true →
  let written_synapse := files_written (trainer_synapse h a m p).1 in
  let written_assd := files_written (trainer_assd h a m p).1 in
  (∀ e, checkpoint p e ∈ written_synapse
        ↔ 0 <= e < max_epochs a ∧ (80 < e ∨ e = max_epochs a - 1)) ∧
  (∀ e, checkpoint p e ∈ written_assd
        ↔ 0 <= e < max_epochs a ∧ (80 < e ∨ e = max_epochs a - 1)) ∧
  (max_epochs a = 90 →
   written_synapse
     = list_to_set (checkpoint p <$> [81; 82; 83; 84; 85; 86; 87; 88; 89]) ∧
   size written_synapse = 9%nat ∧
   written_assd
     = list_to_set (checkpoint p <$> [81; 82; 83; 84; 85; 86; 87; 88; 89]) ∧
   size written_assd = 9%nat).
Proof.
  intros Hc.
  destruct (trainer_synapse_runs h a m p Hc) as (ts & -> & _ & Hs).
  destruct (trainer_assd_runs h a m p Hc) as (ta & -> & _ & Ha).
  cbn [fst]. split; [|split].
  - intros e. by apply files_written_spec.
  - intros e. by apply files_written_spec.
  - intros H90. rewrite H90 in Hs, Ha.
    destruct (files_written_ninety ts p Hs) as [? ?].
    destruct (files_written_ninety ta p Ha) as [? ?]. done.
Qed.

(** C9: with neither CUDA nor XPU available the device check prints its
    diagnostic and returns normally, leaving [device] unbound; the run goes
    on to the next statement, [print(device)], the first to read the
    variable, which raises. *)
Theorem device_check_without_accelerator a m p :
  device_check (Host false false)
  = ([print (print_str no_device_message)], Return None) ∧
  printed (trainer_synapse (Host false false) a m p).1
  = [print_train_set_length
       (len_dataset (Synapse_dataset (root_path a) (list_dir a) (img_size a)));
     print_str no_device_message] ∧
  (trainer_synapse (Host false false) a m p).2 = Raise (UnboundLocalError "device").
Proof. by rewrite trainer_synapse_no_device. Qed.

(** C10: on a host with CUDA, [trainer_synapse] and [trainer_assd] end the
    same way; both call [backward()], batch after batch, on 0.4 times
    [CrossEntropyLoss] plus 0.6 times [DiceLoss] of the outputs of the model
    on that batch (each on the batches of its own dataset, with its own
    input preprocessing and its own optimizer) and log that weighting; both
    write base_lr * (1 - iter_num / max_iterations) ^ 0.9 as the learning
    rate of every iteration (the same values when the two loaders have the
    same number of batches); and both write the same checkpoint files
    'epoch_<n>.pth' in the same order: that of every epoch above 80, and
    that of the last epoch. *)
Theorem trainers_agree h a m p :
  let bs := batch_size a * n_gpu a in
  let db_synapse := Synapse_dataset (root_path a) (list_dir a) (img_size a) in
  let db_assd := ASSD_dataset (root_path a) (list_dir a) (img_size a) in
  let len_synapse := len_trainloader db_synapse bs in
  let len_assd := len_trainloader db_assd bs in
  let model := if decide (n_gpu a > 1) then DataParallel m else m in
  let synapse_seen :=
    losses_seen (synapse_losses a) (SGD 0.9 0.0001) (base_lr a)
      (model, optim_init (SGD 0.9 0.0001) model)
      (range (max_epochs a) ≫= λ e, batches db_synapse bs (seed a) e) in
  let assd_seen :=
    losses_seen (assd_losses a) (AdamW 0.0005) (base_lr a)
      (model, optim_init (AdamW 0.0005) model)
      (range (max_epochs a) ≫= λ e, batches db_assd bs (seed a) e) in
  let synapse := trainer_synapse h a m p in
  let assd := trainer_assd h a m p in
  cuda_is_available h = true →
  synapse.2 = assd.2 ∧
  loss_weighting synapse.1 ∧ loss_weighting assd.1 ∧
  backward_losses synapse.1
    = (λ l, tadd (rmul 0.4 l.1) (rmul 0.6 l.2)) <$> synapse_seen ∧
  backward_losses assd.1
    = (λ l, tadd (rmul 0.4 l.1) (rmul 0.6 l.2)) <$> assd_seen ∧
  scalars "info/lr" synapse.1
    = (λ n, (schedule (base_lr a) (max_epochs a * len_synapse) n, n))
      <$> range (Z.max 0 (max_epochs a) * len_synapse) ∧
  scalars "info/lr" assd.1
    = (λ n, (schedule (base_lr a) (max_epochs a * len_assd) n, n))
      <$> range (Z.max 0 (max_epochs a) * len_assd) ∧
  (len_synapse = len_assd → scalars "info/lr" synapse.1 = scalars "info/lr" assd.1) ∧
  saved_paths synapse.1 = saved_paths assd.1 ∧
  saved_paths assd.1 = range (max_epochs a) ≫= saves p (max_epochs a).
Proof.
  intros bs dbs dba ls la model0 ss sa synapse assd Hc. subst synapse assd.
  destruct (trainer_synapse_losses h a m p Hc) as [Hbs _].
  destruct (trainer_assd_losses h a m p Hc) as [Hba _].
  destruct (trainer_synapse_runs h a m p Hc) as (ts & Hts & Hoks & Hs).
  destruct (trainer_assd_runs h a m p Hc) as (ta & Hta & Hoka & Ha).
  rewrite Hts in Hbs. rewrite Hta in Hba. rewrite Hts, Hta.
  fold bs dbs ls in Hoks. fold bs dba la in Hoka. cbn [fst snd] in *.
  destruct Hoks as (Hlrs & _ & _ & Hws). destruct Hoka as (Hlra & _ & _ & Hwa).
  do 3 (split; [done|]). split; [exact Hbs|]. split; [exact Hba|].
  do 2 (split; [done|]). split; [|split; [congruence|done]].
  intros Heq. rewrite Hlrs, Hlra. by rewrite Heq.
Qed.

(** No statement of [trainer_synapse] assigns the learning rate of the
    optimizer: every step uses [base_lr]. *)
Lemma optimizer_lr_never_updated h a m p :
  let len := len_trainloader (Synapse_dataset (root_path a) (list_dir a) (img_size a))
               (batch_size a * n_gpu a) in
  cuda_is_available h = true →
  optimizer_lrs (trainer_synapse h a m p).1
  = replicate (Z.to_nat (Z.max 0 (max_epochs a) * len)) (base_lr a).
Proof.
  intros len Hc.
  destruct (trainer_synapse_runs h a m p Hc) as (ts & -> & Hoks & Hs).
  apply Hoks.
Qed.

End Run.

(** The two iterations of one epoch over the two batches of [toy], whose
    cross-entropy loss is 1 and whose Dice loss is 1/2. *)
Lemma total_loss_is_weighted_sum_witness :
  @backward_losses toy (@trainer_synapse toy (Host true false) one_epoch () "snapshot").1
  = [@tadd toy (@rmul toy 0.4 (LossTensor 1 ())) (@rmul toy 0.6 (LossTensor (1 / 2) ()));
     @tadd toy (@rmul toy 0.4 (LossTensor 1 ())) (@rmul toy 0.6 (LossTensor (1 / 2) ()))].
Proof.
  destruct (@total_loss_is_weighted_sum toy (Host true false) one_epoch () "snapshot")
    as (_ & _ & Hrun).
  destruct Hrun as (Hback & _); [reflexivity|].
  exact Hback.
Defined.

(** The ninety-epoch run on [toy] leaves nine files. *)
Lemma checkpoint_policy_witness :
  size (@files_written toy
          (@trainer_synapse toy (Host true false) ninety_epochs () "snapshot").1)
  = 9%nat.
Proof.
  destruct (@checkpoint_policy toy (Host true false) ninety_epochs () "snapshot")
    as (_ & _ & H90); [reflexivity|].
  destruct (H90 eq_refl) as (_ & Hsize & _). exact Hsize.
Defined.

(** The two trainers write the same files over ninety epochs on [toy]. *)
Lemma trainers_agree_witness :
  @saved_paths toy (@trainer_synapse toy (Host true false) ninety_epochs () "snapshot").1
  = @saved_paths toy (@trainer_assd toy (Host true false) ninety_epochs () "snapshot").1.
Proof.
  destruct (@trainers_agree toy (Host true false) ninety_epochs () "snapshot")
    as (_ & _ & _ & _ & _ & _ & _ & _ & Hsaved & _); [reflexivity|].
  exact Hsaved.
Defined.


End trainer_unet_theory.

(** ** Properties of the decoder blocks and the converse of the shape rule *)

Module unet_stvit_more.

Import unet_stvit unet_stvit_theory unet_stvit_variants.
Local Open Scope Z_scope.

Lemma BatchNorm2d_Some c x y :
  BatchNorm2d c x = Some y ↔
  dimC x = c ∧ dimN x * dimH x * dimW x ≠ 1 ∧ y = x.
Proof.
  unfold BatchNorm2d. case_decide as Hd.
  - split; [intros [= <-]; tauto|]. by intros (_ & _ & ->).
  - split; [done|]. intros (? & ? & _). tauto.
Qed.

Lemma conv_block_Some in_c out_c x y :
  conv_block in_c out_c x = Some y ↔
  dimC x = in_c ∧ dimN x * dimH x * dimW x ≠ 1 ∧
  y = Shape (dimN x) out_c (dimH x) (dimW x).
Proof.
  destruct x as [n c h w]. cbn [dimN dimC dimH dimW]. split.
  - intros Hy. destruct (decide (c = in_c)) as [->|Hne].
    + destruct (decide (n * h * w = 1)) as [Hv|Hv].
      * by rewrite conv_block_single_value in Hy.
      * rewrite conv_block_shape in Hy by done. by injection Hy as <-.
    + unfold conv_block, Conv2d in Hy. cbn [dimC] in Hy.
      by rewrite decide_False in Hy.
  - intros (-> & Hv & ->). by apply conv_block_shape.
Qed.

Lemma cat_axis1_Some x skip y :
  cat_axis1 x skip = Some y ↔
  dimN x = dimN skip ∧ dimH x = dimH skip ∧ dimW x = dimW skip ∧
  y = Shape (dimN x) (dimC x + dimC skip) (dimH x) (dimW x).
Proof.
  unfold cat_axis1. case_decide as Hd.
  - split; [intros [= <-]; tauto|]. by intros (_ & _ & _ & ->).
  - split; [done|]. intros (? & ? & ? & _). tauto.
Qed.

Lemma ConvTranspose2d_Some in_c out_c x y :
  ConvTranspose2d in_c out_c 2 2 0 x = Some y ↔
  dimC x = in_c ∧ y = Shape (dimN x) out_c (2 * dimH x) (2 * dimW x).
Proof.
  destruct x as [n c h w]. cbn [dimN dimC dimH dimW]. split.
  - intros Hy. destruct (decide (c = in_c)) as [->|Hne].
    + rewrite ConvTranspose2d_shape in Hy. by injection Hy as <-.
    + unfold ConvTranspose2d in Hy. cbn [dimC] in Hy.
      by rewrite decide_False in Hy.
  - intros [-> ->]. apply ConvTranspose2d_shape.
Qed.

Lemma decoder_block_inv in_c out_c inputs skip y :
  decoder_block in_c out_c inputs skip = Some y →
  dimC inputs = in_c ∧
  skip = Shape (dimN inputs) out_c (2 * dimH inputs) (2 * dimW inputs) ∧
  y = skip.
Proof.
  unfold decoder_block. intros Hy.
  destruct (ConvTranspose2d _ _ _ _ _ inputs) as [u|] eqn:Hu; [|done].
  apply ConvTranspose2d_Some in Hu as [Hc ->]. cbn [mbind option_bind] in Hy.
  destruct (cat_axis1 _ skip) as [k|] eqn:Hk; [|done].
  apply cat_axis1_Some in Hk as (HN & HH & HW & ->).
  cbn [mbind option_bind dimN dimC dimH dimW] in *.
  destruct (conv_block _ _ _) as [z|] eqn:Hz; [|done].
  apply conv_block_Some in Hz as (Hcs & _ & ->).
  cbn [mbind option_bind dimN dimC dimH dimW] in *. injection Hy as <-.
  assert (dimC skip = out_c) by lia.
  destruct skip as [sn sc sh sw]; cbn [dimN dimC dimH dimW] in *. subst.
  done.
Qed.

Lemma MaxPool2d_Some x y :
  MaxPool2d 2 x = Some y ↔
  2 <= dimH x ∧ 2 <= dimW x ∧
  y = Shape (dimN x) (dimC x) (dimH x `div` 2) (dimW x `div` 2).
Proof.
  destruct x as [n c h w]. cbn [dimN dimC dimH dimW]. split.
  - intros Hy. destruct (decide (h < 2 ∨ w < 2)) as [Hs|Hs].
    + by rewrite MaxPool2d_too_small in Hy.
    + rewrite MaxPool2d_shape in Hy by lia. injection Hy as <-.
      repeat split; lia.
  - intros (Hh & Hw & ->). by apply MaxPool2d_shape.
Qed.

Lemma encoder_block_Some in_c out_c x s p :
  encoder_block in_c out_c x = Some (s, p) ↔
  dimC x = in_c ∧ 2 <= dimH x ∧ 2 <= dimW x ∧
  s = Shape (dimN x) out_c (dimH x) (dimW x) ∧
  p = Shape (dimN x) out_c (dimH x `div` 2) (dimW x `div` 2).
Proof.
  split.
  - unfold encoder_block. intros Hy.
    destruct (conv_block _ _ _) as [z|] eqn:Hz; [|done].
    apply conv_block_Some in Hz as (Hc & _ & ->). cbn [mbind option_bind] in Hy.
    destruct (MaxPool2d _ _) as [q|] eqn:Hq; [|done].
    apply MaxPool2d_Some in Hq as (Hh & Hw & ->).
    cbn [mbind option_bind dimN dimC dimH dimW] in *. by injection Hy as <- <-.
  - destruct x as [n c h w]. cbn [dimN dimC dimH dimW].
    intros (-> & Hh & Hw & -> & ->). by apply encoder_block_shape.
Qed.

Lemma encoder_block_inv in_c out_c x s p :
  encoder_block in_c out_c x = Some (s, p) →
  dimC x = in_c ∧
  s = Shape (dimN x) out_c (dimH x) (dimW x) ∧
  p = Shape (dimN x) out_c (dimH x `div` 2) (dimW x `div` 2).
Proof. intros (? & _ & _ & ? & ?)%encoder_block_Some. done. Qed.

Ltac forward_step H :=
  match type of H with
  | (encoder_block ?i ?o ?x ≫= _) = Some _ =>
      let E := fresh "E" in
      destruct (encoder_block i o x) as [[? ?]|] eqn:E; [|done];
      apply encoder_block_inv in E as (? & -> & ->);
      cbn [mbind option_bind dimN dimC dimH dimW] in H
  | (decoder_block ?i ?o ?x ?k ≫= _) = Some _ =>
      let E := fresh "E" in
      destruct (decoder_block i o x k) as [?|] eqn:E; [|done];
      apply decoder_block_inv in E as (_ & ? & ->);
      cbn [mbind option_bind dimN dimC dimH dimW] in H
  | (conv_block ?i ?o ?x ≫= _) = Some _ =>
      let E := fresh "E" in
      destruct (conv_block i o x) as [?|] eqn:E; [|done];
      apply conv_block_Some in E as (_ & _ & ->);
      cbn [mbind option_bind dimN dimC dimH dimW] in H
  end.

(** X1: [UNet_STA.forward] returns only for an input of [n_in] channels
    whose height and width are multiples of 16, and then with the shape
    (N, n_class, H, W): the converse of the shape rule, the attention blocks
    refining their input in place. *)
Theorem UNet_STA_forward_requires BasicLayer n_in n_class x y :
  refines_in_place BasicLayer →
  UNet_STA_forward (UNet_STA_init BasicLayer n_in n_class) x = Some y →
  dimC x = n_in ∧ (16 | dimH x) ∧ (16 | dimW x) ∧
  y = Shape (dimN x) n_class (dimH x) (dimW x).
Proof.
  intros Hsta Hy. destruct x as [n c h w].
  unfold UNet_STA_forward, UNet_STA_init in Hy;
    cbn [e1 e2 e3 e4 e_svl1 e_svl2 e_svl3 e_svl4 b d1 d2 d3 d4
         d_svl1 d_svl2 d_svl3 d_svl4 outputs] in Hy.
  forward_step Hy. rewrite Hsta in Hy by done. cbn [mbind option_bind] in Hy.
  forward_step Hy. rewrite Hsta in Hy by done. cbn [mbind option_bind] in Hy.
  forward_step Hy. rewrite Hsta in Hy by done. cbn [mbind option_bind] in Hy.
  forward_step Hy. rewrite Hsta in Hy by done. cbn [mbind option_bind] in Hy.
  forward_step Hy.
  forward_step Hy. rewrite Hsta in Hy by done. cbn [mbind option_bind] in Hy.
  forward_step Hy. rewrite Hsta in Hy by done. cbn [mbind option_bind] in Hy.
  forward_step Hy. rewrite Hsta in Hy by done. cbn [mbind option_bind] in Hy.
  forward_step Hy. rewrite Hsta in Hy by done. cbn [mbind option_bind] in Hy.
  rewrite Conv2d_1x1_shape in Hy. injection Hy as <-.
  cbn [dimN dimC dimH dimW] in *.
  repeat match goal with E : Shape _ _ _ _ = Shape _ _ _ _ |- _ =>
    injection E as ? ? end.
  split; [done|].
  split; [exists ((((h `div` 2) `div` 2) `div` 2) `div` 2); lia|].
  split; [exists ((((w `div` 2) `div` 2) `div` 2) `div` 2); lia|done].
Qed.

Lemma UNet_STA_forward_requires_witness :
  dimC (Shape 2 3 32 48) = 3 ∧ (16 | 32) ∧ (16 | 48) ∧
  Shape 2 9 32 48 = Shape 2 9 32 48.
Proof.
  apply (UNet_STA_forward_requires (λ _ x, Some x)).
  - intros args x _. reflexivity.
  - by vm_compute.
Defined.

Lemma broadcast_size_diag a : broadcast_size a a = Some a.
Proof. unfold broadcast_size. by rewrite decide_True. Qed.

Lemma broadcast_size_1_r a : broadcast_size a 1 = Some a.
Proof. unfold broadcast_size. repeat case_decide; congruence. Qed.

Lemma broadcast_size_1_l a : broadcast_size 1 a = Some a.
Proof. unfold broadcast_size. repeat case_decide; congruence. Qed.

Lemma BatchNorm2d_1x1 in_c out_c n h w :
  n * h * w ≠ 1 →
  (x ← Conv2d in_c out_c 1 0 (Shape n in_c h w); BatchNorm2d out_c x)
  = Some (Shape n out_c h w).
Proof.
  intros Hv. rewrite Conv2d_1x1_shape. cbn [mbind option_bind].
  by apply BatchNorm2d_shape.
Qed.

Lemma BatchNorm2d_1x1_single_value in_c out_c n h w :
  n * h * w = 1 →
  (x ← Conv2d in_c out_c 1 0 (Shape n in_c h w); BatchNorm2d out_c x) = None.
Proof.
  intros Hv. rewrite Conv2d_1x1_shape. cbn [mbind option_bind].
  by apply BatchNorm2d_single_value.
Qed.

(** The attention on a gating signal [g] of the batch size of [x] or of one
    sample. *)
Lemma AttentionBlock_forward_shape gate inter cin m n h w :
  m = n ∨ m = 1 → m * h * w ≠ 1 → n * h * w ≠ 1 →
  AttentionBlock_forward (AttentionBlock_init gate inter cin)
    (Shape m gate h w) (Shape n cin h w)
  = Some (Shape n cin h w).
Proof.
  intros Hm Hg Hx.
  unfold AttentionBlock_forward, AttentionBlock_init, relu, Sigmoid;
    cbn [W_g W_x psi].
  rewrite (BatchNorm2d_1x1 gate inter m h w) by done. cbn [mbind option_bind].
  rewrite (BatchNorm2d_1x1 cin inter n h w) by done. cbn [mbind option_bind].
  unfold broadcast_shapes; cbn [dimN dimC dimH dimW].
  assert (broadcast_size m n = Some n) as ->.
  { destruct Hm as [-> | ->]; [apply broadcast_size_diag|apply broadcast_size_1_l]. }
  rewrite !broadcast_size_diag. cbn [mbind option_bind].
  rewrite Conv2d_1x1_shape. cbn [mbind option_bind dimN dimC dimH dimW].
  by rewrite !broadcast_size_diag, broadcast_size_1_r.
Qed.

Lemma AttentionBlock_forward_single_value gate inter cin m n h w :
  m * h * w = 1 ∨ n * h * w = 1 →
  AttentionBlock_forward (AttentionBlock_init gate inter cin)
    (Shape m gate h w) (Shape n cin h w)
  = None.
Proof.
  intros Hv.
  unfold AttentionBlock_forward, AttentionBlock_init; cbn [W_g W_x psi].
  destruct (decide (m * h * w = 1)) as [Hg|Hg].
  - rewrite (BatchNorm2d_1x1_single_value gate inter m h w) by done. reflexivity.
  - rewrite (BatchNorm2d_1x1 gate inter m h w) by done. cbn [mbind option_bind].
    destruct Hv as [?|Hx]; [done|].
    rewrite (BatchNorm2d_1x1_single_value cin inter n h w) by done. reflexivity.
Qed.

(** X6: wherever [decoder_block] returns, [decoder_block_w_attn] of the
    same channel counts returns the same shape on the same inputs. *)
Theorem decoder_block_w_attn_replaces in_c out_c inputs skip y :
  decoder_block in_c out_c inputs skip = Some y →
  decoder_block_w_attn in_c out_c inputs skip = Some y.
Proof.
  intros (Hc & -> & ->)%decoder_block_inv. destruct inputs as [n c h w].
  cbn [dimN dimC dimH dimW] in *. subst c. unfold decoder_block_w_attn.
  rewrite ConvTranspose2d_shape. cbn [mbind option_bind].
  rewrite AttentionBlock_forward_shape by (by left || lia).
  cbn [mbind option_bind].
  rewrite cat_axis1_shape. cbn [mbind option_bind].
  by rewrite conv_block_shape by lia.
Qed.

Lemma decoder_block_w_attn_replaces_witness :
  decoder_block_w_attn 1024 512 (Shape 2 1024 14 14) (Shape 2 512 28 28)
  = Some (Shape 2 512 28 28).
Proof. apply decoder_block_w_attn_replaces. by vm_compute. Defined.

(** X7: [decoder_block_w_attn] concatenates the attended skip with the
    skip, the upsampled input only gating it: from an input of one sample
    and a skip of n samples it returns n samples, where [decoder_block],
    which concatenates the upsampled input, fails. *)
Theorem decoder_block_w_attn_batch_of_skip in_c out_c n h w :
  n ≠ 1 →
  decoder_block_w_attn in_c out_c (Shape 1 in_c h w) (Shape n out_c (2 * h) (2 * w))
    = Some (Shape n out_c (2 * h) (2 * w)) ∧
  decoder_block in_c out_c (Shape 1 in_c h w) (Shape n out_c (2 * h) (2 * w)) = None.
Proof.
  intros Hn. split.
  - unfold decoder_block_w_attn.
    rewrite ConvTranspose2d_shape. cbn [mbind option_bind].
    rewrite AttentionBlock_forward_shape by (by right || lia).
    cbn [mbind option_bind].
    rewrite cat_axis1_shape. cbn [mbind option_bind].
    by rewrite conv_block_shape by lia.
  - destruct (decoder_block _ _ _ _) as [y|] eqn:Hy; [|done].
    apply decoder_block_inv in Hy as (_ & Hs & _).
    cbn [dimN] in Hs. injection Hs as ->. done.
Qed.

Lemma decoder_block_w_attn_batch_of_skip_witness :
  decoder_block_w_attn 1024 512 (Shape 1 1024 14 14) (Shape 4 512 (2 * 14) (2 * 14))
    = Some (Shape 4 512 (2 * 14) (2 * 14)) ∧
  decoder_block 1024 512 (Shape 1 1024 14 14) (Shape 4 512 (2 * 14) (2 * 14)) = None.
Proof. apply decoder_block_w_attn_batch_of_skip. lia. Defined.

(** X8: [decoder_block_svit] does not upsample. On a non-empty input it
    returns exactly when its two inputs agree in batch size, height and
    width, their channels add up to [in_c + in_c] and there is more than
    one value per channel (the batch norm is in training mode); the result
    has [out_c] channels and the size of the inputs. *)
Theorem decoder_block_svit_succeeds_iff in_c out_c inputs skip y :
  0 < dimN inputs → 0 < dimH inputs → 0 < dimW inputs →
  decoder_block_svit in_c out_c inputs skip = Some y ↔
  dimN inputs = dimN skip ∧ dimH inputs = dimH skip ∧ dimW inputs = dimW skip ∧
  dimC inputs + dimC skip = in_c + in_c ∧
  dimN inputs * dimH inputs * dimW inputs ≠ 1 ∧
  y = Shape (dimN inputs) out_c (dimH inputs) (dimW inputs).
Proof.
  intros _ _ _. unfold decoder_block_svit. split.
  - intros Hy. destruct (cat_axis1 inputs skip) as [k|] eqn:Hk; [|done].
    apply cat_axis1_Some in Hk as (HN & HH & HW & ->).
    cbn [mbind option_bind] in Hy.
    destruct (conv_block _ _ _) as [z|] eqn:Hz; [|done].
    apply conv_block_Some in Hz as (Hcs & Hv & ->).
    cbn [mbind option_bind dimN dimC dimH dimW] in *. by injection Hy as <-.
  - intros (HN & HH & HW & HC & Hv & ->).
    rewrite (proj2 (cat_axis1_Some inputs skip _)) by done.
    cbn [mbind option_bind]. rewrite HC. by rewrite conv_block_shape.
Qed.

Lemma decoder_block_svit_succeeds_iff_witness :
  decoder_block_svit 64 32 (Shape 2 64 14 14) (Shape 2 64 14 14)
    = Some (Shape 2 32 14 14) ↔
  2 = 2 ∧ 14 = 14 ∧ 14 = 14 ∧ 64 + 64 = 64 + 64 ∧ 2 * 14 * 14 ≠ 1 ∧
  Shape 2 32 14 14 = Shape 2 32 14 14.
Proof.
  apply (decoder_block_svit_succeeds_iff 64 32 (Shape 2 64 14 14) (Shape 2 64 14 14));
    simpl; lia.
Defined.

(** X2: [decoder_block] returns exactly when the input has [in_c] channels
    and the skip connection has [out_c] channels, the batch size of the
    input and twice its height and width; the result has the shape of the
    skip connection. *)
Theorem decoder_block_succeeds_iff in_c out_c inputs skip y :
  decoder_block in_c out_c inputs skip = Some y ↔
  dimC inputs = in_c ∧
  skip = Shape (dimN inputs) out_c (2 * dimH inputs) (2 * dimW inputs) ∧
  y = skip.
Proof.
  split; [apply decoder_block_inv|].
  intros (Hc & -> & ->). destruct inputs as [n c h w].
  cbn [dimN dimC dimH dimW] in *. subst c. apply decoder_block_shape.
Qed.

(** X3: on a non-empty batch, [encoder_block] returns exactly when the
    input has [in_c] channels and at least two rows and two columns (the
    pooling refuses a smaller map); it returns the convolved map at the size
    of the input, for the skip connection, and the same map at half the
    height and width, rounded down. *)
Theorem encoder_block_succeeds_iff in_c out_c x s p :
  0 < dimN x →
  encoder_block in_c out_c x = Some (s, p) ↔
  dimC x = in_c ∧ 2 <= dimH x ∧ 2 <= dimW x ∧
  s = Shape (dimN x) out_c (dimH x) (dimW x) ∧
  p = Shape (dimN x) out_c (dimH x `div` 2) (dimW x `div` 2).
Proof. intros _. apply encoder_block_Some. Qed.

Lemma encoder_block_succeeds_iff_witness :
  encoder_block 3 64 (Shape 2 3 32 48) = Some (Shape 2 64 32 48, Shape 2 64 16 24) ↔
  3 = 3 ∧ 2 <= 32 ∧ 2 <= 48 ∧
  Shape 2 64 32 48 = Shape 2 64 32 48 ∧
  Shape 2 64 16 24 = Shape 2 64 (32 `div` 2) (48 `div` 2).
Proof.
  apply (encoder_block_succeeds_iff 3 64 (Shape 2 3 32 48)). simpl; lia.
Defined.

(** X4: a [decoder_block] fed a map of the pooled size of an
    [encoder_block] and that encoder's skip connection returns exactly when
    the height and the width of the encoder's input are even. *)
Theorem encoder_decoder_round_trip in_c out_c c x s p :
  encoder_block in_c out_c x = Some (s, p) →
  (∃ y, decoder_block c out_c (Shape (dimN p) c (dimH p) (dimW p)) s = Some y)
  ↔ (2 | dimH x) ∧ (2 | dimW x).
Proof.
  intros (_ & -> & ->)%encoder_block_inv. cbn [dimN dimC dimH dimW]. split.
  - intros [y (_ & Hs & _)%decoder_block_inv].
    cbn [dimN dimC dimH dimW] in Hs. injection Hs as Hh Hw.
    split; [exists (dimH x `div` 2)|exists (dimW x `div` 2)]; lia.
  - intros [[h Hh] [w Hw]]. eexists.
    rewrite Hh, Hw, !Z.div_mul by lia.
    replace (h * 2) with (2 * h) by lia. replace (w * 2) with (2 * w) by lia.
    apply decoder_block_shape.
Qed.

Lemma encoder_decoder_round_trip_witness :
  (∃ y, decoder_block 128 64 (Shape 2 128 16 24) (Shape 2 64 32 48) = Some y)
  ↔ (2 | 32) ∧ (2 | 48).
Proof.
  apply (encoder_decoder_round_trip 3 64 128 (Shape 2 3 32 48)
           (Shape 2 64 32 48) (Shape 2 64 16 24)).
  by vm_compute.
Defined.

(** X5: on non-empty maps, [AttentionBlock.forward(g, x)] returns a map of
    the shape of [x], whatever the number of intermediate channels, for a
    gating signal [g] of [gate_channels] channels, the height and width of
    [x], and the batch size of [x] or a batch of one sample, when [g] and
    [x] both hold more than one value per channel; when one of them holds a
    single value per channel it raises (the batch norms of [W_g] and [W_x]
    are in training mode). *)
Theorem AttentionBlock_forward_keeps_shape gate inter cin m n h w :
  0 < n → 0 < h → 0 < w → m = n ∨ m = 1 →
  AttentionBlock_forward (AttentionBlock_init gate inter cin)
    (Shape m gate h w) (Shape n cin h w)
  = if decide (m * h * w = 1 ∨ n * h * w = 1) then None
    else Some (Shape n cin h w).
Proof.
  intros _ _ _ Hm. case_decide as Hv.
  - by apply AttentionBlock_forward_single_value.
  - apply AttentionBlock_forward_shape; [done|tauto..].
Qed.

Lemma AttentionBlock_forward_keeps_shape_witness :
  AttentionBlock_forward (AttentionBlock_init 512 256 512)
    (Shape 1 512 28 28) (Shape 4 512 28 28)
  = Some (Shape 4 512 28 28).
Proof.
  apply (AttentionBlock_forward_keeps_shape 512 256 512 1 4 28 28); (lia || by right).
Defined.

End unet_stvit_more.

(** ** Properties of [cosine_scheduler] *)

Module scheduler_theory.

Import scheduler.
Local Open Scope Z_scope.

Lemma arange_length n : length (arange n) = Z.to_nat n.
Proof. unfold arange. by rewrite length_fmap, length_seq. Qed.

Lemma linspace_Ok start stop num :
  0 <= num → ∃ l, linspace start stop num = Ok l ∧ length l = Z.to_nat num.
Proof.
  intros Hn. unfold linspace. rewrite decide_False by lia.
  eexists. split; [done|]. by rewrite length_fmap, length_seq.
Qed.

Lemma cosine_scheduler_length base final epochs niter warmup start s :
  cosine_scheduler base final epochs niter warmup start = Ok s →
  Z.of_nat (length s) = epochs * niter.
Proof.
  unfold cosine_scheduler. intros Hs.
  destruct (if decide (warmup > 0) then _ else _) as [w|e]; [|done].
  cbv zeta in Hs. case_decide as Hlen; [|done]. by injection Hs as <-.
Qed.

Lemma cosine_scheduler_Ok_iff base final epochs niter warmup start :
  0 <= warmup → 0 <= niter →
  (∃ s, cosine_scheduler base final epochs niter warmup start = Ok s)
  ↔ warmup * niter <= epochs * niter.
Proof.
  intros Hw Hn. unfold cosine_scheduler.
  assert (0 <= warmup * niter) as Hwi by nia.
  destruct (decide (warmup > 0)) as [Hpos|Hzero].
  - destruct (linspace_Ok start base (warmup * niter) Hwi) as (l & -> & Hl).
    cbv zeta. rewrite length_app, length_fmap, arange_length, Hl.
    case_decide as Hlen; split; try done; try lia.
    + intros _. eauto.
    + intros [s Hs]. done.
  - assert (warmup = 0) as -> by lia.
    cbv zeta. rewrite app_nil_l, length_fmap, arange_length.
    case_decide as Hlen; split; try done; try lia.
    + intros _. eauto.
    + intros [s Hs]. done.
Qed.

Lemma cosine_scheduler_split base final epochs niter warmup start s :
  0 <= warmup → 0 <= niter →
  cosine_scheduler base final epochs niter warmup start = Ok s →
  let wi := Z.to_nat (warmup * niter) in
  let n := Z.to_nat (epochs * niter - warmup * niter) in
  ∃ w, length w = wi ∧ linspace start base (warmup * niter) = Ok w ∧
    s = w ++ ((λ k : nat, cosine_value base final n (IZR (Z.of_nat k))) <$> seq 0 n).
Proof.
  intros Hw Hn Hs wi n. unfold cosine_scheduler in Hs.
  assert (0 <= warmup * niter) as Hwi by nia.
  destruct (linspace_Ok start base (warmup * niter) Hwi) as (l & Hl & Hlen).
  destruct (decide (warmup > 0)) as [Hpos|Hzero].
  - rewrite Hl in Hs. cbv zeta in Hs. case_decide; [|done]. injection Hs as <-.
    exists l. split; [done|]. split; [done|]. f_equal.
    unfold arange. rewrite <- list_fmap_compose. rewrite length_fmap, length_seq.
    done.
  - assert (warmup = 0) as -> by lia.
    cbv zeta in Hs. case_decide; [|done]. injection Hs as <-.
    exists []. split; [done|]. split.
    + unfold linspace. by rewrite decide_False by lia.
    + rewrite app_nil_l.
      unfold arange. rewrite <- list_fmap_compose. rewrite length_fmap, length_seq.
      done.
Qed.

Lemma cosine_phase_lookup base final epochs niter warmup start s (i : nat) v :
  0 <= warmup → 0 <= niter →
  cosine_scheduler base final epochs niter warmup start = Ok s →
  (Z.to_nat (warmup * niter) <= i)%nat → s !! i = Some v →
  let n := Z.to_nat (epochs * niter - warmup * niter) in
  ∃ k : nat, (k < n)%nat ∧ i = (Z.to_nat (warmup * niter) + k)%nat ∧
    v = cosine_value base final n (IZR (Z.of_nat k)).
Proof.
  intros Hw Hn Hs Hi Hv n.
  destruct (cosine_scheduler_split _ _ _ _ _ _ _ Hw Hn Hs) as (w & Hlw & _ & ->).
  rewrite lookup_app_r in Hv by lia. rewrite Hlw in Hv.
  rewrite list_lookup_fmap in Hv.
  destruct (seq 0 _ !! _) as [k|] eqn:Hk; [|done].
  apply lookup_seq in Hk as [-> Hk]. simpl in Hv. injection Hv as <-.
  exists (i - Z.to_nat (warmup * niter))%nat. fold n. split; [done|]. split; [lia|].
  done.
Qed.

Lemma cosine_angle (n k : nat) :
  (k < n)%nat → (0 <= PI * IZR (Z.of_nat k) / INR n < PI)%R.
Proof.
  intros Hk. pose proof PI_RGT_0 as Hpi.
  assert (0 < INR n)%R as Hn by (apply lt_0_INR; lia).
  rewrite <- INR_IZR_INZ.
  assert (0 <= INR k)%R as Hk0 by apply pos_INR.
  assert (INR k < INR n)%R as Hkn by (by apply lt_INR).
  assert (0 <= INR k / INR n < 1)%R as [H0 H1].
  { split.
    - apply Rmult_le_pos; [done|]. left. by apply Rinv_0_lt_compat.
    - apply (Rmult_lt_reg_r (INR n)); [done|].
      unfold Rdiv. rewrite Rmult_assoc, Rinv_l by lra. lra. }
  replace (PI * INR k / INR n)%R with (PI * (INR k / INR n))%R by (unfold Rdiv; ring).
  split; [apply Rmult_le_pos; lra|].
  rewrite <- (Rmult_1_r PI) at 2. apply Rmult_lt_compat_l; lra.
Qed.

(** X11: after the warm-up the schedule starts at [base_value]; every value
    of the cosine phase lies between [final_value] and [base_value], and for
    [final_value < base_value] it stays above [final_value]: the schedule
    never reaches its final value. *)
Theorem cosine_phase_range base final epochs niter warmup start s :
  0 <= warmup → 0 <= niter →
  cosine_scheduler base final epochs niter warmup start = Ok s →
  (warmup * niter < epochs * niter → s !! Z.to_nat (warmup * niter) = Some base) ∧
  (∀ (i : nat) v, (Z.to_nat (warmup * niter) <= i)%nat → s !! i = Some v →
     (Rmin final base <= v <= Rmax final base)%R ∧
     ((final < base)%R → (final < v)%R)).
Proof.
  intros Hw Hn Hs. split.
  - intros Hlt.
    destruct (cosine_scheduler_split _ _ _ _ _ _ _ Hw Hn Hs) as (w & Hlw & _ & ->).
    rewrite lookup_app_r by lia. rewrite Hlw, Nat.sub_diag.
    destruct (Z.to_nat (epochs * niter - warmup * niter)) as [|n] eqn:Hn'; [lia|].
    cbn [seq fmap list_fmap lookup list_lookup]. f_equal.
    unfold cosine_value. change (IZR (Z.of_nat 0)) with 0%R.
    replace (PI * 0 / INR (S n))%R with 0%R by (unfold Rdiv; ring).
    rewrite cos_0. lra.
  - intros i v Hi Hv.
    destruct (cosine_phase_lookup _ _ _ _ _ _ _ _ _ Hw Hn Hs Hi Hv) as (k & Hk & _ & ->).
    unfold cosine_value.
    set (x := (PI * IZR (Z.of_nat k) / INR _)%R).
    pose proof (COS_bound x) as [Hlo Hhi].
    assert (-1 < cos x)%R as Hstrict.
    { rewrite <- cos_PI. pose proof (cosine_angle _ _ Hk) as [H0 H1]. fold x in H0, H1.
      apply cos_decreasing_1; lra. }
    split.
    + unfold Rmin, Rmax. destruct (Rle_dec final base); split; nra.
    + intros Hfb. nra.
Qed.

(** X12: for [final_value <= base_value] the schedule does not increase
    from one iteration of the cosine phase to a later one. *)
Theorem cosine_phase_nonincreasing base final epochs niter warmup start s :
  0 <= warmup → 0 <= niter → (final <= base)%R →
  cosine_scheduler base final epochs niter warmup start = Ok s →
  ∀ (i j : nat) vi vj, (Z.to_nat (warmup * niter) <= i <= j)%nat →
    s !! i = Some vi → s !! j = Some vj → (vj <= vi)%R.
Proof.
  intros Hw Hn Hfb Hs i j vi vj [Hi Hij] Hvi Hvj.
  destruct (cosine_phase_lookup _ _ _ _ _ _ _ _ _ Hw Hn Hs Hi Hvi) as (k & Hk & Hik & ->).
  assert (Z.to_nat (warmup * niter) <= j)%nat as Hj by lia.
  destruct (cosine_phase_lookup _ _ _ _ _ _ _ _ _ Hw Hn Hs Hj Hvj)
    as (k' & Hk' & Hjk & ->).
  unfold cosine_value.
  pose proof (cosine_angle _ _ Hk) as [H0 H1].
  pose proof (cosine_angle _ _ Hk') as [H0' H1'].
  set (n := Z.to_nat (epochs * niter - warmup * niter)) in *.
  assert (PI * IZR (Z.of_nat k) / INR n <= PI * IZR (Z.of_nat k') / INR n)%R as Hle.
  { pose proof PI_RGT_0. assert (0 < INR n)%R by (apply lt_0_INR; lia).
    assert (IZR (Z.of_nat k) <= IZR (Z.of_nat k'))%R by (apply IZR_le; lia).
    unfold Rdiv. apply Rmult_le_compat_r; [left; by apply Rinv_0_lt_compat|].
    apply Rmult_le_compat_l; lra. }
  assert (cos (PI * IZR (Z.of_nat k') / INR n) <= cos (PI * IZR (Z.of_nat k) / INR n))%R
    by (apply cos_decr_1; lra).
  nra.
Qed.

(** X13: with a warm-up, the schedule starts at [start_warmup_value], and
    the last warm-up value, when there are at least two, is
    [base_value]. *)
Theorem warmup_endpoints base final epochs niter warmup start s :
  0 < warmup → 0 <= niter →
  cosine_scheduler base final epochs niter warmup start = Ok s →
  (1 <= warmup * niter → s !! 0%nat = Some start) ∧
  (2 <= warmup * niter → s !! Z.to_nat (warmup * niter - 1) = Some base).
Proof.
  intros Hw Hn Hs.
  assert (0 <= warmup) as Hw0 by lia.
  destruct (cosine_scheduler_split _ _ _ _ _ _ _ Hw0 Hn Hs) as (w & Hlw & Hl & ->).
  unfold linspace in Hl. case_decide; [done|]. injection Hl as <-.
  split; intros Hwi.
  - rewrite lookup_app_l by (rewrite length_fmap, length_seq; lia).
    rewrite list_lookup_fmap.
    rewrite (proj2 (lookup_seq 0 (Z.to_nat (warmup * niter)) 0 0)) by (split; lia).
    cbn [fmap option_fmap option_map]. rewrite decide_False by lia.
    f_equal. change (IZR (Z.of_nat 0)) with 0%R. lra.
  - rewrite lookup_app_l by (rewrite length_fmap, length_seq; lia).
    rewrite list_lookup_fmap.
    rewrite (proj2 (lookup_seq 0 (Z.to_nat (warmup * niter)) _ (Z.to_nat (warmup * niter - 1))))
      by (split; lia).
    cbn [fmap option_fmap option_map]. by rewrite decide_True by lia.
Qed.

(** X9: for a warm-up and a number of iterations per epoch that are not
    negative, [cosine_scheduler] returns exactly when the warm-up is not
    longer than the run, and the schedule it returns holds one value for
    each of the [epochs * niter_per_ep] iterations. *)
Theorem cosine_scheduler_returns base final epochs niter warmup start :
  0 <= warmup → 0 <= niter →
  ((∃ s, cosine_scheduler base final epochs niter warmup start = Ok s)
   ↔ warmup * niter <= epochs * niter) ∧
  (∀ s, cosine_scheduler base final epochs niter warmup start = Ok s →
        Z.of_nat (length s) = epochs * niter).
Proof.
  intros Hw Hn. split; [by apply cosine_scheduler_Ok_iff|].
  apply cosine_scheduler_length.
Qed.

(** X10: a warm-up longer than the run fails the length assertion, and a
    negative number of iterations per epoch with a warm-up is refused by
    [np.linspace]. *)
Theorem cosine_scheduler_errors base final epochs niter warmup start :
  (0 <= warmup → 0 <= niter → epochs * niter < warmup * niter →
   cosine_scheduler base final epochs niter warmup start = Err AssertionError) ∧
  (0 < warmup → niter < 0 →
   cosine_scheduler base final epochs niter warmup start = Err ValueError).
Proof.
  split.
  - intros Hw Hn Hlt.
    destruct (cosine_scheduler base final epochs niter warmup start) as [s|e] eqn:Hs.
    + assert (warmup * niter <= epochs * niter); [|lia].
      apply (cosine_scheduler_Ok_iff base final epochs niter warmup start); eauto.
    + unfold cosine_scheduler in Hs.
      assert (0 <= warmup * niter) as Hwi by nia.
      destruct (linspace_Ok start base (warmup * niter) Hwi) as (l & Hl & _).
      destruct (decide (warmup > 0)).
      * rewrite Hl in Hs. cbv zeta in Hs. case_decide; [done|]. by injection Hs as <-.
      * cbv zeta in Hs. case_decide; [done|]. by injection Hs as <-.
  - intros Hw Hn. unfold cosine_scheduler, linspace.
    rewrite decide_True by lia. by rewrite decide_True by nia.
Qed.

Lemma cosine_scheduler_returns_witness :
  ((∃ s, cosine_scheduler 1 0 2 2 1 0 = Ok s) ↔ 1 * 2 <= 2 * 2) ∧
  (∀ s, cosine_scheduler 1 0 2 2 1 0 = Ok s → Z.of_nat (length s) = 2 * 2).
Proof. apply cosine_scheduler_returns; lia. Defined.

Lemma cosine_phase_range_witness :
  ∃ s, cosine_scheduler 1 0 2 2 1 0 = Ok s ∧ s !! 2%nat = Some 1%R.
Proof.
  eexists. split; [reflexivity|].
  apply (cosine_phase_range 1 0 2 2 1 0); [lia|lia|reflexivity|lia].
Defined.

Lemma cosine_phase_nonincreasing_witness :
  ∃ s v2 v3, cosine_scheduler 1 0 2 2 1 0 = Ok s ∧
    s !! 2%nat = Some v2 ∧ s !! 3%nat = Some v3 ∧ (v3 <= v2)%R.
Proof.
  eexists _, _, _. split; [reflexivity|]. split; [reflexivity|]. split; [reflexivity|].
  apply (cosine_phase_nonincreasing 1 0 2 2 1 0 _ ltac:(lia) ltac:(lia) ltac:(lra)
           eq_refl 2%nat 3%nat); [simpl; lia|reflexivity|reflexivity].
Defined.

Lemma warmup_endpoints_witness :
  ∃ s, cosine_scheduler 1 0 2 2 1 0 = Ok s ∧ s !! 0%nat = Some 0%R.
Proof.
  eexists. split; [reflexivity|].
  apply (warmup_endpoints 1 0 2 2 1 0); [lia|lia|reflexivity|lia].
Defined.

Lemma cosine_scheduler_errors_witness :
  cosine_scheduler 1 0 1 2 3 0 = Err AssertionError.
Proof. apply cosine_scheduler_errors; lia. Defined.

End scheduler_theory.

(** ** Further properties of the training driver *)

Module trainer_unet_more.

Import trainer_unet trainer_unet_theory examples.
Local Open Scope Z_scope.

Section Runs.
Context `{Framework}.

(** X14: in every run of either trainer on a host with CUDA, each of the
    [optimizer.step()] calls, one for every batch processed, runs with the
    learning rate [base_lr]: the rate computed from the schedule never
    reaches the optimizer. *)
Theorem optimizer_steps_at_base_lr h a m p :
  let bs := batch_size a * n_gpu a in
  let len_synapse :=
    len_trainloader (Synapse_dataset (root_path a) (list_dir a) (img_size a)) bs in
  let len_assd :=
    len_trainloader (ASSD_dataset (root_path a) (list_dir a) (img_size a)) bs in
  cuda_is_available h = true →
  optimizer_lrs (trainer_synapse h a m p).1
    = replicate (Z.to_nat (Z.max 0 (max_epochs a) * len_synapse)) (base_lr a) ∧
  optimizer_lrs (trainer_assd h a m p).1
    = replicate (Z.to_nat (Z.max 0 (max_epochs a) * len_assd)) (base_lr a).
Proof.
  intros bs ls la Hc.
  destruct (trainer_synapse_runs h a m p Hc) as (ts & -> & Hoks & _).
  destruct (trainer_assd_runs h a m p Hc) as (ta & -> & Hoka & _).
  split; [apply Hoks|apply Hoka].
Qed.

Lemma schedule_bounds base_lr n i :
  (0 < base_lr)%R → 0 <= i < n → (0 < schedule base_lr n i <= base_lr)%R.
Proof.
  intros Hb Hi. unfold schedule.
  pose proof (ratio_lt_1 i n Hi) as [Hx0 Hx1].
  set (x := (1.0 - IZR i / IZR n)%R) in *.
  assert (0 < Rpower x 0.9)%R by apply exp_pos.
  assert (Rpower x 0.9 <= 1)%R.
  { rewrite <- (Rpower_1_l 0.9). apply Rle_Rpower_l; lra. }
  split; [by apply Rmult_lt_0_compat|]. nra.
Qed.

Lemma logged_rates_bounds base_lr me len :
  (0 < base_lr)%R → 0 <= len →
  Forall (λ '(v, _), (0 < v <= base_lr)%R)
    ((λ n, (schedule base_lr (me * len) n, n)) <$> range (Z.max 0 me * len)).
Proof.
  intros Hb Hlen. apply Forall_fmap, Forall_forall. intros n Hn%elem_of_range.
  cbn. apply schedule_bounds; [done|]. nia.
Qed.

Lemma len_trainloader_nonneg db bs : 0 <= len_trainloader db bs.
Proof. rewrite <- (length_batches db bs 0 0). lia. Qed.

(** X15: for a positive [base_lr], every value either trainer writes as
    'info/lr' on a host with CUDA is positive and at most [base_lr]: within
    a run the schedule is defined and never reaches zero. *)
Theorem logged_rates_in_range h a m p :
  cuda_is_available h = true → (0 < base_lr a)%R →
  Forall (λ '(v, _), (0 < v <= base_lr a)%R)
    (scalars "info/lr" (trainer_synapse h a m p).1) ∧
  Forall (λ '(v, _), (0 < v <= base_lr a)%R)
    (scalars "info/lr" (trainer_assd h a m p).1).
Proof.
  intros Hc Hb.
  destruct (trainer_synapse_runs h a m p Hc) as (ts & -> & (Hlrs & _) & _).
  destruct (trainer_assd_runs h a m p Hc) as (ta & -> & (Hlra & _) & _).
  cbn [fst]. rewrite Hlrs, Hlra.
  split; apply logged_rates_bounds; try done; apply len_trainloader_nonneg.
Qed.





(** X17: with [max_epochs <= 0] a trainer returns 'Training Finished!'
    without processing a batch: no iteration, no optimizer step, no learning
    rate written and no checkpoint saved; [trainer_assd] on every host,
    [trainer_synapse] on every host with CUDA. *)
Theorem run_without_epochs h a m p :
  max_epochs a <= 0 →
  (cuda_is_available h = true →
   let run := trainer_synapse h a m p in
   run.2 = Return "Training Finished!" ∧
   iterations run.1 = [] ∧ optimizer_lrs run.1 = [] ∧ scalars "info/lr" run.1 = [] ∧
   saved_paths run.1 = []) ∧
  (let run := trainer_assd h a m p in
   run.2 = Return "Training Finished!" ∧
   iterations run.1 = [] ∧ optimizer_lrs run.1 = [] ∧ scalars "info/lr" run.1 = [] ∧
   saved_paths run.1 = []).
Proof.
  intros Hz. split.
  - intros Hdev run. subst run.
    unfold trainer_synapse, device_check, profile_cuda. cbv zeta.
    rewrite range_nonpos by done. rewrite Hdev. done.
  - intros run. subst run. unfold trainer_assd. cbv zeta.
    rewrite range_nonpos by done. done.
Qed.

Lemma saves_before_last p me (l : list Z) :
  Forall (λ e, e < me - 1) l →
  l ≫= saves p me = checkpoint p <$> filter (λ e, 80 < e) l.
Proof.
  induction 1 as [|e l He _ IH]; [done|].
  rewrite bind_cons, IH, filter_cons. unfold saves.
  rewrite (decide_False (P := e >= me - 1)) by lia. rewrite app_nil_r.
  destruct (decide (e > 80)), (decide (80 < e)); try lia; done.
Qed.

Lemma save_sequence p me :
  1 <= me →
  range me ≫= saves p me
  = checkpoint p <$> (filter (λ e, 80 < e) (range me) ++ [me - 1]).
Proof.
  intros Hme.
  assert (range me = range (me - 1) ++ [me - 1]) as ->.
  { rewrite <- range_succ by lia. f_equal. lia. }
  rewrite bind_app, filter_app, saves_before_last; last first.
  { apply Forall_forall. intros e He%elem_of_range. lia. }
  rewrite !fmap_app, <- app_assoc. f_equal.
  rewrite bind_cons. change ([] ≫= saves p me) with (@nil string). rewrite app_nil_r.
  unfold saves. rewrite (decide_True (P := me - 1 >= me - 1)) by lia.
  rewrite filter_cons, filter_nil.
  destruct (decide (me - 1 > 80)), (decide (80 < me - 1)); try lia; done.
Qed.

Lemma NoDup_range n : NoDup (range n).
Proof.
  unfold range. apply NoDup_fmap_2; [intros x y; lia|]. apply NoDup_seq.
Qed.

Lemma save_sequence_NoDup p me :
  1 <= me → NoDup (range me ≫= saves p me) ↔ me <= 81.
Proof.
  intros Hme. rewrite save_sequence by done.
  pose proof (checkpoint_inj p) as Hinj. rewrite (NoDup_fmap (checkpoint p)).
  rewrite NoDup_app. split.
  - intros (_ & Hdis & _). destruct (decide (me <= 81)) as [|Hgt]; [done|].
    exfalso. apply (Hdis (me - 1)); [|by apply list_elem_of_singleton].
    apply list_elem_of_filter. split; [lia|]. apply elem_of_range. lia.
  - intros Hle. split; [apply NoDup_filter, NoDup_range|]. split.
    + intros e [He _]%list_elem_of_filter ->%list_elem_of_singleton. lia.
    + apply NoDup_singleton.
Qed.

(** X18: in a run of at least one epoch on a host with CUDA, both trainers
    save, in this order, the file of every epoch above 80 and then the file
    of the last epoch; so the file of the last epoch is saved twice exactly
    when [max_epochs] exceeds 81. *)
Theorem checkpoint_sequence h a m p :
  cuda_is_available h = true → 1 <= max_epochs a →
  saved_paths (trainer_synapse h a m p).1
    = checkpoint p <$> (filter (λ e, 80 < e) (range (max_epochs a))
                        ++ [max_epochs a - 1]) ∧
  saved_paths (trainer_assd h a m p).1
    = checkpoint p <$> (filter (λ e, 80 < e) (range (max_epochs a))
                        ++ [max_epochs a - 1]) ∧
  (NoDup (saved_paths (trainer_synapse h a m p).1) ↔ max_epochs a <= 81).
Proof.
  intros Hc Hme.
  destruct (trainer_synapse_runs h a m p Hc) as (ts & -> & _ & Hs).
  destruct (trainer_assd_runs h a m p Hc) as (ta & -> & _ & Ha).
  cbn [fst]. rewrite Hs, Ha. rewrite save_sequence by done.
  split; [done|]. split; [done|].
  rewrite <- save_sequence by done. by apply save_sequence_NoDup.
Qed.

End Runs.

Lemma optimizer_steps_at_base_lr_witness :
  @optimizer_lrs toy (@trainer_assd toy (Host true false) one_epoch () "snapshot").1
  = [base_lr one_epoch; base_lr one_epoch].
Proof.
  destruct (@optimizer_steps_at_base_lr toy (Host true false) one_epoch () "snapshot")
    as [_ Hassd]; [reflexivity|].
  exact Hassd.
Defined.

Lemma logged_rates_in_range_witness :
  Forall (λ '(v, _), (0 < v <= base_lr one_epoch)%R)
    (@scalars toy "info/lr"
       (@trainer_synapse toy (Host true false) one_epoch () "snapshot").1).
Proof.
  destruct (@logged_rates_in_range toy (Host true false) one_epoch () "snapshot")
    as [Hsyn _]; [reflexivity|simpl; lra|].
  exact Hsyn.
Defined.


Lemma run_without_epochs_witness :
  (@trainer_assd toy (Host false false) no_epochs () "snapshot").2
  = Return "Training Finished!".
Proof.
  destruct (@run_without_epochs toy (Host false false) no_epochs () "snapshot")
    as [_ Hassd]; [simpl; lia|].
  apply Hassd.
Defined.

Lemma checkpoint_sequence_witness :
  @saved_paths toy (@trainer_synapse toy (Host true false) ninety_epochs () "snapshot").1
  = checkpoint "snapshot" <$> [81; 82; 83; 84; 85; 86; 87; 88; 89; 89].
Proof.
  destruct (@checkpoint_sequence toy (Host true false) ninety_epochs () "snapshot")
    as (Hsyn & _ & _); [reflexivity|simpl; lia|].
  exact Hsyn.
Defined.

End trainer_unet_more.

(** ** The progress lines of a run *)

Module trainer_unet_progress_theory.

Import trainer_unet trainer_unet_theory trainer_unet_progress.
Local Open Scope Z_scope.

Section Progress.

Context `{Framework}.

Lemma mini_batch_lines_app t1 t2 :
  mini_batch_lines (t1 ++ t2) = mini_batch_lines t1 ++ mini_batch_lines t2.
Proof. apply omap_app. Qed.

Lemma synapse_batch_prints h a len max_iterations e :
  cuda_is_available h = true →
  prints_spec max_iterations (synapse_batch h a len max_iterations e)
    (λ i, if decide (i `mod` 10 = 0) then [(e, i, len)] else []).
Proof.
  intros Hcuda v i [image label] Hit.
  unfold synapse_batch, backprop_and_step, to_cuda. rewrite Hcuda, !ret_bind.
  destruct (optim_step _ _ _ _ _) as [m os] eqn:Hos.
  cbn [mbind M_bind bind do ret app iter_num].
  rewrite poly_lr_Return by done.
  case_decide; (eexists _, _; split; [reflexivity|]); split; cbn; (lia || done).
Qed.

Lemma assd_batch_prints h a max_iterations :
  cuda_is_available h = true →
  prints_spec max_iterations (assd_batch h a max_iterations) (λ _, []).
Proof.
  intros Hcuda v i [image label] Hit.
  unfold assd_batch, backprop_and_step, to_cuda. rewrite Hcuda, !ret_bind.
  destruct (optim_step _ _ _ _ _) as [m os] eqn:Hos.
  cbn [mbind M_bind bind do ret app iter_num].
  rewrite poly_lr_Return by done.
  eexists _, _; split; [reflexivity|]; split; cbn; (lia || done).
Qed.

Lemma enumerate_lookup {A} (l : list A) j i x :
  enumerate l !! j = Some (i, x) → i = Z.of_nat j.
Proof.
  unfold enumerate. rewrite list_lookup_imap.
  destruct (l !! j); simpl; [|done]. by intros [= <- _].
Qed.

Lemma batch_loop_prints max_iterations batch g (l : list (Tensor * Tensor)) v k :
  prints_spec max_iterations batch g →
  0 <= k → k + Z.of_nat (length l) <= max_iterations → iter_num v = k →
  ∃ t v', foldM batch (enumerate l) v = (t, Return v') ∧
    iter_num v' = k + Z.of_nat (length l) ∧
    mini_batch_lines t = range (Z.of_nat (length l)) ≫= g.
Proof.
  intros Hb Hk Hmax Hit.
  destruct (foldM_inv
    (λ j tr v, iter_num v = k + Z.of_nat j ∧
               mini_batch_lines tr = range (Z.of_nat j) ≫= g)
    batch (enumerate l) v []) as (t & v' & Hf & Hit' & Hp).
  - split; [lia|done].
  - intros j tr w [i x] Hj [Hitj Hpj].
    pose proof (enumerate_lookup _ _ _ _ Hj) as ->.
    apply lookup_lt_Some in Hj. rewrite enumerate_length in Hj.
    destruct (Hb w (Z.of_nat j) x) as (t & w' & Hw & Hitw & Hpw); [lia|].
    exists t, w'. split; [done|]. split; [lia|].
    rewrite mini_batch_lines_app, Hpj, Hpw.
    replace (Z.of_nat (S j)) with (Z.of_nat j + 1) by lia.
    rewrite range_succ by lia. rewrite bind_app. simpl. by rewrite app_nil_r.
  - rewrite enumerate_length in Hit', Hp. exists t, v'. done.
Qed.

Lemma epoch_of_prints batch g a p db bs max_epoch v e :
  let len := len_trainloader db bs in
  prints_spec (max_epoch * len) (batch e) (g e) →
  0 <= e < max_epoch → iter_num v = e * len →
  ∃ t v',
    epoch_of batch a p db bs max_epoch v e
      = (t, Return (v', bool_decide (e >= max_epoch - 1))) ∧
    iter_num v' = (e + 1) * len ∧
    mini_batch_lines t = range len ≫= g e.
Proof.
  intros len Hb He Hit.
  pose proof (length_batches db bs (seed a) e) as Hlen. fold len in Hlen.
  destruct (batch_loop_prints (max_epoch * len) (batch e) (g e)
              (batches db bs (seed a) e) v (e * len))
    as (t & v' & Hf & Hit' & Hp); try done.
  { lia. }
  { rewrite Hlen. nia. }
  rewrite Hlen in Hit', Hp.
  unfold epoch_of. rewrite (bind_Return _ _ _ _ Hf).
  destruct (decide (e > 80)), (decide (e >= max_epoch - 1));
    [rewrite bool_decide_true by done | rewrite bool_decide_false by done
    |rewrite bool_decide_true by done | rewrite bool_decide_false by done];
    cbn [mbind M_bind bind do ret app fst snd];
    eexists _, v'; (split; [reflexivity|]); (split; [lia|]);
    rewrite mini_batch_lines_app, Hp; cbn; by rewrite app_nil_r.
Qed.

Lemma epochs_loop_prints batch g a p db bs max_epoch v :
  let len := len_trainloader db bs in
  (∀ e, prints_spec (max_epoch * len) (batch e) (g e)) →
  iter_num v = 0 →
  ∃ t v',
    foldM_break (epoch_of batch a p db bs max_epoch) (range max_epoch) v
      = (t, Return v') ∧
    mini_batch_lines t = range max_epoch ≫= λ e, range len ≫= g e.
Proof.
  intros len Hb Hit.
  destruct (foldM_break_inv
    (λ j tr v, iter_num v = Z.of_nat j * len ∧
               mini_batch_lines tr = range (Z.of_nat j) ≫= λ e, range len ≫= g e)
    (epoch_of batch a p db bs max_epoch) (range max_epoch) v [])
    as (t & v' & Hf & _ & Hp).
  - split; [lia|done].
  - intros j tr w e Hj (Hitj & Hpj).
    apply range_lookup in Hj as [-> Hj].
    destruct (epoch_of_prints batch g a p db bs max_epoch w (Z.of_nat j))
      as (t & w' & Hw & Hit' & Hp'); try done.
    { lia. }
    exists t, w', (bool_decide (Z.of_nat j >= max_epoch - 1)).
    split; [done|]. split.
    + replace (Z.of_nat (S j)) with (Z.of_nat j + 1) by lia.
      split; [done|].
      rewrite range_succ by lia. rewrite bind_app.
      rewrite mini_batch_lines_app, Hpj, Hp'. simpl. by rewrite app_nil_r.
    + intros Hstop%bool_decide_eq_true. rewrite range_length. lia.
  - exists t, v'. split; [done|]. rewrite range_length in Hp.
    by rewrite range_of_to_nat in Hp.
Qed.

Lemma mini_batch_lines_around pre t post :
  mini_batch_lines pre = [] → mini_batch_lines post = [] →
  mini_batch_lines (pre ++ t ++ post) = mini_batch_lines t.
Proof.
  intros Hpre Hpost. rewrite !mini_batch_lines_app, Hpre, Hpost.
  by rewrite app_nil_r.
Qed.

Lemma bind_nils {A B} (l : list A) (f : A → list B) :
  (∀ a, f a = []) → l ≫= f = [].
Proof.
  intros Hf. induction l as [|a l IH]; [done|]. by rewrite bind_cons, IH, Hf.
Qed.

(** X25: on a host with CUDA, [trainer_synapse] prints its mini-batch line
    for exactly the batches whose index in the epoch is a multiple of 10, in
    every epoch and in order, each with the number of batches of the loader;
    [trainer_assd] prints no such line. *)
Theorem mini_batch_progress h a m p :
  let bs := batch_size a * n_gpu a in
  let len :=
    len_trainloader (Synapse_dataset (root_path a) (list_dir a) (img_size a)) bs in
  cuda_is_available h = true →
  mini_batch_lines (trainer_synapse h a m p).1
    = (range (max_epochs a) ≫= λ e, range len ≫= λ i,
         if decide (i `mod` 10 = 0) then [(e, i, len)] else []) ∧
  mini_batch_lines (trainer_assd h a m p).1 = [].
Proof.
  intros bs len Hc. split.
  - unfold trainer_synapse. rewrite synapse_epoch_eq.
    set (v0 := TrainVars _ _ _ _).
    destruct (epochs_loop_prints
                (synapse_batch h a len (max_epochs a * len))
                (λ e i, if decide (i `mod` 10 = 0) then [(e, i, len)] else [])
                a p (Synapse_dataset (root_path a) (list_dir a) (img_size a))
                bs (max_epochs a) v0)
      as (t & v' & Hf & Hp); [intros; by apply synapse_batch_prints|done|].
    fold bs len. unfold device_check, profile_cuda. rewrite Hc.
    cbn [mbind M_bind bind do ret app read_local]. rewrite Hf.
    cbn [fst].
    etrans; [apply (mini_batch_lines_around [_; _; _; _] t [_; _]); reflexivity|].
    exact Hp.
  - unfold trainer_assd. rewrite assd_epoch_eq.
    set (v0 := TrainVars _ _ _ _).
    set (db := ASSD_dataset (root_path a) (list_dir a) (img_size a)).
    destruct (epochs_loop_prints
                (λ _, assd_batch h a (max_epochs a * len_trainloader db bs))
                (λ _ _, [])
                a p db bs (max_epochs a) v0)
      as (t & v' & Hf & Hp); [intros; by apply assd_batch_prints|done|].
    fold bs. cbn [mbind M_bind bind do ret app].
    rewrite Hf. cbn [fst].
    etrans; [apply (mini_batch_lines_around [_; _; _] t [_]); reflexivity|].
    rewrite Hp.
    apply bind_nils. intros e. by apply bind_nils.
Qed.

End Progress.

Lemma mini_batch_progress_witness :
  @mini_batch_lines toy (@trainer_synapse toy (Host true false) one_epoch () "snapshot").1
  = [(0, 0, 2)].
Proof.
  destruct (@mini_batch_progress toy (Host true false) one_epoch () "snapshot")
    as [Hsyn _]; [reflexivity|].
  exact Hsyn.
Defined.

End trainer_unet_progress_theory.

(** ** Further properties of [KDloss] *)

Module KDloss_more.

Import KDloss KDloss_theory examples.
Local Open Scope nat_scope.

Lemma big_sum_zero lo n : big_sum (λ _, 0%R) lo n = 0%R.
Proof.
  unfold big_sum. revert lo. induction n as [|n IH]; intros lo; simpl; [done|].
  rewrite IH. lra.
Qed.

Lemma sum4_zero N C H W f :
  (∀ n c h w, f n c h w = 0%R) → sum4 N C H W f = 0%R.
Proof.
  intros Hf. rewrite (sum4_ext _ _ _ _ f (λ _ _ _ _, 0%R)) by done.
  unfold sum4.
  rewrite (big_sum_ext _ (λ _, 0%R)); [apply big_sum_zero|]. intros n.
  rewrite (big_sum_ext _ (λ _, 0%R)); [apply big_sum_zero|]. intros c.
  rewrite (big_sum_ext _ (λ _, 0%R)); [apply big_sum_zero|]. intros h.
  apply big_sum_zero.
Qed.

(** The mean squared error of two tensors of one shape that agree wherever
    they are read is zero. *)
Lemma mse_loss_equal a b :
  size0 a = size0 b → size1 a = size1 b → size2 a = size2 b → size3 a = size3 b →
  numel a ≠ 0 →
  (∀ n c h w, at_ a n c h w = at_ b n c h w) →
  mse_loss a b = Some (Finite 0).
Proof.
  intros H0 H1 H2 H3 Hne Heq. unfold mse_loss.
  rewrite <- H0, <- H1, <- H2, <- H3, !broadcast_dim_diag.
  cbn [mbind option_bind]. rewrite decide_False by done.
  rewrite sum4_zero; [do 2 f_equal; unfold Rdiv; ring|].
  intros n c h w. rewrite Heq. ring.
Qed.

(** X19: the inter-feature term of a map with no empty dimension against
    itself, with the same channels drawn on both sides, is zero. *)
Theorem inter_fd_self f idx :
  Forall (λ i, i < size1 f) idx →
  0 < size0 f → 0 < length idx → 0 < size2 f → 0 < size3 f →
  inter_fd f f idx idx = Some (Finite 0).
Proof.
  intros Hidx HN HC HH HW. unfold inter_fd.
  rewrite !(decide_False (P := size2 f < size2 f)) by lia.
  cbn [mbind option_bind]. unfold select_channels.
  rewrite decide_True by done. cbn [mbind option_bind].
  apply mse_loss_equal; try done.
  unfold numel; cbn [size0 size1 size2 size3]. 
  repeat (apply Nat.neq_mul_0; split); lia.
Qed.

Lemma inter_fd_self_witness :
  inter_fd two_channels two_channels [1; 0] [1; 0] = Some (Finite 0).
Proof.
  apply inter_fd_self.
  - apply (bool_decide_unpack _). by vm_compute.
  - simpl; lia.
  - simpl; lia.
  - simpl; lia.
  - simpl; lia.
Defined.

(** X20: for two square feature maps of one batch size and no empty
    dimension, of any two sizes and channel counts, and for any two draws of
    min(s_C, t_C) channel indices, [inter_fd] returns a number, and it is
    not negative. *)
Theorem inter_fd_square_maps f_s f_t idx_s idx_t :
  size0 f_s = size0 f_t → 0 < size0 f_s →
  size3 f_s = size2 f_s → size3 f_t = size2 f_t →
  0 < size2 f_s → 0 < size2 f_t →
  0 < size1 f_s → 0 < size1 f_t →
  length idx_s = size1 f_s `min` size1 f_t → Forall (λ i, i < size1 f_s) idx_s →
  length idx_t = size1 f_s `min` size1 f_t → Forall (λ i, i < size1 f_t) idx_t →
  ∃ v, inter_fd f_s f_t idx_s idx_t = Some (Finite v) ∧ (0 <= v)%R.
Proof.
  intros HN HN0 Hss Hst HHs HHt HCs HCt Hls His Hlt Hit.
  assert (∃ v, inter_fd f_s f_t idx_s idx_t = Some (Finite v)) as [v Hv].
  { unfold inter_fd, adaptive_avg_pool2d.
    destruct (decide (size2 f_t < size2 f_s)) as [Hlt'|Hge].
    - rewrite decide_False by lia. cbn [mbind option_bind].
      unfold select_channels; cbn [size0 size1 size2 size3].
      rewrite !decide_True by done. cbn [mbind option_bind].
      apply mse_loss_same_shape; cbn [size0 size1 size2 size3]; try done; try lia.
      unfold numel; cbn [size0 size1 size2 size3]. apply numel_selected; lia.
    - destruct (decide (size2 f_s < size2 f_t)) as [Hlt'|Hge'].
      + rewrite decide_False by lia. cbn [mbind option_bind].
        unfold select_channels; cbn [size0 size1 size2 size3].
        rewrite !decide_True by done. cbn [mbind option_bind].
        apply mse_loss_same_shape; cbn [size0 size1 size2 size3]; try done; try lia.
        unfold numel; cbn [size0 size1 size2 size3]. apply numel_selected; lia.
      + cbn [mbind option_bind].
        unfold select_channels; cbn [size0 size1 size2 size3].
        rewrite !decide_True by done. cbn [mbind option_bind].
        apply mse_loss_same_shape; cbn [size0 size1 size2 size3]; try done; try lia.
        unfold numel; cbn [size0 size1 size2 size3]. apply numel_selected; lia. }
  exists v. split; [done|]. by eapply inter_fd_nonneg.
Qed.

Lemma inter_fd_square_maps_witness :
  ∃ v, inter_fd four_pixels two_channels [0; 1] [1; 0] = Some (Finite v) ∧ (0 <= v)%R.
Proof.
  apply inter_fd_square_maps.
  - reflexivity.
  - simpl; lia.
  - reflexivity.
  - reflexivity.
  - simpl; lia.
  - simpl; lia.
  - simpl; lia.
  - simpl; lia.
  - reflexivity.
  - apply (bool_decide_unpack _). by vm_compute.
  - reflexivity.
  - apply (bool_decide_unpack _). by vm_compute.
Defined.

Lemma mse_loss_width_mismatch a b :
  size2 a = size2 b → size3 a ≠ size3 b → size3 a ≠ 1 → size3 b ≠ 1 →
  mse_loss a b = None.
Proof.
  intros HH HW Ha Hb. unfold mse_loss.
  destruct (broadcast_dim (size0 a) (size0 b)); [cbn [mbind option_bind]|done].
  destruct (broadcast_dim (size1 a) (size1 b)); [cbn [mbind option_bind]|done].
  rewrite HH, broadcast_dim_diag. cbn [mbind option_bind].
  unfold broadcast_dim at 1. by rewrite !decide_False by done.
Qed.

Lemma select_channels_sizes f idx a :
  select_channels f idx = Some a → size2 a = size2 f ∧ size3 a = size3 f.
Proof. unfold select_channels. case_decide; [|done]. by intros [= <-]. Qed.

(** X21: [inter_fd] pools the higher map to (h, h), h the height of the
    lower one, so it fails with the size mismatch of [F.mse_loss] when the
    lower map is not square (and neither its height nor its width is 1). *)
Theorem inter_fd_needs_square f_s f_t idx_s idx_t :
  (size2 f_t < size2 f_s →
   size3 f_t ≠ size2 f_t → size2 f_t ≠ 1 → size3 f_t ≠ 1 →
   inter_fd f_s f_t idx_s idx_t = None) ∧
  (size2 f_s < size2 f_t →
   size3 f_s ≠ size2 f_s → size2 f_s ≠ 1 → size3 f_s ≠ 1 →
   inter_fd f_s f_t idx_s idx_t = None).
Proof.
  split; intros Hlt Hsq H1 H1'; unfold inter_fd, adaptive_avg_pool2d.
  - rewrite decide_True by done.
    case_decide; [done|]. cbn [mbind option_bind].
    destruct (select_channels _ idx_s) as [a|] eqn:Ha; [cbn [mbind option_bind]|done].
    destruct (select_channels _ idx_t) as [b|] eqn:Hb; [cbn [mbind option_bind]|done].
    apply select_channels_sizes in Ha as [Ha2 Ha3], Hb as [Hb2 Hb3].
    cbn [size2 size3] in Ha2, Ha3.
    apply mse_loss_width_mismatch; congruence.
  - rewrite decide_False by lia. rewrite decide_True by done.
    case_decide; [done|]. cbn [mbind option_bind].
    destruct (select_channels _ idx_s) as [a|] eqn:Ha; [cbn [mbind option_bind]|done].
    destruct (select_channels _ idx_t) as [b|] eqn:Hb; [cbn [mbind option_bind]|done].
    apply select_channels_sizes in Ha as [Ha2 Ha3], Hb as [Hb2 Hb3].
    cbn [size2 size3] in Hb2, Hb3.
    apply mse_loss_width_mismatch; congruence.
Qed.

Lemma inter_fd_needs_square_witness :
  inter_fd large_map wide_map [0; 1] [0; 1] = None.
Proof.
  apply (proj1 (inter_fd_needs_square large_map wide_map [0; 1] [0; 1])).
  - simpl; lia.
  - simpl; lia.
  - simpl; lia.
  - simpl; lia.
Defined.

Lemma nth_bound (idx : list nat) C k :
  0 < C → Forall (λ i, i < C) idx → nth k idx 0 < C.
Proof.
  intros HC Hidx. destruct (decide (k < length idx)) as [Hk|Hk].
  - rewrite Forall_forall in Hidx. apply Hidx, list_elem_of_In, nth_In. done.
  - rewrite nth_overflow by lia. done.
Qed.

(** X22: on a map with an even number of channels and no empty dimension
    whose channels are all equal, [intra_fd] returns zero. *)
Theorem intra_fd_equal_channels f :
  (∀ n c c' h w, c < size1 f → c' < size1 f → at_ f n c h w = at_ f n c' h w) →
  Nat.Even (size1 f) → 0 < size0 f → 0 < size1 f → 0 < size2 f → 0 < size3 f →
  intra_fd f = Some (Finite 0).
Proof.
  intros Heq [k Hk] HN HC HH HW. unfold intra_fd, select_channels.
  pose proof (argsort_desc_bound (channel_means (normalize f))) as Hb.
  rewrite channel_means_length in Hb. cbn [normalize size1] in Hb.
  rewrite decide_True by done. cbn [mbind option_bind size1].
  rewrite argsort_desc_length, channel_means_length. cbn [normalize size1].
  assert (size1 f / 2 = k) as -> by (rewrite Hk, Nat.mul_comm; by apply Nat.div_mul).
  apply mse_loss_equal; unfold numel, slice_channels;
    cbn [size0 size1 size2 size3 at_]; try done; try lia.
  intros n c h w. apply Heq; by apply nth_bound.
Qed.

Lemma intra_fd_equal_channels_witness :
  intra_fd ones = Some (Finite 0).
Proof.
  apply intra_fd_equal_channels.
  - reflexivity.
  - exists 1. reflexivity.
  - simpl; lia.
  - simpl; lia.
  - simpl; lia.
  - simpl; lia.
Defined.

Lemma scalar_add_nonneg a b :
  (∀ x, a = Finite x → (0 <= x)%R) → (∀ y, b = Finite y → (0 <= y)%R) →
  ∀ v, scalar_add a b = Finite v → (0 <= v)%R.
Proof.
  intros Ha Hb v. destruct a as [x|], b as [y|]; try done.
  intros [= <-]. specialize (Ha x eq_refl). specialize (Hb y eq_refl). lra.
Qed.

Lemma scalar_div_nonneg a k :
  (0 < k)%R → (∀ x, a = Finite x → (0 <= x)%R) →
  ∀ v, scalar_div a k = Finite v → (0 <= v)%R.
Proof.
  intros Hk Ha v. destruct a as [x|]; try done.
  intros [= <-]. specialize (Ha x eq_refl).
  apply Rmult_le_pos; [done|]. left. by apply Rinv_0_lt_compat.
Qed.

Lemma scalar_mul_nonneg a k :
  (0 <= k)%R → (∀ x, a = Finite x → (0 <= x)%R) →
  ∀ v, scalar_mul a k = Finite v → (0 <= v)%R.
Proof.
  intros Hk Ha v. destruct a as [x|]; try done.
  intros [= <-]. specialize (Ha x eq_refl). by apply Rmult_le_pos.
Qed.

(** X23: for a coefficient [lambda_x] that is not negative, a number
    returned by [KDloss.forward] is not negative. *)
Theorem forward_nonnegative lambda_x feature feature_decoder final_up draws v :
  (0 <= lambda_x)%R →
  forward lambda_x feature feature_decoder final_up draws = Some (Finite v) →
  (0 <= v)%R.
Proof.
  intros Hl Hf. unfold forward in Hf.
  repeat match type of Hf with
  | (?e ≫= _) = Some _ =>
      let E := fresh "E" in
      destruct e eqn:E; [cbn [mbind option_bind] in Hf|done]
  end.
  cbv zeta in Hf. injection Hf as Hf. revert v Hf.
  repeat first
    [ apply scalar_mul_nonneg; [done|]
    | apply scalar_div_nonneg; [lra|]
    | apply scalar_add_nonneg
    | (intros x ->;
       first [by eapply intra_fd_nonneg | by eapply inter_fd_nonneg]) ].
Qed.

Lemma forward_two_channels :
  forward 1 [two_channels; two_channels; two_channels; two_channels]
    [two_channels; two_channels; two_channels] two_channels
    (replicate 7 ([0; 1], [0; 1]))
  = Some (Finite 2).
Proof.
  unfold forward.
  cbn [replicate lookup list_lookup mbind option_bind fst snd].
  rewrite !intra_fd_two_channels, !inter_fd_two_channels.
  cbn [mbind option_bind scalar_add scalar_div scalar_mul].
  do 2 f_equal. lra.
Qed.

Lemma forward_nonnegative_witness : (0 <= 2)%R.
Proof.
  apply (forward_nonnegative 1 [two_channels; two_channels; two_channels; two_channels]
           [two_channels; two_channels; two_channels] two_channels
           (replicate 7 ([0; 1], [0; 1]))).
  - lra.
  - apply forward_two_channels.
Defined.

(** X24: [KDloss.forward] reads the first four encoder maps and the first
    three decoder maps only, any further entry being ignored, and raises
    when given fewer. *)
Theorem forward_reads_four_and_three lambda_x feature feature_decoder final_up draws :
  forward lambda_x feature feature_decoder final_up draws
    = forward lambda_x (take 4 feature) (take 3 feature_decoder) final_up (take 7 draws) ∧
  (length feature < 4 ∨ length feature_decoder < 3 →
   forward lambda_x feature feature_decoder final_up draws = None).
Proof.
  split.
  - unfold forward. by rewrite !lookup_take_lt by lia.
  - intros Hlen. unfold forward.
    destruct (feature !! 0) eqn:E0; [cbn [mbind option_bind]|done].
    destruct (feature !! 1) eqn:E1; [cbn [mbind option_bind]|done].
    destruct (feature !! 2) eqn:E2; [cbn [mbind option_bind]|done].
    destruct (feature !! 3) eqn:E3; [cbn [mbind option_bind]|done].
    destruct (feature_decoder !! 0) eqn:D0; [cbn [mbind option_bind]|done].
    destruct (feature_decoder !! 1) eqn:D1; [cbn [mbind option_bind]|done].
    destruct (feature_decoder !! 2) eqn:D2; [cbn [mbind option_bind]|done].
    apply lookup_lt_Some in E3, D2. lia.
Qed.

End KDloss_more.
